(** * Contribution aggregator: merge, summary and calendar rendering

    A shallow embedding of [server.js]: [mergeMaps], [mergedMapToPayload],
    [renderCalendarSVG] and [parseUsersParam], together with the parts of
    the ECMAScript [Date], [Map], [Array] and [String] built-ins those
    functions call.

    Conventions of the embedding.
    - A JavaScript number that holds an integer is a [Z].  Every quantity of
      the program is an integer (counts, time values in milliseconds,
      pixel coordinates); the products by 0.25, 0.5 and 0.75 are followed
      by [Math.floor] and are written as floor divisions.
    - A JavaScript string is a [string]; its characters are the code units
      of the source string (all below 256 for dates and logins).
    - A [Map] and a plain object used as a dictionary with date or month
      keys are insertion-ordered association lists with distinct keys.
    - [None] in a result of type [option] stands for [undefined], [null]
      or an Invalid Date, as said at each definition. *)

From Stdlib Require Import ZArith Lia Ascii.
From stdpp Require Import base tactics option list numbers strings sorting pretty.

Local Open Scope Z_scope.

(** ** Dictionaries: [Map] and plain objects keyed by strings *)

Abbreviation dict := (list (string * Z)).

Module Dict.

(** [m.get(k)], [o[k]]: [None] is [undefined]. *)
Fixpoint get (k : string) (m : dict) : option Z :=
  match m with
  | [] => None
  | (k', v') :: m' => if decide (k = k') then Some v' else get k m'
  end.

(** [m.set(k, v)], [o[k] = v]: an existing key keeps its position, a new
    key goes last. *)
Fixpoint set (k : string) (v : Z) (m : dict) : dict :=
  match m with
  | [] => [(k, v)]
  | (k', v') :: m' =>
      if decide (k = k') then (k, v) :: m' else (k', v') :: set k v m'
  end.

(** [m.keys()], [Object.keys(o)]. *)
Definition keys (m : dict) : list string := m.*1.

(** [Object.values(o)]. *)
Definition values (m : dict) : list Z := m.*2.

(** [k in o]. *)
Definition has (k : string) (m : dict) : bool := bool_decide (is_Some (get k m)).

(** The invariant of a [Map]: no key occurs twice. *)
Definition wf (m : dict) : Prop := NoDup (keys m).

End Dict.

(** [x || 0] on a number or [undefined]. *)
Definition or_zero (x : option Z) : Z :=
  match x with
  | Some v => if decide (v = 0) then 0 else v
  | None => 0
  end.

(** [x || null] on a string or [undefined]: the empty string is falsy. *)
Definition or_null (x : option string) : option string :=
  match x with
  | Some s => if decide (s = "") then None else Some s
  | None => None
  end.

(** ** [mergeMaps] *)

(** The inner loop: the entries of [m] added into [merged]. *)
Definition mergeInto (merged m : dict) : dict :=
  foldl (fun merged '(date, count) =>
           Dict.set date (or_zero (Dict.get date merged) + count) merged)
        merged m.

Definition mergeMaps (maps : list dict) : dict :=
  foldl mergeInto [] maps.

(** ** [mergedMapToPayload] *)

(** [Array.prototype.sort()] on strings: ascending code-unit order. *)
Definition Array_sort (l : list string) : list string := merge_sort String.le l.

Record Payload := {
  payload_start : option string;
  payload_end : option string;
  payload_total : Z;
  payload_counts : dict
}.

Definition mergedMapToPayload (merged : dict) : Payload :=
  let dates := Array_sort (Dict.keys merged) in
  let start := or_null (head dates) in
  let end_ := or_null (last dates) in
  let '(total, counts) :=
    foldl (fun '(total, counts) '(d, c) => (total + c, Dict.set d c counts))
          (0, []) merged in
  {| payload_start := start; payload_end := end_;
     payload_total := total; payload_counts := counts |}.

(** ** ECMAScript time values and the [Date] built-ins

    A time value is a number of milliseconds since 1970-01-01T00:00:00Z.
    The definitions follow the abstract operations of the language
    specification (section "Date Objects"), with [/] and [mod] the floor
    division and its remainder. *)

Module JsDate.

Definition msPerDay : Z := 86400000.
Definition msPerHour : Z := 3600000.
Definition msPerMinute : Z := 60000.
Definition msPerSecond : Z := 1000.

Definition Day (t : Z) : Z := t / msPerDay.
Definition TimeWithinDay (t : Z) : Z := t mod msPerDay.

Definition DaysInYear (y : Z) : Z :=
  if negb (y mod 4 =? 0) then 365
  else if negb (y mod 100 =? 0) then 366
  else if negb (y mod 400 =? 0) then 365
  else 366.

Definition DayFromYear (y : Z) : Z :=
  365 * (y - 1970) + (y - 1969) / 4 - (y - 1901) / 100 + (y - 1601) / 400.

Definition TimeFromYear (y : Z) : Z := msPerDay * DayFromYear y.

(** The largest [y] with [TimeFromYear y <= t] (lemma [YearFromTime_spec]):
    the mean year of 146097/400 days gives an estimate that is off by at
    most one. *)
Definition YearFromTime (t : Z) : Z :=
  let d := Day t in
  let y := 1970 + 400 * d / 146097 in
  if DayFromYear (y + 1) <=? d then y + 1
  else if DayFromYear y <=? d then y
  else y - 1.

Definition DayWithinYear (t : Z) : Z := Day t - DayFromYear (YearFromTime t).

Definition leapOfYear (y : Z) : Z := if DaysInYear y =? 366 then 1 else 0.

Definition InLeapYear (t : Z) : Z := leapOfYear (YearFromTime t).

(** Day within the year of the first day of month [mn] (0 is January):
    the bounds of the table of [MonthFromTime]. *)
Definition firstDayOfMonth (leap mn : Z) : Z :=
  match mn with
  | 0 => 0 | 1 => 31 | 2 => 59 + leap | 3 => 90 + leap
  | 4 => 120 + leap | 5 => 151 + leap | 6 => 181 + leap | 7 => 212 + leap
  | 8 => 243 + leap | 9 => 273 + leap | 10 => 304 + leap | _ => 334 + leap
  end.

Definition MonthFromTime (t : Z) : Z :=
  let d := DayWithinYear t in
  let l := InLeapYear t in
  if d <? 31 then 0
  else if d <? 59 + l then 1
  else if d <? 90 + l then 2
  else if d <? 120 + l then 3
  else if d <? 151 + l then 4
  else if d <? 181 + l then 5
  else if d <? 212 + l then 6
  else if d <? 243 + l then 7
  else if d <? 273 + l then 8
  else if d <? 304 + l then 9
  else if d <? 334 + l then 10
  else 11.

Definition DateFromTime (t : Z) : Z :=
  DayWithinYear t - firstDayOfMonth (InLeapYear t) (MonthFromTime t) + 1.

Definition WeekDay (t : Z) : Z := (Day t + 4) mod 7.

Definition HourFromTime (t : Z) : Z := (t / msPerHour) mod 24.
Definition MinFromTime (t : Z) : Z := (t / msPerMinute) mod 60.
Definition SecFromTime (t : Z) : Z := (t / msPerSecond) mod 60.
Definition msFromTime (t : Z) : Z := t mod msPerSecond.

Definition MakeTime (hour min sec ms : Z) : Z :=
  hour * msPerHour + min * msPerMinute + sec * msPerSecond + ms.

(** [MakeDay]: the day number of the first day of month [mn] of year [ym],
    plus [date - 1]. *)
Definition MakeDay (year month date : Z) : Z :=
  let ym := year + month / 12 in
  let mn := month mod 12 in
  DayFromYear ym + firstDayOfMonth (leapOfYear ym) mn + date - 1.

Definition MakeDate (day time : Z) : Z := day * msPerDay + time.

(** [TimeClip]: [None] is NaN, the time value of an Invalid Date. *)
Definition TimeClip (time : Z) : option Z :=
  if Z.abs time <=? 8640000000000000 then Some time else None.

(** [Date.UTC(year, month, date)]. *)
Definition UTC (year month date : Z) : option Z :=
  let yr := if (0 <=? year) && (year <=? 99) then 1900 + year else year in
  TimeClip (MakeDate (MakeDay yr month date) (MakeTime 0 0 0 0)).

(** [new Date(value)] for a number. *)
Definition ofNumber (value : Z) : option Z := TimeClip value.

Definition getUTCDay (t : Z) : Z := WeekDay t.
Definition getUTCDate (t : Z) : Z := DateFromTime t.

(** [d.setUTCDate(date)]: the new time value of [d]. *)
Definition setUTCDate (t date : Z) : option Z :=
  TimeClip (MakeDate (MakeDay (YearFromTime t) (MonthFromTime t) date)
                     (TimeWithinDay t)).

(** [d.setUTCHours(hour, min, sec, ms)]. *)
Definition setUTCHours (t hour min sec ms : Z) : option Z :=
  TimeClip (MakeDate (Day t) (MakeTime hour min sec ms)).

(** One decimal digit. *)
Definition digitChar (n : Z) : ascii :=
  Ascii.ascii_of_N (48 + Z.to_N (n mod 10)).

(** [n] as [k] decimal digits, most significant first. *)
Fixpoint digits (k : nat) (n : Z) : string :=
  match k with
  | O => ""
  | S k' => digits k' (n / 10) +:+ String (digitChar n) ""
  end.

(** The year of the date-time string format: four digits from 0000 to
    9999, otherwise a sign and six digits. *)
Definition yearString (y : Z) : string :=
  if (0 <=? y) && (y <=? 9999) then digits 4 y
  else if 0 <=? y then "+" +:+ digits 6 y
  else "-" +:+ digits 6 (- y).

(** [d.toISOString()] of a valid date. *)
Definition toISOString (t : Z) : string :=
  yearString (YearFromTime t) +:+ "-" +:+ digits 2 (MonthFromTime t + 1)
    +:+ "-" +:+ digits 2 (DateFromTime t)
    +:+ "T" +:+ digits 2 (HourFromTime t) +:+ ":" +:+ digits 2 (MinFromTime t)
    +:+ ":" +:+ digits 2 (SecFromTime t) +:+ "." +:+ digits 3 (msFromTime t)
    +:+ "Z".

End JsDate.

(** ** String built-ins *)

(** [s.split(sep)] for a one-character separator. *)
Fixpoint split (sep : ascii) (s : string) : list string :=
  match s with
  | "" => [""]
  | String c s' =>
      if decide (c = sep) then "" :: split sep s'
      else match split sep s' with
           | [] => [String c ""]
           | w :: ws => String c w :: ws
           end
  end.

Definition isDigit (c : ascii) : bool :=
  let n := Ascii.N_of_ascii c in ((48 <=? n) && (n <=? 57))%N.

(** [Number(s)] on a string of decimal digits (the empty string gives 0).
    [None] is NaN, and also stands for the other literal forms (sign,
    fraction, exponent, radix prefix, white space), which no part of a
    date key has and which the embedding leaves out. *)
Fixpoint Number_go (acc : Z) (s : string) : option Z :=
  match s with
  | "" => Some acc
  | String c s' =>
      if isDigit c
      then Number_go (10 * acc + (Z.of_N (Ascii.N_of_ascii c) - 48)) s'
      else None
  end.

Definition Number (s : string) : option Z := Number_go 0 s.

(** [s.slice(0, n)]. *)
Definition slice0 (n : nat) (s : string) : string := String.substring 0 n s.

(** White space and line terminators among the code units below 256. *)
Definition isWhiteSpace (c : ascii) : bool :=
  Ascii.is_space c || bool_decide (c = Ascii.ascii_of_N 160).

Fixpoint trimStart (s : string) : string :=
  match s with
  | "" => ""
  | String c s' => if isWhiteSpace c then trimStart s' else s
  end.

(** [s.trim()]. *)
Definition trim (s : string) : string :=
  String.rev (trimStart (String.rev (trimStart s))).

(** ** Number built-ins *)

(** [Math.round(a / b)] for [b > 0]: the nearest integer, a half going
    up. *)
Definition Math_round_div (a b : Z) : Z := (2 * a + b) / (2 * b).

(** [Math.ceil(a / b)] for [b > 0]. *)
Definition Math_ceil_div (a b : Z) : Z := - ((- a) / b).

(** [Math.max(...xs, x)]. *)
Definition Math_max (xs : list Z) (x : Z) : Z := foldr Z.max x xs.

(** [for (let i = i0; ...; i++) body], run [n] times; a [None] of the
    body (an exception) ends the loop. *)
Fixpoint for_loop {S : Type} (n : nat) (i : Z) (body : Z -> S -> option S)
    (s : S) : option S :=
  match n with
  | O => Some s
  | Datatypes.S n' => s' ← body i s; for_loop n' (i + 1) body s'
  end.

(** ** [renderCalendarSVG] *)

(** The value of a rendering before it is written out: the locals of each
    iteration of the loops, in the order in which the fragments are
    appended. *)
Record Cell := {
  cell_date : Z;
  cell_iso : string;
  cell_count : Z;
  cell_dayOfWeek : Z;
  cell_weekIndex : Z;
  cell_x : Z;
  cell_y : Z;
  cell_fill : string;
  cell_title : string
}.

Record MonthLabel := {
  ml_key : string;
  ml_label : string;
  ml_weekIndex : Z;
  ml_textX : Z;
  ml_textY : Z
}.

Record WeekdayLabel := {
  wl_dow : Z;
  wl_label : string;
  wl_x : Z;
  wl_y : Z
}.

Record Calendar := {
  cal_width : Z;
  cal_height : Z;
  cal_monthLabels : list MonthLabel;
  cal_weekdayLabels : list WeekdayLabel;
  cal_rects : list Cell
}.

(** [Minimal] is the early return on a payload without dates. *)
Inductive Rendered :=
  | Minimal
  | Full (c : Calendar).

Record Grid := {
  grid_startDate : Z;
  grid_calendarStart : Z;
  grid_lastDate : Z;
  grid_totalDays : Z;
  grid_weeks : Z
}.

Section Render.

Import JsDate.

(** [None] is an Invalid Date. *)
Definition parseDate (s : string) : option Z :=
  match Number <$> split "-" s with
  | y :: m :: d :: _ => y ← y; m ← m; d ← d; UTC y (m - 1) d
  | _ => None
  end.

Definition rectSize : Z := 12.
Definition gap : Z := 4.
Definition paddingTop : Z := 22.
Definition paddingLeft : Z := 36.
Definition padding : Z := 8.

(** The week-aligned range: [startDate] to [weeks] in the source. *)
Definition grid (start end_ : string) : option Grid :=
  startDate ← parseDate start;
  let startDow := getUTCDay startDate in
  calendarStart ← setUTCDate startDate (getUTCDate startDate - startDow);
  calendarStart ← setUTCHours calendarStart 0 0 0 0;
  lastDate ← parseDate end_;
  let totalDays := Math_round_div (lastDate - calendarStart) msPerDay + 1 in
  let weeks := Math_ceil_div totalDays 7 in
  Some {| grid_startDate := startDate; grid_calendarStart := calendarStart;
          grid_lastDate := lastDate; grid_totalDays := totalDays;
          grid_weeks := weeks |}.

Definition breaks (maxCount : Z) : list Z :=
  [ Z.max 0 0;
    Z.max 1 (maxCount / 4);
    Z.max 1 (maxCount / 2);
    Z.max 1 (3 * maxCount / 4) ].

Definition palette : list string :=
  ["#ebedf0"; "#9be9a8"; "#40c463"; "#30a14e"; "#216e39"].

(** The loop of [colorForCount]: the first [i] with
    [count <= breaks[i]], if any. *)
Fixpoint firstBreak (bs : list Z) (count : Z) (i : nat) : option nat :=
  match bs with
  | [] => None
  | b :: bs' => if count <=? b then Some i else firstBreak bs' count (S i)
  end.

(** The index into [palette] that [colorForCount] returns. *)
Definition binForCount (bs : list Z) (count : Z) : nat :=
  default (length palette - 1)%nat (firstBreak bs count 0).

Definition colorForCount (bs : list Z) (count : Z) : string :=
  nth (binForCount bs count) palette "undefined".

(** [[y, m] = iso.split('-')] and the template [y-m]. *)
Definition monthKeyOf (iso : string) : string :=
  let parts := split "-" iso in
  nth 0 parts "undefined" +:+ "-" +:+ nth 1 parts "undefined".

Definition isoOf (d : Z) : string := slice0 10 (toISOString d).

(** One iteration of the first loop. *)
Definition monthStep (calendarStart : Z) (i : Z) (monthPositions : dict)
    : option dict :=
  d ← ofNumber (calendarStart + i * msPerDay);
  let monthKey := monthKeyOf (isoOf d) in
  if Dict.has monthKey monthPositions then Some monthPositions
  else
    let weekIndex := i / 7 in
    Some (Dict.set monthKey weekIndex monthPositions).

Definition weekdayLabels : list (Z * string) :=
  [(1, "Mon"); (3, "Wed"); (5, "Fri")].

(** The locals of iteration [i] of the second loop, for the date [d]. *)
Definition cellAt (dateToCount : dict) (bs : list Z) (i d : Z) : Cell :=
  let iso := isoOf d in
  let count := or_zero (Dict.get iso dateToCount) in
  let dayOfWeek := getUTCDay d in
  let weekIndex := i / 7 in
  let x := paddingLeft + padding + weekIndex * (rectSize + gap) in
  let y := paddingTop + padding + dayOfWeek * (rectSize + gap) in
  let fill := colorForCount bs count in
  let title := pretty count +:+ " contributions on " +:+ iso in
  {| cell_date := d; cell_iso := iso; cell_count := count;
     cell_dayOfWeek := dayOfWeek; cell_weekIndex := weekIndex;
     cell_x := x; cell_y := y; cell_fill := fill; cell_title := title |}.

(** One iteration of the second loop: a [rect] is appended. *)
Definition rectStep (calendarStart : Z) (dateToCount : dict) (bs : list Z)
    (i : Z) (rects : list Cell) : option (list Cell) :=
  d ← ofNumber (calendarStart + i * msPerDay);
  Some (rects ++ [cellAt dateToCount bs i d]).

(** The two loops over [i] from 0 to [totalDays - 1]. *)
Definition monthPositionsOf (calendarStart totalDays : Z) : option dict :=
  for_loop (Z.to_nat totalDays) 0 (monthStep calendarStart) [].

Definition rectsOf (calendarStart totalDays : Z) (dateToCount : dict)
    (bs : list Z) : option (list Cell) :=
  for_loop (Z.to_nat totalDays) 0 (rectStep calendarStart dateToCount bs) [].

Definition monthNames : list string :=
  ["Jan"; "Feb"; "Mar"; "Apr"; "May"; "Jun";
   "Jul"; "Aug"; "Sep"; "Oct"; "Nov"; "Dec"].

(** [monthNames[Number(m) - 1]]; a missing element prints as
    [undefined]. *)
Definition monthName (m : string) : string :=
  match Number m with
  | Some n => if 1 <=? n then nth (Z.to_nat (n - 1)) monthNames "undefined"
              else "undefined"
  | None => "undefined"
  end.

Definition monthLabel (monthPositions : dict) (mk : string) : MonthLabel :=
  let m := nth 1 (split "-" mk) "undefined" in
  let label := monthName m in
  let weekIndex := default 0 (Dict.get mk monthPositions) in
  let x := paddingLeft + padding + weekIndex * (rectSize + gap) in
  let textX := x in
  let textY := Z.max 12 (paddingTop - 6) in
  {| ml_key := mk; ml_label := label; ml_weekIndex := weekIndex;
     ml_textX := textX; ml_textY := textY |}.

Definition weekdayLabel (wl : Z * string) : WeekdayLabel :=
  let y := paddingTop + padding + wl.1 * (rectSize + gap) + rectSize / 2 + 4 in
  let x := paddingLeft - 6 in
  {| wl_dow := wl.1; wl_label := wl.2; wl_x := x; wl_y := y |}.

(** The body of [renderCalendarSVG] up to the final template.  [None]: a
    date of the payload is an Invalid Date. *)
Definition renderCalendar (mergedPayload : Payload) : option Rendered :=
  match or_null (payload_start mergedPayload),
        or_null (payload_end mergedPayload) with
  | Some start, Some end_ =>
      let dateToCount := payload_counts mergedPayload in
      g ← grid start end_;
      let calendarStart := grid_calendarStart g in
      let totalDays := grid_totalDays g in
      let weeks := grid_weeks g in
      let width := paddingLeft + padding + weeks * (rectSize + gap) in
      let height := paddingTop + padding + 7 * (rectSize + gap) in
      let vals := Dict.values dateToCount in
      let maxCount := Math_max vals 1 in
      let bs := breaks maxCount in
      monthPositions ← monthPositionsOf calendarStart totalDays;
      rects ← rectsOf calendarStart totalDays dateToCount bs;
      let monthKeys := Array_sort (Dict.keys monthPositions) in
      Some (Full {| cal_width := width; cal_height := height;
                    cal_monthLabels := monthLabel monthPositions <$> monthKeys;
                    cal_weekdayLabels := weekdayLabel <$> weekdayLabels;
                    cal_rects := rects |})
  | _, _ => Some Minimal
  end.

End Render.

(** *** The SVG text *)

Definition dq : string := String (Ascii.ascii_of_N 34) "".
Definition nl : string := String (Ascii.ascii_of_N 10) "".

(** [ name="value"], with the leading space. *)
Definition attr (name value : string) : string :=
  " " +:+ name +:+ "=" +:+ dq +:+ value +:+ dq.

Definition concatMap {A : Type} (f : A -> string) (l : list A) : string :=
  foldl (fun acc a => acc +:+ f a) "" l.

Definition rectSvg (c : Cell) : string :=
  "<rect" +:+ attr "x" (pretty (cell_x c)) +:+ attr "y" (pretty (cell_y c))
    +:+ attr "width" (pretty rectSize) +:+ attr "height" (pretty rectSize)
    +:+ attr "rx" "2" +:+ attr "ry" "2" +:+ attr "fill" (cell_fill c)
    +:+ attr "stroke" "#e6e6e6" +:+ attr "stroke-width" "0.5"
    +:+ "><title>" +:+ cell_title c +:+ "</title></rect>" +:+ nl.

Definition monthLabelSvg (l : MonthLabel) : string :=
  "<text" +:+ attr "x" (pretty (ml_textX l)) +:+ attr "y" (pretty (ml_textY l))
    +:+ attr "font-family" "Arial, Helvetica, sans-serif"
    +:+ attr "font-size" "11" +:+ attr "fill" "#6a737d"
    +:+ ">" +:+ ml_label l +:+ "</text>" +:+ nl.

Definition weekdayLabelSvg (l : WeekdayLabel) : string :=
  "<text" +:+ attr "x" (pretty (wl_x l)) +:+ attr "y" (pretty (wl_y l))
    +:+ attr "text-anchor" "end"
    +:+ attr "font-family" "Arial, Helvetica, sans-serif"
    +:+ attr "font-size" "11" +:+ attr "fill" "#6a737d"
    +:+ ">" +:+ wl_label l +:+ "</text>" +:+ nl.

Definition minimalSvg : string :=
  "<svg" +:+ attr "xmlns" "http://www.w3.org/2000/svg" +:+ "></svg>".

Definition svgText (usersLabel : string) (r : Rendered) : string :=
  match r with
  | Minimal => minimalSvg
  | Full c =>
      let width := pretty (cal_width c) in
      let height := pretty (cal_height c) in
      "<?xml" +:+ attr "version" "1.0" +:+ attr "encoding" "UTF-8" +:+ "?>"
        +:+ nl
        +:+ "<svg" +:+ attr "xmlns" "http://www.w3.org/2000/svg"
        +:+ attr "width" width +:+ attr "height" height
        +:+ attr "viewBox" ("0 0 " +:+ width +:+ " " +:+ height)
        +:+ attr "role" "img"
        +:+ attr "aria-label"
              ("Combined contributions calendar for " +:+ usersLabel)
        +:+ ">" +:+ nl
        +:+ "  <rect" +:+ attr "width" "100%" +:+ attr "height" "100%"
        +:+ attr "fill" "transparent" +:+ "/>" +:+ nl
        +:+ "  <!-- Month labels -->" +:+ nl
        +:+ "  " +:+ concatMap monthLabelSvg (cal_monthLabels c) +:+ nl
        +:+ "  <!-- Weekday labels -->" +:+ nl
        +:+ "  " +:+ concatMap weekdayLabelSvg (cal_weekdayLabels c) +:+ nl
        +:+ "  <!-- Contribution squares -->" +:+ nl
        +:+ "  " +:+ concatMap rectSvg (cal_rects c) +:+ nl
        +:+ "</svg>"
  end.

Definition renderCalendarSVG (mergedPayload : Payload) (usersLabel : string)
    : option string :=
  svgText usersLabel <$> renderCalendar mergedPayload.

(** ** The request surface *)

(** The outcome of a function that may throw [new Error(msg)]. *)
Inductive Outcome (A : Type) :=
  | Return (a : A)
  | Throw (msg : string).
Arguments Return {A} a.
Arguments Throw {A} msg.

(** The identities of [raw], before the checks on their number. *)
Definition usersOf (raw : string) : list string :=
  filter (fun s => s <> "") (trim <$> split "," raw).

(** [parseUsersParam(req)], from [req.query.users] ([None]: no such
    parameter). *)
Definition parseUsersParam (query_users : option string) : Outcome (list string) :=
  let raw := default "" (or_null query_users) in
  let users := usersOf raw in
  if decide (length users = 0%nat)
  then Throw "Missing users parameter. Example: ?users=donken,donken-lilly"
  else if decide (10 < length users)%nat
  then Throw "Too many users requested (limit 10)."
  else Return users.

(** The [try]/[catch] of the two route handlers: [serve] is what follows
    the call of [parseUsersParam] in the [try] block (cache, fetches,
    merge, rendering) and gives the body of the answer. *)
Definition handle {B : Type} (serve : list string -> Outcome B)
    (query_users : option string) : Z * (B + string) :=
  match parseUsersParam query_users with
  | Throw msg => (400, inr msg)
  | Return users =>
      match serve users with
      | Return body => (200, inl body)
      | Throw msg => (400, inr msg)
      end
  end.

(** ** The data model of the specification *)

(** A date key [YYYY-MM-DD]: ten characters, digits around two hyphens,
    a month from 01 to 12 and a day from 01 to 31. *)
Definition digitVal (c : ascii) : Z := Z.of_N (Ascii.N_of_ascii c) - 48.

Definition isIsoDate (s : string) : bool :=
  match s with
  | String y1 (String y2 (String y3 (String y4 (String h1
      (String m1 (String m2 (String h2 (String d1 (String d2 ""))))))))) =>
      isDigit y1 && isDigit y2 && isDigit y3 && isDigit y4
      && bool_decide (h1 = "-"%char)
      && isDigit m1 && isDigit m2
      && bool_decide (h2 = "-"%char)
      && isDigit d1 && isDigit d2
      && (1 <=? 10 * digitVal m1 + digitVal m2)
      && (10 * digitVal m1 + digitVal m2 <=? 12)
      && (1 <=? 10 * digitVal d1 + digitVal d2)
      && (10 * digitVal d1 + digitVal d2 <=? 31)
  | _ => false
  end.

(** A DailySeries: distinct date keys with non-negative counts. *)
Definition DailySeries (m : dict) : Prop :=
  Dict.wf m /\ Forall (fun kv => isIsoDate kv.1 = true /\ 0 <= kv.2) m.

(** The count of [date] in [m], absence counting as zero. *)
Definition countAt (date : string) (m : dict) : Z :=
  default 0 (Dict.get date m).

Definition sumCounts (date : string) (maps : list dict) : Z :=
  foldr Z.add 0 (countAt date <$> maps).

Definition sumValues (m : dict) : Z := foldr Z.add 0 (Dict.values m).

(** Whether [date] is a key of one of [maps]. *)
Definition anyHas (date : string) (maps : list dict) : bool :=
  existsb (Dict.has date) maps.

(** The cells and the labels that a rendering holds. *)
Definition cellsOf (r : Rendered) : list Cell :=
  match r with
  | Minimal => []
  | Full c => cal_rects c
  end.

Definition monthLabelsOf (r : Rendered) : list MonthLabel :=
  match r with
  | Minimal => []
  | Full c => cal_monthLabels c
  end.

Definition weekdayLabelsOf (r : Rendered) : list WeekdayLabel :=
  match r with
  | Minimal => []
  | Full c => cal_weekdayLabels c
  end.

(** The end of month [mn]: the first day of the next month, or of the next
    year. *)
Definition monthEnd (leap mn : Z) : Z :=
  if mn =? 11 then 365 + leap else JsDate.firstDayOfMonth leap (mn + 1).

(** The number of the month of a time value, counted from year 0. *)
Definition monthNumber (t : Z) : Z := 12 * JsDate.YearFromTime t + JsDate.MonthFromTime t.

(** The time values that [parseDate] returns: midnights not before the
    year 99 and within the range of [TimeClip]. *)
Definition dateValue (t : Z) : Prop :=
  JsDate.TimeWithinDay t = 0
  /\ -683369 <= JsDate.Day t
  /\ t <= 8640000000000000.

(** The cell of day [i] of a grid that starts at [calendarStart]. *)
Definition cellOfDay (calendarStart : Z) (dateToCount : dict) (bs : list Z)
    (i : Z) : Cell :=
  cellAt dateToCount bs i (calendarStart + i * JsDate.msPerDay).

(** The month key of a year [y] and a month [m], counted from 0. *)
Definition monthKeyString (y m : Z) : string :=
  JsDate.digits 4 y +:+ "-" +:+ JsDate.digits 2 (m + 1).

(** The month key of day [i] of a grid that starts at [calendarStart]. *)
Definition monthKeyOfDay (calendarStart i : Z) : string :=
  monthKeyOf (isoOf (calendarStart + i * JsDate.msPerDay)).

(** The first of the [n] days from [i] on whose key is [k]. *)
Fixpoint firstIndex (key : Z -> string) (k : string) (i : Z) (n : nat)
    : option Z :=
  match n with
  | O => None
  | S n' => if decide (key i = k) then Some i else firstIndex key k (i + 1) n'
  end.

(** ** More of [server.js] *)

(** [l.join(sep)]. *)
Definition Array_join (sep : string) (l : list string) : string :=
  String.concat sep l.

(** The two loops of [fetchUserCalendar] over the [weeks] of the answer.  A
    week is the list of its [contributionDays], a day the pair of its
    [date] and its [contributionCount]. *)
Definition calendarMap (weeks : list (list (string * Z))) : dict :=
  foldl (fun map w =>
           foldl (fun map '(date, contributionCount) =>
                    Dict.set date contributionCount map)
                 map w)
        [] weeks.

(** [aggregateUsers] from the maps that [Promise.all] resolves to. *)
Definition aggregatePayload (maps : list dict) : Payload :=
  mergedMapToPayload (mergeMaps maps).

(** The keys of the cache entries of the two routes. *)
Definition combinedKey (users : list string) : string :=
  "combined:" +:+ Array_join "," users.

Definition combinedSvgKey (users : list string) : string :=
  "combinedsvg:" +:+ Array_join "," users.

(** ** More of the vocabulary of the properties *)

(** The elements of a list in the order of their first occurrence. *)
Definition firstSeen (l : list string) : list string :=
  foldl (fun seen k => if decide (k ∈ seen) then seen else seen ++ [k]) [] l.

(** The sum of all the counts of a list of series. *)
Definition sumTotals (maps : list dict) : Z :=
  foldr Z.add 0 (sumValues <$> maps).

(** The count of the last day of [days] whose date is [date]. *)
Definition lastCount (date : string) (days : list (string * Z)) : option Z :=
  snd <$> last (filter (fun day => day.1 = date) days).

(** The Gregorian calendar: leap years and the lengths of the months
    (1 is January). *)
Definition isLeapYear (y : Z) : bool :=
  ((y mod 4 =? 0) && negb (y mod 100 =? 0)) || (y mod 400 =? 0).

Definition daysInMonth (y m : Z) : Z :=
  if m =? 2 then (if isLeapYear y then 29 else 28)
  else if (m =? 4) || (m =? 6) || (m =? 9) || (m =? 11) then 30
  else 31.

(** A date key of a day of the calendar, in the years 0100 to 9999. *)
Definition isCalendarDate (s : string) : bool :=
  match s with
  | String y1 (String y2 (String y3 (String y4 (String h1
      (String m1 (String m2 (String h2 (String d1 (String d2 ""))))))))) =>
      isIsoDate s
      && (100 <=? 1000 * digitVal y1 + 100 * digitVal y2
                  + 10 * digitVal y3 + digitVal y4)
      && (10 * digitVal d1 + digitVal d2
          <=? daysInMonth (1000 * digitVal y1 + 100 * digitVal y2
                           + 10 * digitVal y3 + digitVal y4)
                          (10 * digitVal m1 + digitVal m2))
  | _ => false
  end.

(** The year, month and date of a time value as one number. *)
Definition dateNumber (t : Z) : Z :=
  10000 * JsDate.YearFromTime t + 100 * (JsDate.MonthFromTime t + 1)
  + JsDate.DateFromTime t.

(** A series whose keys are distinct date keys of the calendar. *)
Definition CalendarSeries (m : dict) : Prop :=
  Dict.wf m /\ Forall (fun kv => isCalendarDate kv.1 = true) m.

(** A string that neither starts nor ends with white space. *)
Definition isTrimmed (s : string) : Prop :=
  (forall c, head (String.list_ascii_of_string s) = Some c -> isWhiteSpace c = false)
  /\ (forall c, last (String.list_ascii_of_string s) = Some c -> isWhiteSpace c = false).

(** The identities of a delimited list, in the words of the specification.

    [TrimOf w u]: [u] is [w] without the white space around it. *)
Definition TrimOf (w u : string) : Prop :=
  exists pre post,
    String.list_ascii_of_string w
    = pre ++ String.list_ascii_of_string u ++ post
    /\ Forall (fun c => isWhiteSpace c = true) pre
    /\ Forall (fun c => isWhiteSpace c = true) post
    /\ isTrimmed u.

(** [Identities raw users]: [raw] is a list of pieces without commas,
    separated by commas, and [users] are the pieces without the white space
    around them, in their order, the blank ones left out. *)
Definition Identities (raw : string) (users : list string) : Prop :=
  exists pieces cores,
    pieces <> []
    /\ Forall (fun w => ","%char ∉ String.list_ascii_of_string w) pieces
    /\ raw = Array_join "," pieces
    /\ Forall2 TrimOf pieces cores
    /\ users = filter (fun u => u <> "") cores.

(** * Properties *)

(** A decidable proposition that holds on closed data, by evaluation. *)
Ltac by_eval := apply (bool_decide_unpack _); vm_compute; exact I.

Ltac wf_eval := repeat constructor; unfold Dict.wf, Dict.keys; by_eval.

(** ** Dictionaries *)

Lemma or_zero_default (x : option Z) : or_zero x = default 0 x.
Proof. destruct x as [v|]; simpl; [|done]. case_decide; congruence. Qed.

Lemma get_set_eq k v m : Dict.get k (Dict.set k v m) = Some v.
Proof.
  induction m as [|[k' v'] m IH]; simpl.
  - by rewrite decide_True.
  - destruct (decide (k = k')) as [->|Hne]; simpl.
    + by rewrite decide_True.
    + by rewrite decide_False.
Qed.

Lemma get_set_ne k k' v m :
  k <> k' -> Dict.get k' (Dict.set k v m) = Dict.get k' m.
Proof.
  intros Hne. induction m as [|[k0 v0] m IH]; simpl.
  - by rewrite decide_False.
  - destruct (decide (k = k0)) as [->|Hne0]; simpl.
    + by rewrite !decide_False.
    + by rewrite IH.
Qed.

Lemma get_None k m : Dict.get k m = None <-> k ∉ Dict.keys m.
Proof.
  unfold Dict.keys. induction m as [|[k' v'] m IH]; simpl.
  - split; [intros _; apply not_elem_of_nil | done].
  - rewrite not_elem_of_cons. destruct (decide (k = k')) as [->|Hne].
    + split; [done | intros [? _]; done].
    + rewrite IH. split; [by split | by intros [_ ?]].
Qed.

Lemma get_is_Some k m : is_Some (Dict.get k m) <-> k ∈ Dict.keys m.
Proof.
  destruct (Dict.get k m) as [v|] eqn:Hk.
  - split; [intros _ | eauto]. destruct (decide (k ∈ Dict.keys m)); [done|].
    apply get_None in n. congruence.
  - split; [by intros [? ?] | intros Hin]. by apply get_None in Hk.
Qed.

Lemma get_Some_elem k v m : Dict.get k m = Some v -> (k, v) ∈ m.
Proof.
  induction m as [|[k' v'] m IH]; simpl; [done|].
  destruct (decide (k = k')) as [->|]; intros H.
  - injection H as ->. apply list_elem_of_here.
  - apply list_elem_of_further. auto.
Qed.

Lemma elem_get k v m : Dict.wf m -> (k, v) ∈ m -> Dict.get k m = Some v.
Proof.
  unfold Dict.wf, Dict.keys. induction m as [|[k' v'] m IH]; simpl.
  - intros _ H. by apply elem_of_nil in H.
  - intros Hnd Hin. apply NoDup_cons in Hnd as [Hk' Hnd].
    apply elem_of_cons in Hin as [Heq|Hin].
    + injection Heq as -> ->. by rewrite decide_True.
    + destruct (decide (k = k')) as [->|]; [|auto].
      exfalso. apply Hk'. apply list_elem_of_fmap. by exists (k', v).
Qed.

Lemma keys_set k v m :
  Dict.keys (Dict.set k v m)
  = if decide (k ∈ Dict.keys m) then Dict.keys m else Dict.keys m ++ [k].
Proof.
  unfold Dict.keys. induction m as [|[k' v'] m IH].
  - destruct (decide (k ∈ ([] : dict).*1)) as [Hin|_]; [|done].
    by apply elem_of_nil in Hin.
  - cbn [Dict.set]. destruct (decide (k = k')) as [->|Hne].
    + destruct (decide (k' ∈ ((k', v') :: m).*1)) as [_|Hnin]; [done|].
      exfalso. apply Hnin. apply list_elem_of_here.
    + rewrite !fmap_cons, IH. cbn [fst].
      destruct (decide (k ∈ m.*1)) as [Hin|Hnin];
        destruct (decide (k ∈ k' :: m.*1)) as [Hin'|Hnin']; try done.
      * exfalso. apply Hnin'. by apply list_elem_of_further.
      * apply elem_of_cons in Hin' as [?|?]; done.
Qed.

Lemma wf_set k v m : Dict.wf m -> Dict.wf (Dict.set k v m).
Proof.
  unfold Dict.wf. rewrite keys_set. intros Hnd. case_decide; [done|].
  apply NoDup_app. split_and!; [done | | apply NoDup_singleton].
  intros x Hx Hx'. apply list_elem_of_singleton in Hx'. by subst.
Qed.

Lemma wf_NoDup m : Dict.wf m -> NoDup m.
Proof. apply NoDup_fmap_1. Qed.

(** Two well-formed dictionaries with the same lookups hold the same
    entries. *)
Lemma wf_lookup_Permutation m1 m2 :
  Dict.wf m1 -> Dict.wf m2 ->
  (forall k, Dict.get k m1 = Dict.get k m2) -> m1 ≡ₚ m2.
Proof.
  intros H1 H2 Hget. apply NoDup_Permutation; [by apply wf_NoDup..|].
  intros [k v]. split; intros Hin.
  - apply get_Some_elem. rewrite <- Hget. by apply elem_get.
  - apply get_Some_elem. rewrite Hget. by apply elem_get.
Qed.

(** ** [mergeMaps] *)

Lemma countAt_or_zero date m : or_zero (Dict.get date m) = countAt date m.
Proof. apply or_zero_default. Qed.

Lemma mergeInto_cons merged date count m :
  mergeInto merged ((date, count) :: m)
  = mergeInto (Dict.set date (countAt date merged + count) merged) m.
Proof. unfold mergeInto. simpl. by rewrite countAt_or_zero. Qed.

(** One input added into the accumulator: its dates get their count
    added, the other dates are left as they are. *)
Lemma mergeInto_get date merged m :
  Dict.wf m ->
  Dict.get date (mergeInto merged m)
  = match Dict.get date m with
    | Some c => Some (countAt date merged + c)
    | None => Dict.get date merged
    end.
Proof.
  unfold Dict.wf, Dict.keys. revert merged.
  induction m as [|[k c] m IH]; intros merged Hnd; [done|].
  rewrite fmap_cons in Hnd. apply NoDup_cons in Hnd as [Hk Hnd].
  rewrite mergeInto_cons, IH by done. cbn [Dict.get fst] in *.
  destruct (decide (date = k)) as [->|Hne].
  - apply (get_None k m) in Hk. rewrite Hk. apply get_set_eq.
  - unfold countAt. rewrite get_set_ne by done. done.
Qed.

Lemma mergeInto_wf merged m : Dict.wf merged -> Dict.wf (mergeInto merged m).
Proof.
  revert merged. induction m as [|[k c] m IH]; intros merged Hwf; [done|].
  rewrite mergeInto_cons. apply IH. by apply wf_set.
Qed.

Lemma foldl_mergeInto_wf merged maps :
  Dict.wf merged -> Dict.wf (foldl mergeInto merged maps).
Proof.
  revert merged. induction maps as [|m maps IH]; intros merged Hwf; [done|].
  simpl. apply IH. by apply mergeInto_wf.
Qed.

Lemma mergeMaps_wf maps : Dict.wf (mergeMaps maps).
Proof. apply foldl_mergeInto_wf. apply NoDup_nil_2. Qed.

Lemma has_true date m : Dict.has date m = true <-> is_Some (Dict.get date m).
Proof. unfold Dict.has. apply bool_decide_eq_true. Qed.

Lemma has_false date m : Dict.has date m = false <-> Dict.get date m = None.
Proof.
  unfold Dict.has. rewrite bool_decide_eq_false, <- eq_None_not_Some. done.
Qed.

Lemma mergeInto_countAt date merged m :
  Dict.wf m ->
  countAt date (mergeInto merged m) = countAt date merged + countAt date m.
Proof.
  intros Hwf. unfold countAt at 1 3. rewrite mergeInto_get by done.
  destruct (Dict.get date m); simpl; [done|]. unfold countAt. lia.
Qed.

Lemma mergeInto_has date merged m :
  Dict.wf m ->
  Dict.has date (mergeInto merged m) = Dict.has date merged || Dict.has date m.
Proof.
  intros Hwf. destruct (Dict.has date m) eqn:Hm.
  - rewrite orb_true_r. apply has_true. rewrite mergeInto_get by done.
    apply has_true in Hm as [c ->]. eauto.
  - rewrite orb_false_r. apply has_false in Hm.
    unfold Dict.has. by rewrite mergeInto_get, Hm.
Qed.

Lemma foldl_mergeInto_get date merged maps :
  Forall Dict.wf maps ->
  Dict.get date (foldl mergeInto merged maps)
  = if Dict.has date merged || anyHas date maps
    then Some (countAt date merged + sumCounts date maps)
    else None.
Proof.
  intros Hwf. revert merged.
  induction Hwf as [|m maps Hm _ IH]; intros merged.
  - simpl. rewrite orb_false_r. unfold sumCounts, countAt. simpl.
    destruct (Dict.has date merged) eqn:Hhas.
    + apply has_true in Hhas as [v ->]. simpl. f_equal. lia.
    + by apply has_false in Hhas.
  - cbn [foldl]. rewrite IH, mergeInto_has, mergeInto_countAt by done.
    unfold sumCounts, anyHas. cbn [existsb fmap list_fmap foldr].
    rewrite orb_assoc. destruct (_ || _); [f_equal; lia | done].
Qed.

(** The merged count of every date. *)
Lemma mergeMaps_get date maps :
  Forall Dict.wf maps ->
  Dict.get date (mergeMaps maps)
  = if anyHas date maps then Some (sumCounts date maps) else None.
Proof.
  intros Hwf. unfold mergeMaps. rewrite foldl_mergeInto_get by done.
  simpl. unfold countAt. simpl. done.
Qed.

Lemma anyHas_true date maps :
  anyHas date maps = true <-> exists m, m ∈ maps /\ is_Some (Dict.get date m).
Proof.
  unfold anyHas. rewrite existsb_exists. split.
  - intros (m & Hin & Hhas). exists m. split; [by apply list_elem_of_In|].
    by apply has_true.
  - intros (m & Hin & Hsome). exists m. split; [by apply list_elem_of_In|].
    by apply has_true.
Qed.

Lemma anyHas_Permutation date maps maps' :
  maps ≡ₚ maps' -> anyHas date maps = anyHas date maps'.
Proof.
  intros Hp. apply eq_true_iff_eq. rewrite !anyHas_true.
  split; intros (m & Hin & Hs); exists m; split; try done.
  - by rewrite <- Hp.
  - by rewrite Hp.
Qed.

Lemma sumCounts_Permutation date maps maps' :
  maps ≡ₚ maps' -> sumCounts date maps = sumCounts date maps'.
Proof.
  unfold sumCounts. intros Hp.
  induction Hp as [|m l l' _ IH|m m' l|l l' l'' _ IH1 _ IH2];
    rewrite ?fmap_cons; cbn [foldr]; [done | by rewrite IH | lia | congruence].
Qed.

(** C1. The merged series holds, at each date of at least one input, the
    sum of the counts of that date over the inputs, an input without the
    date counting for zero; a date of no input is not a key of the merged
    series; no input gives the empty series. *)
Theorem mergeMaps_pointwise_sum (maps : list dict) (date : string) :
  Forall Dict.wf maps ->
  ((exists m, m ∈ maps /\ is_Some (Dict.get date m)) ->
     Dict.get date (mergeMaps maps) = Some (sumCounts date maps))
  /\ ((forall m, m ∈ maps -> Dict.get date m = None) ->
     Dict.get date (mergeMaps maps) = None
     /\ date ∉ Dict.keys (mergeMaps maps))
  /\ mergeMaps [] = [].
Proof.
  intros Hwf. split_and!; [| |done].
  - intros Hex. apply anyHas_true in Hex.
    by rewrite mergeMaps_get, Hex.
  - intros Hnone.
    assert (Dict.get date (mergeMaps maps) = None) as Hget.
    { rewrite mergeMaps_get by done.
      destruct (anyHas date maps) eqn:Hany; [|done].
      apply anyHas_true in Hany as (m & Hin & [v Hv]).
      rewrite Hnone in Hv by done. done. }
    split; [done | by apply get_None].
Qed.

Lemma mergeMaps_pointwise_sum_witness :
  Forall Dict.wf [[("2024-01-01", 3)]; [("2024-01-01", 2); ("2024-01-02", 1)]]
  /\ Dict.get "2024-01-02"
       (mergeMaps [[("2024-01-01", 3)]; [("2024-01-01", 2); ("2024-01-02", 1)]])
     = Some 1.
Proof.
  assert (Forall Dict.wf
            [[("2024-01-01", 3)]; [("2024-01-01", 2); ("2024-01-02", 1)]]) as Hwf.
  { wf_eval. }
  split; [exact Hwf|].
  apply (mergeMaps_pointwise_sum _ "2024-01-02" Hwf).
  eexists. split; [apply list_elem_of_further, list_elem_of_here|]. by eexists.
Defined.

(** C3. Merging is independent of the order of the inputs: a permutation
    of the list of series gives the same count at every date and the same
    set of entries; in particular the two orders of a pair agree. *)
Theorem mergeMaps_order_independent (maps maps' : list dict) :
  maps ≡ₚ maps' ->
  Forall Dict.wf maps ->
  (forall date, Dict.get date (mergeMaps maps) = Dict.get date (mergeMaps maps'))
  /\ mergeMaps maps ≡ₚ mergeMaps maps'.
Proof.
  intros Hp Hwf.
  assert (Forall Dict.wf maps') as Hwf' by by rewrite <- Hp.
  assert (forall date,
             Dict.get date (mergeMaps maps) = Dict.get date (mergeMaps maps'))
    as Hget.
  { intros date. rewrite !mergeMaps_get by done.
    by rewrite (anyHas_Permutation _ _ _ Hp), (sumCounts_Permutation _ _ _ Hp). }
  split; [done|].
  apply wf_lookup_Permutation; auto using mergeMaps_wf.
Qed.

Lemma mergeMaps_order_independent_witness :
  mergeMaps [[("2024-01-01", 3)]; [("2024-01-01", 2); ("2024-01-02", 1)]]
  ≡ₚ mergeMaps [[("2024-01-01", 2); ("2024-01-02", 1)]; [("2024-01-01", 3)]].
Proof.
  apply (mergeMaps_order_independent
           [[("2024-01-01", 3)]; [("2024-01-01", 2); ("2024-01-02", 1)]]
           [[("2024-01-01", 2); ("2024-01-02", 1)]; [("2024-01-01", 3)]]).
  - apply perm_swap.
  - wf_eval.
Defined.

(** ** [mergedMapToPayload] *)

Lemma set_fresh k v m : k ∉ Dict.keys m -> Dict.set k v m = m ++ [(k, v)].
Proof.
  unfold Dict.keys. induction m as [|[k' v'] m IH]; [done|].
  rewrite fmap_cons, not_elem_of_cons. cbn [fst Dict.set]. intros [Hne Hnin].
  rewrite decide_False by done. by rewrite IH.
Qed.

(** Copying the entries of a [Map] into an object, one assignment per
    entry, gives the same entries in the same order. *)
Lemma foldl_set_fresh (counts merged : dict) :
  Dict.wf (counts ++ merged) ->
  foldl (fun counts '(d, c) => Dict.set d c counts) counts merged
  = counts ++ merged.
Proof.
  revert counts. induction merged as [|[d c] merged IH]; intros counts Hwf.
  - by rewrite app_nil_r.
  - cbn [foldl]. assert (d ∉ Dict.keys counts) as Hd.
    { unfold Dict.wf, Dict.keys in *. rewrite fmap_app, fmap_cons in Hwf.
      apply NoDup_app in Hwf as (_ & Hdisj & _). intros Hin.
      apply (Hdisj d Hin). apply list_elem_of_here. }
    rewrite set_fresh by done. rewrite IH; rewrite <- app_assoc; done.
Qed.

Lemma payload_fold total counts (merged : dict) :
  foldl (fun '(total, counts) '(d, c) => (total + c, Dict.set d c counts))
        (total, counts) merged
  = (total + sumValues merged,
     foldl (fun counts '(d, c) => Dict.set d c counts) counts merged).
Proof.
  revert total counts. induction merged as [|[d c] merged IH]; intros total counts.
  - unfold sumValues. simpl. f_equal. lia.
  - cbn [foldl]. rewrite IH. unfold sumValues, Dict.values.
    rewrite fmap_cons. cbn [foldr snd]. f_equal. lia.
Qed.

Lemma mergedMapToPayload_unfold merged :
  Dict.wf merged ->
  mergedMapToPayload merged
  = {| payload_start := or_null (head (Array_sort (Dict.keys merged)));
       payload_end := or_null (last (Array_sort (Dict.keys merged)));
       payload_total := sumValues merged;
       payload_counts := merged |}.
Proof.
  intros Hwf. unfold mergedMapToPayload.
  rewrite payload_fold, foldl_set_fresh by done. done.
Qed.

Lemma Array_sort_sorted l : StronglySorted String.le (Array_sort l).
Proof. apply StronglySorted_merge_sort; apply _. Qed.

Lemma Array_sort_perm l : Array_sort l ≡ₚ l.
Proof. apply merge_sort_Permutation. Qed.

Lemma sorted_head_least {A} (R : relation A) `{!Reflexive R} l x :
  StronglySorted R l -> head l = Some x -> forall y, y ∈ l -> R x y.
Proof.
  intros Hs Hh y Hy. destruct Hs as [|z l Hs Hall]; [done|].
  injection Hh as ->. apply elem_of_cons in Hy as [->|Hy]; [done|].
  rewrite Forall_forall in Hall. auto.
Qed.

Lemma sorted_last_greatest {A} (R : relation A) `{!Reflexive R} l x :
  StronglySorted R l -> last l = Some x -> forall y, y ∈ l -> R y x.
Proof.
  induction 1 as [|z l Hs IH Hall]; [done|].
  intros Hl y Hy. destruct l as [|z' l'].
  - injection Hl as ->. apply list_elem_of_singleton in Hy as ->. done.
  - change (last (z :: z' :: l')) with (last (z' :: l')) in Hl.
    apply elem_of_cons in Hy as [->|Hy]; [|auto].
    rewrite Forall_forall in Hall. apply Hall.
    by apply last_Some_elem_of.
Qed.

Lemma isIsoDate_nonempty s : isIsoDate s = true -> s <> "".
Proof. by destruct s. Qed.

(** The bounds of a series with keys: [start] and [end] are keys of the
    series and every key lies between them. *)
Lemma payload_start_end (merged : dict) :
  Dict.wf merged -> merged <> [] ->
  (forall k, k ∈ Dict.keys merged -> k <> "") ->
  exists lo hi,
    payload_start (mergedMapToPayload merged) = Some lo
    /\ payload_end (mergedMapToPayload merged) = Some hi
    /\ lo ∈ Dict.keys merged /\ hi ∈ Dict.keys merged
    /\ forall k, k ∈ Dict.keys merged -> (lo ≤ k)%string /\ (k ≤ hi)%string.
Proof.
  intros Hwf Hne Hkeys. rewrite mergedMapToPayload_unfold by done.
  cbn [payload_start payload_end].
  assert (Hperm := Array_sort_perm (Dict.keys merged)).
  assert (Hsort := Array_sort_sorted (Dict.keys merged)).
  destruct (Array_sort (Dict.keys merged)) as [|lo dates] eqn:Hdates.
  { apply Permutation_nil_l in Hperm. destruct merged; done. }
  rewrite <- Hdates in *.
  assert (head (Array_sort (Dict.keys merged)) = Some lo) as Hhead
    by by rewrite Hdates.
  destruct (last (Array_sort (Dict.keys merged))) as [hi|] eqn:Hlast;
    [|by rewrite Hdates in Hlast; apply last_None in Hlast].
  assert (lo ∈ Dict.keys merged) as Hlo
    by (rewrite <- Hperm, Hdates; apply list_elem_of_here).
  assert (hi ∈ Dict.keys merged) as Hhi
    by (rewrite <- Hperm; by apply last_Some_elem_of).
  exists lo, hi. rewrite Hhead. cbn [or_null].
  rewrite !decide_False by auto.
  split_and!; try done.
  intros k Hk. rewrite <- Hperm in Hk. split.
  - by apply (sorted_head_least _ _ _ Hsort Hhead).
  - by apply (sorted_last_greatest _ _ _ Hsort Hlast).
Qed.

Lemma DailySeries_keys merged k :
  DailySeries merged -> k ∈ Dict.keys merged -> isIsoDate k = true.
Proof.
  intros [_ Hiso] Hk. unfold Dict.keys in Hk.
  apply list_elem_of_fmap in Hk as ([k' v] & -> & Hin).
  rewrite Forall_forall in Hiso. by apply (Hiso _ Hin).
Qed.

(** C4. The summary of a merged series: [start] and [end] are the least
    and the greatest date key in the code-unit order of strings, [total]
    is the sum of the values of [counts], which are those of the series;
    the empty series gives [null], [null], 0 and an empty object. *)
Theorem mergedMapToPayload_summary (merged : dict) :
  DailySeries merged ->
  let p := mergedMapToPayload merged in
  payload_counts p = merged
  /\ payload_total p = sumValues (payload_counts p)
  /\ (merged = [] ->
        p = {| payload_start := None; payload_end := None;
               payload_total := 0; payload_counts := [] |})
  /\ (merged <> [] ->
        exists lo hi,
          payload_start p = Some lo /\ payload_end p = Some hi
          /\ lo ∈ Dict.keys merged /\ hi ∈ Dict.keys merged
          /\ forall k, k ∈ Dict.keys merged -> (lo ≤ k)%string /\ (k ≤ hi)%string).
Proof.
  intros Hds p. subst p. split_and!.
  - destruct Hds as [Hwf _]. by rewrite mergedMapToPayload_unfold.
  - destruct Hds as [Hwf _]. by rewrite mergedMapToPayload_unfold.
  - by intros ->.
  - intros Hne. destruct Hds as [Hwf Hiso]. apply payload_start_end; [done..|].
    intros k Hk. apply isIsoDate_nonempty.
    by apply (DailySeries_keys merged k).
Qed.

Lemma mergedMapToPayload_summary_witness :
  DailySeries [("2024-01-02", 1); ("2024-01-01", 5)]
  /\ payload_total (mergedMapToPayload [("2024-01-02", 1); ("2024-01-01", 5)])
     = sumValues
         (payload_counts (mergedMapToPayload [("2024-01-02", 1); ("2024-01-01", 5)])).
Proof.
  assert (DailySeries [("2024-01-02", 1); ("2024-01-01", 5)]) as Hds.
  { split; [wf_eval|]. repeat constructor; done. }
  split; [exact Hds|].
  apply (mergedMapToPayload_summary _ Hds).
Defined.

(** ** The color classifier *)

Ltac case_leb :=
  repeat match goal with
         | |- context [if ?x <=? ?y then _ else _] =>
             destruct (Z.leb_spec x y)
         end.

Lemma breaks_sorted maxCount :
  0 <= Z.max 1 (maxCount / 4)
  /\ Z.max 1 (maxCount / 4) <= Z.max 1 (maxCount / 2)
  /\ Z.max 1 (maxCount / 2) <= Z.max 1 (3 * maxCount / 4).
Proof. Z.to_euclidean_division_equations. lia. Qed.

Lemma binForCount_breaks maxCount count :
  binForCount (breaks maxCount) count
  = if count <=? 0 then 0%nat
    else if count <=? Z.max 1 (maxCount / 4) then 1%nat
    else if count <=? Z.max 1 (maxCount / 2) then 2%nat
    else if count <=? Z.max 1 (3 * maxCount / 4) then 3%nat
    else 4%nat.
Proof.
  unfold binForCount, breaks. cbn [firstBreak]. rewrite Z.max_id.
  case_leb; done.
Qed.

(** C5. With the thresholds 0, max(1, floor(maxCount/4)),
    max(1, floor(maxCount/2)) and max(1, floor(3 maxCount/4)), the color
    of a count is the palette entry of the least bin whose threshold is
    not below the count, and the last entry, bin 4, exactly when the count
    is above the fourth threshold; the count 0 is in bin 0. *)
Theorem colorForCount_least_bin (count maxCount : Z) :
  0 <= count -> 0 < maxCount ->
  let t := fun i : nat =>
    nth i [0; Z.max 1 (maxCount / 4); Z.max 1 (maxCount / 2);
           Z.max 1 (3 * maxCount / 4)] 0 in
  let b := binForCount (breaks maxCount) count in
  breaks maxCount = [t 0%nat; t 1%nat; t 2%nat; t 3%nat]
  /\ colorForCount (breaks maxCount) count = nth b palette ""
  /\ (b <= 4)%nat
  /\ (forall i, (i < b)%nat -> t i < count)
  /\ ((b < 4)%nat -> count <= t b)
  /\ (b = 4%nat <-> t 3%nat < count)
  /\ binForCount (breaks maxCount) 0 = 0%nat.
Proof.
  intros Hc Hm t b. subst b.
  split; [done|]. split.
  { unfold colorForCount. rewrite binForCount_breaks.
    case_leb; reflexivity. }
  rewrite !binForCount_breaks. subst t. cbn [nth].
  pose proof (breaks_sorted maxCount) as (H0 & H1 & H2).
  revert H0 H1 H2.
  generalize (Z.max 1 (maxCount / 4)) (Z.max 1 (maxCount / 2))
    (Z.max 1 (3 * maxCount / 4)).
  intros t1 t2 t3 H0 H1 H2.
  assert (forall (k : nat) (P : nat -> Prop),
             (forall i, (i < k)%nat -> P i) -> P k ->
             forall i, (i < S k)%nat -> P i) as Hstep.
  { intros k P Hlt Hk i Hi. destruct (decide (i = k)) as [->|]; [done|].
    apply Hlt. lia. }
  case_leb; try (exfalso; lia);
    (split_and!; [lia | | lia | lia | reflexivity]);
    repeat (apply Hstep; [|cbn [nth]; lia]); intros i Hi; lia.
Qed.

Lemma colorForCount_least_bin_witness :
  colorForCount (breaks 10) 3 = "#40c463".
Proof.
  pose proof (colorForCount_least_bin 3 10 ltac:(lia) ltac:(lia)) as (_ & H & _).
  exact H.
Defined.

(** C8. For a fixed maximum, the bin of a count does not decrease when the
    count grows. *)
Theorem binForCount_monotone (maxCount count1 count2 : Z) :
  count1 <= count2 ->
  (binForCount (breaks maxCount) count1 <= binForCount (breaks maxCount) count2)%nat.
Proof.
  intros Hle. rewrite !binForCount_breaks.
  pose proof (breaks_sorted maxCount) as (H0 & H1 & H2).
  revert H0 H1 H2.
  generalize (Z.max 1 (maxCount / 4)) (Z.max 1 (maxCount / 2))
    (Z.max 1 (3 * maxCount / 4)).
  intros t1 t2 t3 H0 H1 H2.
  case_leb; lia.
Qed.

Lemma binForCount_monotone_witness :
  (binForCount (breaks 10) 2 <= binForCount (breaks 10) 9)%nat.
Proof. apply (binForCount_monotone 10 2 9). lia. Defined.

(** ** The empty payload *)

(** C7. A payload whose [start] or [end] is [null] is rendered, without
    any failure, as the minimal document: no cell, no month label, no
    weekday label, and a text without any [rect] or [text] element.  The
    summary of the merge of no series is such a payload. *)
Theorem renderCalendarSVG_empty (p : Payload) (usersLabel : string) :
  payload_start p = None \/ payload_end p = None ->
  renderCalendar p = Some Minimal
  /\ renderCalendarSVG p usersLabel = Some minimalSvg
  /\ cellsOf Minimal = [] /\ monthLabelsOf Minimal = []
  /\ weekdayLabelsOf Minimal = []
  /\ String.index 0 "<rect" minimalSvg = None
  /\ String.index 0 "<text" minimalSvg = None
  /\ payload_start (mergedMapToPayload (mergeMaps [])) = None.
Proof.
  intros Hnull.
  assert (renderCalendar p = Some Minimal) as Hr.
  { unfold renderCalendar.
    destruct Hnull as [-> | ->]; cbn [or_null]; [done|].
    by destruct (or_null (payload_start p)). }
  unfold renderCalendarSVG. rewrite Hr. split_and!; done.
Qed.

Lemma renderCalendarSVG_empty_witness :
  renderCalendarSVG (mergedMapToPayload (mergeMaps [])) "nobody"
  = Some minimalSvg.
Proof.
  apply (renderCalendarSVG_empty (mergedMapToPayload (mergeMaps [])) "nobody").
  left. reflexivity.
Defined.

(** ** Time values *)

Section DateFacts.

Import JsDate.

Lemma msPerDay_pos : 0 < msPerDay.
Proof. done. Qed.

Lemma Day_MakeDate day : Day (MakeDate day 0) = day.
Proof. unfold Day, MakeDate. rewrite Z.add_0_r. by apply Z.div_mul. Qed.

Lemma TimeWithinDay_MakeDate day : TimeWithinDay (MakeDate day 0) = 0.
Proof. unfold TimeWithinDay, MakeDate. rewrite Z.add_0_r. by apply Z.mod_mul. Qed.

Lemma time_decompose t : t = MakeDate (Day t) (TimeWithinDay t).
Proof.
  unfold MakeDate, Day, TimeWithinDay.
  rewrite Z.mul_comm. by apply Z.div_mod.
Qed.

Lemma midnight_MakeDate t : TimeWithinDay t = 0 -> t = MakeDate (Day t) 0.
Proof. intros H. rewrite <- H. apply time_decompose. Qed.

Lemma Day_add_days t i : Day (t + i * msPerDay) = Day t + i.
Proof. unfold Day. by apply Z.div_add. Qed.

Lemma TimeWithinDay_add_days t i :
  TimeWithinDay (t + i * msPerDay) = TimeWithinDay t.
Proof. unfold TimeWithinDay. by apply Z.mod_add. Qed.

Lemma Day_mono t t' : t <= t' -> Day t <= Day t'.
Proof. intros H. unfold Day. by apply Z.div_le_mono. Qed.

Lemma WeekDay_range t : 0 <= WeekDay t <= 6.
Proof. unfold WeekDay. pose proof (Z.mod_pos_bound (Day t + 4) 7). lia. Qed.

(** *** Years *)

Lemma DayFromYear_succ y : DayFromYear (y + 1) = DayFromYear y + DaysInYear y.
Proof.
  unfold DayFromYear, DaysInYear.
  repeat match goal with
         | |- context [?a =? ?b] => destruct (Z.eqb_spec a b)
         end; cbn [negb]; Z.to_euclidean_division_equations; lia.
Qed.

Lemma DaysInYear_cases y : DaysInYear y = 365 \/ DaysInYear y = 366.
Proof. unfold DaysInYear. repeat case_match; auto. Qed.

Lemma DayFromYear_lt y : DayFromYear y < DayFromYear (y + 1).
Proof. rewrite DayFromYear_succ. destruct (DaysInYear_cases y); lia. Qed.

Lemma DayFromYear_mono y y' : y <= y' -> DayFromYear y <= DayFromYear y'.
Proof.
  intros H. replace y' with (y + Z.of_nat (Z.to_nat (y' - y))) by lia.
  generalize (Z.to_nat (y' - y)). intros n. induction n as [|n IH]; [by rewrite Z.add_0_r|].
  replace (y + Z.of_nat (S n)) with (y + Z.of_nat n + 1) by lia.
  pose proof (DayFromYear_lt (y + Z.of_nat n)). lia.
Qed.

Lemma DayFromYear_lt_inv y y' : DayFromYear y < DayFromYear y' -> y < y'.
Proof.
  intros H. destruct (decide (y < y')); [done|].
  pose proof (DayFromYear_mono y' y). lia.
Qed.

(** [YearFromTime t] is the year of [t]: the largest [y] with
    [TimeFromYear y <= t]. *)
Lemma YearFromTime_days t :
  DayFromYear (YearFromTime t) <= Day t < DayFromYear (YearFromTime t + 1).
Proof.
  unfold YearFromTime. cbv zeta. generalize (Day t). intros d.
  assert (DayFromYear (1970 + 400 * d / 146097 - 1) <= d) as Hlo.
  { unfold DayFromYear. Z.to_euclidean_division_equations. lia. }
  assert (d < DayFromYear (1970 + 400 * d / 146097 + 1 + 1)) as Hhi.
  { unfold DayFromYear. Z.to_euclidean_division_equations. lia. }
  revert Hlo Hhi. generalize (1970 + 400 * d / 146097). intros y Hlo Hhi.
  destruct (Z.leb_spec (DayFromYear (y + 1)) d); [lia|].
  destruct (Z.leb_spec (DayFromYear y) d); [lia|].
  replace (y - 1 + 1) with y by lia. lia.
Qed.

Lemma YearFromTime_spec t :
  TimeFromYear (YearFromTime t) <= t
  /\ forall y, TimeFromYear y <= t -> y <= YearFromTime t.
Proof.
  pose proof (YearFromTime_days t) as [Hlo Hhi].
  assert (forall y, TimeFromYear y <= t <-> DayFromYear y <= Day t) as Hiff.
  { intros y. unfold TimeFromYear, Day. split; intros H.
    - apply Z.div_le_lower_bound; [done | lia].
    - pose proof (Z.mul_div_le t msPerDay msPerDay_pos).
      pose proof msPerDay_pos. nia. }
  split; [by apply Hiff|].
  intros y Hy. apply Hiff in Hy.
  assert (y < YearFromTime t + 1); [|lia].
  apply DayFromYear_lt_inv. lia.
Qed.

Lemma YearFromTime_unique t y :
  DayFromYear y <= Day t < DayFromYear (y + 1) -> YearFromTime t = y.
Proof.
  intros [Hlo Hhi]. pose proof (YearFromTime_days t) as [Hlo' Hhi'].
  assert (y < YearFromTime t + 1) by (apply DayFromYear_lt_inv; lia).
  assert (YearFromTime t < y + 1) by (apply DayFromYear_lt_inv; lia).
  lia.
Qed.

Lemma YearFromTime_mono t t' : Day t <= Day t' -> YearFromTime t <= YearFromTime t'.
Proof.
  intros H. pose proof (YearFromTime_days t) as [Hlo _].
  pose proof (YearFromTime_days t') as [_ Hhi].
  assert (YearFromTime t < YearFromTime t' + 1); [|lia].
  apply DayFromYear_lt_inv. lia.
Qed.

Lemma DayWithinYear_range t :
  0 <= DayWithinYear t < 365 + InLeapYear t.
Proof.
  unfold DayWithinYear, InLeapYear, leapOfYear.
  pose proof (YearFromTime_days t) as [Hlo Hhi].
  rewrite DayFromYear_succ in Hhi.
  destruct (DaysInYear_cases (YearFromTime t)) as [H|H]; rewrite H in *;
    simpl; lia.
Qed.

End DateFacts.

Section MonthFacts.

Import JsDate.

(** Evaluation of the month table at given months. *)
Ltac month_table :=
  unfold monthEnd;
  repeat match goal with
         | |- context [Z.eqb ?a ?b] =>
             let v := eval vm_compute in (Z.eqb a b) in
             progress change (Z.eqb a b) with v
         | |- context [firstDayOfMonth ?l (?a + 1)] =>
             let v := eval vm_compute in (a + 1) in
             progress change (a + 1) with v
         end;
  cbn [firstDayOfMonth].

Lemma leapOfYear_cases y : leapOfYear y = 0 \/ leapOfYear y = 1.
Proof. unfold leapOfYear. case_match; auto. Qed.

Lemma InLeapYear_cases t : InLeapYear t = 0 \/ InLeapYear t = 1.
Proof. unfold InLeapYear, leapOfYear. case_match; auto. Qed.

Lemma MonthFromTime_range t : 0 <= MonthFromTime t <= 11.
Proof. unfold MonthFromTime. cbv zeta. repeat case_match; lia. Qed.

Lemma MonthFromTime_bounds t :
  firstDayOfMonth (InLeapYear t) (MonthFromTime t) <= DayWithinYear t
  /\ DayWithinYear t < monthEnd (InLeapYear t) (MonthFromTime t).
Proof.
  pose proof (DayWithinYear_range t) as Hr.
  unfold MonthFromTime. cbv zeta. revert Hr.
  generalize (DayWithinYear t). intros d Hr.
  destruct (InLeapYear_cases t) as [Hl | Hl]; rewrite Hl in *;
    repeat match goal with
           | |- context [if ?x <? ?y then _ else _] => destruct (Z.ltb_spec x y)
           end; month_table; lia.
Qed.

Lemma monthEnd_length leap mn :
  0 <= leap <= 1 -> 0 <= mn <= 11 ->
  28 <= monthEnd leap mn - firstDayOfMonth leap mn <= 31.
Proof.
  intros Hl Hm.
  assert (mn = 0 \/ mn = 1 \/ mn = 2 \/ mn = 3 \/ mn = 4 \/ mn = 5 \/ mn = 6
          \/ mn = 7 \/ mn = 8 \/ mn = 9 \/ mn = 10 \/ mn = 11) as H by lia.
  repeat (destruct H as [-> | H]); try subst mn; month_table; lia.
Qed.

Lemma DateFromTime_range t : 1 <= DateFromTime t <= 31.
Proof.
  unfold DateFromTime. pose proof (MonthFromTime_bounds t) as [Hlo Hhi].
  pose proof (monthEnd_length (InLeapYear t) (MonthFromTime t)) as Hlen.
  pose proof (MonthFromTime_range t).
  destruct (InLeapYear_cases t) as [Hl | Hl]; rewrite Hl in *; lia.
Qed.

(** The day number of a time value from its year, month and date. *)
Lemma Day_civil t :
  Day t = DayFromYear (YearFromTime t)
          + firstDayOfMonth (InLeapYear t) (MonthFromTime t)
          + DateFromTime t - 1.
Proof. unfold DateFromTime, DayWithinYear. lia. Qed.

(** [MakeDay] on the year and month of [t]: the date alone moves the
    day. *)
Lemma MakeDay_same_month t date :
  MakeDay (YearFromTime t) (MonthFromTime t) date
  = Day t + (date - DateFromTime t).
Proof.
  unfold MakeDay. cbv zeta. pose proof (MonthFromTime_range t) as Hm.
  rewrite Z.div_small, Z.mod_small, Z.add_0_r by lia.
  pose proof (Day_civil t) as Hc. unfold InLeapYear in Hc. lia.
Qed.

Lemma firstDayOfMonth_mono leap m m' :
  0 <= leap <= 1 -> 0 <= m <= m' -> m' <= 11 ->
  firstDayOfMonth leap m <= firstDayOfMonth leap m'.
Proof.
  intros Hl Hm Hm'.
  assert (m = 0 \/ m = 1 \/ m = 2 \/ m = 3 \/ m = 4 \/ m = 5 \/ m = 6
          \/ m = 7 \/ m = 8 \/ m = 9 \/ m = 10 \/ m = 11) as H by lia.
  assert (m' = 0 \/ m' = 1 \/ m' = 2 \/ m' = 3 \/ m' = 4 \/ m' = 5 \/ m' = 6
          \/ m' = 7 \/ m' = 8 \/ m' = 9 \/ m' = 10 \/ m' = 11) as H' by lia.
  repeat (destruct H as [-> | H]); try subst m;
    repeat (destruct H' as [-> | H']); try subst m'; month_table; lia.
Qed.

Lemma monthEnd_le_first leap m m' :
  0 <= leap <= 1 -> 0 <= m -> m < m' -> m' <= 11 ->
  monthEnd leap m <= firstDayOfMonth leap m'.
Proof.
  intros Hl Hm Hlt Hm'. unfold monthEnd.
  destruct (Z.eqb_spec m 11); [lia|].
  apply firstDayOfMonth_mono; lia.
Qed.

(** Months follow the days. *)
Lemma monthNumber_mono t t' : Day t <= Day t' -> monthNumber t <= monthNumber t'.
Proof.
  intros Hd. unfold monthNumber.
  pose proof (YearFromTime_mono t t' Hd) as Hy.
  pose proof (MonthFromTime_range t). pose proof (MonthFromTime_range t').
  destruct (decide (YearFromTime t = YearFromTime t')) as [Heq|]; [|lia].
  assert (MonthFromTime t <= MonthFromTime t'); [|lia].
  destruct (decide (MonthFromTime t <= MonthFromTime t')); [done|]. exfalso.
  pose proof (MonthFromTime_bounds t) as [Hlo _].
  pose proof (MonthFromTime_bounds t') as [_ Hhi'].
  assert (InLeapYear t = InLeapYear t') as Hl by (unfold InLeapYear; by rewrite Heq).
  pose proof (monthEnd_le_first (InLeapYear t') (MonthFromTime t') (MonthFromTime t)) as Hme.
  unfold DayWithinYear in *. rewrite Hl, Heq in *.
  destruct (InLeapYear_cases t'); lia.
Qed.

Lemma month_cases mn :
  0 <= mn <= 11 ->
  mn = 0 \/ mn = 1 \/ mn = 2 \/ mn = 3 \/ mn = 4 \/ mn = 5 \/ mn = 6
  \/ mn = 7 \/ mn = 8 \/ mn = 9 \/ mn = 10 \/ mn = 11.
Proof. lia. Qed.

(** [MakeDay] and the three components agree: the time value of
    [MakeDay y mn date], for a date of the month [mn] of the year [y], has
    the year [y], the month [mn] and the date [date]. *)
Lemma MakeDay_civil y mn date :
  0 <= mn <= 11 ->
  1 <= date <= monthEnd (leapOfYear y) mn - firstDayOfMonth (leapOfYear y) mn ->
  let t := MakeDate (MakeDay y mn date) 0 in
  YearFromTime t = y /\ MonthFromTime t = mn /\ DateFromTime t = date.
Proof.
  intros Hmn Hdate t.
  assert (Day t = DayFromYear y + firstDayOfMonth (leapOfYear y) mn + date - 1)
    as Hday.
  { subst t. rewrite Day_MakeDate. unfold MakeDay. cbv zeta.
    rewrite Z.div_small, Z.mod_small, Z.add_0_r by lia. lia. }
  pose proof (DayFromYear_succ y) as Hsucc.
  assert (DaysInYear y = 365 + leapOfYear y) as Hdiy.
  { unfold leapOfYear. destruct (DaysInYear_cases y) as [-> | ->]; reflexivity. }
  assert (0 <= firstDayOfMonth (leapOfYear y) mn
          /\ monthEnd (leapOfYear y) mn <= 365 + leapOfYear y) as Hfirst.
  { pose proof (month_cases mn Hmn) as H.
    destruct (leapOfYear_cases y) as [-> | ->];
      repeat (destruct H as [-> | H]); try subst mn; month_table; lia. }
  assert (YearFromTime t = y) as Hy by (apply YearFromTime_unique; lia).
  assert (DayWithinYear t = firstDayOfMonth (leapOfYear y) mn + date - 1) as Hdwy
    by (unfold DayWithinYear; rewrite Hy; lia).
  assert (MonthFromTime t = mn) as Hm.
  { unfold MonthFromTime. cbv zeta. rewrite Hdwy. unfold InLeapYear. rewrite Hy.
    revert Hdate. generalize (leapOfYear_cases y). generalize (leapOfYear y).
    intros l Hl Hdate. pose proof (month_cases mn Hmn) as H.
    destruct Hl as [-> | ->];
      repeat (destruct H as [-> | H]); try subst mn;
      revert Hdate; month_table; intros Hdate;
      repeat match goal with
             | |- context [if ?a <? ?b then _ else _] =>
                 destruct (Z.ltb_spec a b); try lia
             end; reflexivity. }
  split_and!; [done | done |].
  unfold DateFromTime. rewrite Hdwy, Hm. unfold InLeapYear. rewrite Hy. lia.
Qed.

End MonthFacts.

(** ** The week-aligned grid *)

Section GridFacts.

Import JsDate.

Lemma TimeClip_Some t :
  -8640000000000000 <= t <= 8640000000000000 -> TimeClip t = Some t.
Proof.
  intros H. unfold TimeClip. destruct (Z.leb_spec (Z.abs t) 8640000000000000); [done|lia].
Qed.

Lemma TimeClip_inv t t' :
  TimeClip t = Some t' -> t' = t /\ -8640000000000000 <= t <= 8640000000000000.
Proof.
  unfold TimeClip. destruct (Z.leb_spec (Z.abs t) 8640000000000000); [|done].
  intros [= <-]. lia.
Qed.

Lemma isDigit_val c : isDigit c = true -> 0 <= digitVal c <= 9.
Proof.
  unfold isDigit, digitVal. cbv zeta.
  intros [H1%N.leb_le H2%N.leb_le]%andb_prop. lia.
Qed.

Lemma Number_go_nonneg s acc n : 0 <= acc -> Number_go acc s = Some n -> 0 <= n.
Proof.
  revert acc. induction s as [|c s IH]; intros acc Hacc; simpl.
  - intros [= <-]. done.
  - destruct (isDigit c) eqn:Hd; [|done]. apply IH.
    apply isDigit_val in Hd. unfold digitVal in Hd. lia.
Qed.

Lemma Number_nonneg s n : Number s = Some n -> 0 <= n.
Proof. by apply Number_go_nonneg. Qed.

Lemma parseDate_inv s t :
  parseDate s = Some t ->
  exists y m d, 0 <= y /\ 0 <= m /\ 0 <= d /\ UTC y (m - 1) d = Some t.
Proof.
  unfold parseDate.
  destruct (Number <$> split "-" s) as [|[y|] [|[m|] [|[d|] ?]]] eqn:Hparts;
    try done; cbn.
  all: intros Hutc; exists y, m, d.
  all: assert (Hin : forall x, Some x ∈ Number <$> split "-" s -> 0 <= x)
    by (intros x (w & Hw & _)%list_elem_of_fmap; by apply (Number_nonneg w)).
  all: rewrite Hparts in Hin.
  all: split_and!; [apply Hin | apply Hin | apply Hin | done].
  all: rewrite !elem_of_cons; auto.
Qed.

Lemma firstDayOfMonth_nonneg leap mn : 0 <= leap -> 0 <= firstDayOfMonth leap mn.
Proof. intros H. unfold firstDayOfMonth. repeat case_match; lia. Qed.

Lemma UTC_dateValue y m d t :
  0 <= y -> -1 <= m -> 0 <= d -> UTC y m d = Some t -> dateValue t.
Proof.
  intros Hy Hm Hd Hutc. unfold UTC in Hutc. cbv zeta in Hutc.
  apply TimeClip_inv in Hutc as [-> [_ Hhi]].
  change (MakeTime 0 0 0 0) with 0 in *.
  unfold dateValue. rewrite Day_MakeDate, TimeWithinDay_MakeDate.
  split_and!; [done | | done].
  set (yr := if (0 <=? y) && (y <=? 99) then 1900 + y else y).
  assert (100 <= yr) as Hyr.
  { subst yr. destruct (Z.leb_spec 0 y), (Z.leb_spec y 99); simpl; lia. }
  unfold MakeDay. cbv zeta.
  assert (-1 <= m / 12) by (apply Z.div_le_lower_bound; lia).
  pose proof (DayFromYear_mono 99 (yr + m / 12) ltac:(lia)) as Hmono.
  change (DayFromYear 99) with (-683368) in Hmono.
  pose proof (firstDayOfMonth_nonneg (leapOfYear (yr + m / 12)) (m mod 12)) as Hf.
  destruct (leapOfYear_cases (yr + m / 12)); lia.
Qed.

Lemma parseDate_dateValue s t : parseDate s = Some t -> dateValue t.
Proof.
  intros (y & m & d & Hy & Hm & Hd & Hutc)%parseDate_inv.
  apply (UTC_dateValue y (m - 1) d); auto with lia.
Qed.

Lemma dateValue_MakeDate t : dateValue t -> t = MakeDate (Day t) 0.
Proof. intros [H _]. by apply midnight_MakeDate. Qed.

Lemma Math_round_div_days k : Math_round_div (k * msPerDay) msPerDay = k.
Proof.
  unfold Math_round_div.
  replace (2 * (k * msPerDay) + msPerDay) with (msPerDay + k * (2 * msPerDay)) by lia.
  rewrite Z.div_add by done. rewrite Z.div_small; [lia | done].
Qed.

Lemma MakeDate_0 day : MakeDate day 0 = day * 86400000.
Proof. unfold MakeDate, msPerDay. lia. Qed.

Lemma dateValue_days t : dateValue t -> t = Day t * 86400000.
Proof. intros H. rewrite <- MakeDate_0. by apply dateValue_MakeDate. Qed.

Lemma setUTCDate_back t k :
  TimeWithinDay t = 0 ->
  setUTCDate t (getUTCDate t - k) = TimeClip (MakeDate (Day t - k) 0).
Proof.
  intros H0. unfold setUTCDate, getUTCDate.
  rewrite MakeDay_same_month, H0. do 2 f_equal. lia.
Qed.

Lemma setUTCHours_midnight t :
  setUTCHours t 0 0 0 0 = TimeClip (MakeDate (Day t) 0).
Proof. done. Qed.

Lemma round_days_between e day :
  dateValue e ->
  Math_round_div (e - MakeDate day 0) msPerDay = Day e - day.
Proof.
  intros He. rewrite <- Math_round_div_days. f_equal.
  rewrite MakeDate_0. apply dateValue_days in He. unfold msPerDay. lia.
Qed.

Lemma TimeClip_day day :
  -683375 <= day -> day * 86400000 <= 8640000000000000 ->
  TimeClip (MakeDate day 0) = Some (MakeDate day 0).
Proof. intros Hlo Hhi. apply TimeClip_Some. rewrite MakeDate_0. lia. Qed.

Lemma bind_Some {A B} (f : A -> option B) (x : A) : Some x ≫= f = f x.
Proof. done. Qed.

Lemma calendarStart_setUTCDate s :
  dateValue s ->
  setUTCDate s (getUTCDate s - getUTCDay s)
  = Some (MakeDate (Day s - WeekDay s) 0).
Proof.
  intros Hs. pose proof (dateValue_days s Hs) as Hsd.
  destruct Hs as (Hs0 & Hslo & Hshi). pose proof (WeekDay_range s) as Hw.
  unfold getUTCDay. rewrite setUTCDate_back by done.
  apply TimeClip_day; lia.
Qed.

Lemma calendarStart_setUTCHours s :
  dateValue s ->
  setUTCHours (MakeDate (Day s - WeekDay s) 0) 0 0 0 0
  = Some (MakeDate (Day s - WeekDay s) 0).
Proof.
  intros Hs. pose proof (dateValue_days s Hs) as Hsd.
  destruct Hs as (Hs0 & Hslo & Hshi). pose proof (WeekDay_range s) as Hw.
  rewrite setUTCHours_midnight, Day_MakeDate.
  apply TimeClip_day; lia.
Qed.

(** What [grid] computes from two parsed dates. *)
Lemma grid_parsed start end_ s e :
  parseDate start = Some s -> parseDate end_ = Some e ->
  grid start end_
  = Some {| grid_startDate := s;
            grid_calendarStart := MakeDate (Day s - WeekDay s) 0;
            grid_lastDate := e;
            grid_totalDays := Day e - (Day s - WeekDay s) + 1;
            grid_weeks := Math_ceil_div (Day e - (Day s - WeekDay s) + 1) 7 |}.
Proof.
  intros Hs He. unfold grid. rewrite Hs, He.
  pose proof (parseDate_dateValue _ _ Hs) as Hs'.
  pose proof (parseDate_dateValue _ _ He) as He'.
  rewrite bind_Some. cbv beta zeta.
  rewrite calendarStart_setUTCDate, bind_Some by done.
  rewrite calendarStart_setUTCHours, !bind_Some by done.
  cbv beta zeta. by rewrite round_days_between.
Qed.

End GridFacts.

(** ** The loop over the days *)

Section RectFacts.

Import JsDate.

Lemma rectStep_Some calendarStart dateToCount bs i rects :
  -8640000000000000 <= calendarStart + i * msPerDay <= 8640000000000000 ->
  rectStep calendarStart dateToCount bs i rects
  = Some (rects ++ [cellOfDay calendarStart dateToCount bs i]).
Proof.
  intros Hr. unfold rectStep, ofNumber. by rewrite TimeClip_Some, bind_Some.
Qed.

Lemma for_loop_rects calendarStart dateToCount bs n i rects :
  (forall j, i <= j < i + Z.of_nat n ->
     -8640000000000000 <= calendarStart + j * msPerDay <= 8640000000000000) ->
  for_loop n i (rectStep calendarStart dateToCount bs) rects
  = Some (rects ++ (cellOfDay calendarStart dateToCount bs <$> seqZ i (Z.of_nat n))).
Proof.
  revert i rects. induction n as [|n IH]; intros i rects Hr.
  - by rewrite app_nil_r.
  - cbn [for_loop]. rewrite rectStep_Some by (apply Hr; lia).
    rewrite bind_Some.
    rewrite IH by (intros j Hj; apply Hr; lia).
    rewrite <- app_assoc. do 2 f_equal.
    rewrite (seqZ_cons i (Z.of_nat (S n))) by lia.
    rewrite fmap_cons. cbn [app]. do 3 f_equal; lia.
Qed.

Lemma rectsOf_cells calendarStart totalDays dateToCount bs :
  (forall j, 0 <= j < totalDays ->
     -8640000000000000 <= calendarStart + j * msPerDay <= 8640000000000000) ->
  rectsOf calendarStart totalDays dateToCount bs
  = Some (cellOfDay calendarStart dateToCount bs <$> seqZ 0 totalDays).
Proof.
  intros Hr. unfold rectsOf. rewrite for_loop_rects by (intros j Hj; apply Hr; lia).
  cbn [app]. destruct (decide (0 <= totalDays)).
  - by rewrite Z2Nat.id.
  - rewrite Z2Nat.nonpos by lia. by rewrite !seqZ_nil by lia.
Qed.

(** The days of the grid of two parsed dates are time values in range. *)
Lemma grid_days_in_range s e j :
  dateValue s -> dateValue e ->
  0 <= j < Day e - (Day s - WeekDay s) + 1 ->
  -8640000000000000 <= MakeDate (Day s - WeekDay s) 0 + j * msPerDay
    <= 8640000000000000.
Proof.
  intros Hs He Hj. pose proof (dateValue_days e He) as Hed.
  destruct Hs as (_ & Hslo & _). destruct He as (_ & _ & Hehi).
  pose proof (WeekDay_range s). rewrite MakeDate_0. unfold msPerDay. lia.
Qed.

Lemma WeekDay_calendarStart s : WeekDay (MakeDate (Day s - WeekDay s) 0) = 0.
Proof.
  unfold WeekDay. rewrite Day_MakeDate. generalize (Day s). intros d.
  Z.to_euclidean_division_equations. lia.
Qed.

(** From a Sunday, the weekday of day [i] is [i mod 7]. *)
Lemma WeekDay_offset cs i :
  WeekDay cs = 0 -> WeekDay (cs + i * msPerDay) = i mod 7.
Proof.
  unfold WeekDay. rewrite Day_add_days. generalize (Day cs). intros d.
  Z.to_euclidean_division_equations. lia.
Qed.

Lemma Math_ceil_div_7 n :
  7 * (Math_ceil_div n 7 - 1) < n <= 7 * Math_ceil_div n 7.
Proof. unfold Math_ceil_div. Z.to_euclidean_division_equations. lia. Qed.

Lemma elem_of_cells cs counts bs td c :
  c ∈ cellOfDay cs counts bs <$> seqZ 0 td ->
  exists i, 0 <= i < td /\ c = cellOfDay cs counts bs i.
Proof.
  intros (i & -> & Hi)%list_elem_of_fmap. exists i. split; [|done].
  apply elem_of_seqZ in Hi. lia.
Qed.

End RectFacts.

(** C2. The grid of two parsed dates [start <= end]: [calendarStart] is
    not after [start], less than a week before it and a Sunday;
    [totalDays] is the number of days from [calendarStart] to [end], both
    included, and [weeks] is its seventh rounded up; every date from
    [start] to [end] has a cell, at its day offset from [calendarStart],
    whose column is the floor of the offset by 7, below [weeks], and whose
    row is the offset modulo 7, which is the weekday of the date; two
    cells with the same column and row are cells of the same date. *)
Theorem grid_invariant (start end_ : string) (s e : Z) (dateToCount : dict)
    (bs : list Z) :
  parseDate start = Some s -> parseDate end_ = Some e -> s <= e ->
  exists g cells,
    grid start end_ = Some g
    /\ grid_startDate g = s /\ grid_lastDate g = e
    /\ rectsOf (grid_calendarStart g) (grid_totalDays g) dateToCount bs
       = Some cells
    /\ grid_calendarStart g <= s
    /\ s - grid_calendarStart g = JsDate.getUTCDay s * JsDate.msPerDay
    /\ JsDate.getUTCDay (grid_calendarStart g) = 0
    /\ grid_totalDays g
       = JsDate.Day e - JsDate.Day (grid_calendarStart g) + 1
    /\ 1 <= grid_totalDays g
    /\ 7 * (grid_weeks g - 1) < grid_totalDays g <= 7 * grid_weeks g
    /\ (forall d, s <= d <= e -> JsDate.TimeWithinDay d = 0 ->
          let i := JsDate.Day d - JsDate.Day (grid_calendarStart g) in
          exists c, cells !! Z.to_nat i = Some c
            /\ cell_date c = d
            /\ cell_weekIndex c = i / 7
            /\ 0 <= cell_weekIndex c < grid_weeks g
            /\ cell_dayOfWeek c = i mod 7
            /\ cell_dayOfWeek c = JsDate.getUTCDay d)
    /\ (forall c c', c ∈ cells -> c' ∈ cells ->
          cell_weekIndex c = cell_weekIndex c' ->
          cell_dayOfWeek c = cell_dayOfWeek c' ->
          cell_date c = cell_date c').
Proof.
  intros Hs He Hse.
  pose proof (parseDate_dateValue _ _ Hs) as Hsv.
  pose proof (parseDate_dateValue _ _ He) as Hev.
  eexists _, _. split; [by apply grid_parsed|].
  cbn [grid_startDate grid_lastDate grid_calendarStart grid_totalDays grid_weeks].
  split; [done|]. split; [done|].
  split. { apply rectsOf_cells. intros j Hj. by apply (grid_days_in_range s e). }
  pose proof (WeekDay_range s) as Hw.
  pose proof (dateValue_days s Hsv) as Hsd.
  pose proof (dateValue_days e Hev) as Hed.
  pose proof (WeekDay_calendarStart s) as Hsun.
  pose proof (Math_ceil_div_7 (JsDate.Day e - (JsDate.Day s - JsDate.WeekDay s) + 1))
    as Hceil.
  assert (JsDate.Day s <= JsDate.Day e) as Hdays by by apply Day_mono.
  pose proof (Day_MakeDate (JsDate.Day s - JsDate.WeekDay s)) as Hcsd.
  pose proof (MakeDate_0 (JsDate.Day s - JsDate.WeekDay s)) as Hcs.
  revert Hsun Hcsd Hcs.
  generalize (JsDate.MakeDate (JsDate.Day s - JsDate.WeekDay s) 0).
  intros cs Hsun Hcsd Hcs. unfold JsDate.getUTCDay. rewrite Hcsd.
  split_and!; try done; try (unfold JsDate.msPerDay; lia).
  - intros d Hd Hd0.
    set (i := JsDate.Day d - (JsDate.Day s - JsDate.WeekDay s)).
    assert (JsDate.Day s <= JsDate.Day d <= JsDate.Day e) as Hdd
      by (split; apply Day_mono; lia).
    assert (d = cs + i * JsDate.msPerDay) as Hdi.
    { pose proof (midnight_MakeDate d Hd0) as Hdm. rewrite MakeDate_0 in Hdm.
      unfold JsDate.msPerDay. lia. }
    eexists. split.
    { rewrite list_lookup_fmap, (lookup_seqZ_lt _ _ (Z.to_nat i)) by lia.
      reflexivity. }
    rewrite Z2Nat.id, Z.add_0_l by lia.
    unfold cellOfDay, cellAt. cbn [cell_date cell_weekIndex cell_dayOfWeek].
    unfold JsDate.getUTCDay. rewrite WeekDay_offset by done.
    split_and!; try done.
    + apply Z.div_pos; lia.
    + apply Z.div_lt_upper_bound; lia.
    + rewrite Hdi. by rewrite WeekDay_offset.
  - intros c c' (i & Hi & ->)%elem_of_cells (i' & Hi' & ->)%elem_of_cells.
    unfold cellOfDay, cellAt. cbn [cell_date cell_weekIndex cell_dayOfWeek].
    unfold JsDate.getUTCDay. rewrite !WeekDay_offset by done.
    intros Hq Hr. assert (i = i'); [|by subst].
    rewrite (Z.div_mod i 7), (Z.div_mod i' 7) by lia. by rewrite Hq, Hr.
Qed.

Lemma grid_invariant_witness :
  exists g, grid "2024-03-01" "2024-03-12" = Some g
    /\ JsDate.getUTCDay (grid_calendarStart g) = 0
    /\ grid_weeks g = 3.
Proof.
  destruct (grid_invariant "2024-03-01" "2024-03-12" 1709251200000 1710201600000
              [] [0; 1; 1; 1])
    as (g & cells & Hg & _ & _ & _ & _ & _ & Hsun & _);
    [reflexivity | reflexivity | lia |].
  exists g. split; [exact Hg|]. split; [exact Hsun|].
  vm_compute in Hg. injection Hg as <-. reflexivity.
Defined.

(** ** The date-time string format *)

Section FormatFacts.

Import JsDate.

Lemma digits4 y :
  digits 4 y
  = String (digitChar (y / 10 / 10 / 10)) (String (digitChar (y / 10 / 10))
      (String (digitChar (y / 10)) (String (digitChar y) ""))).
Proof. reflexivity. Qed.

Lemma digits2 y :
  digits 2 y = String (digitChar (y / 10)) (String (digitChar y) "").
Proof. reflexivity. Qed.

Lemma N_of_digitChar n : Ascii.N_of_ascii (digitChar n) = (48 + Z.to_N (n mod 10))%N.
Proof.
  unfold digitChar. apply Ascii.N_ascii_embedding.
  pose proof (Z.mod_pos_bound n 10). lia.
Qed.

Lemma digitChar_isDigit n : isDigit (digitChar n) = true.
Proof.
  unfold isDigit. cbv zeta. rewrite N_of_digitChar.
  pose proof (Z.mod_pos_bound n 10).
  apply andb_true_intro. split; apply N.leb_le; lia.
Qed.

Lemma digitVal_digitChar n : digitVal (digitChar n) = n mod 10.
Proof.
  unfold digitVal. rewrite N_of_digitChar.
  pose proof (Z.mod_pos_bound n 10). lia.
Qed.

Lemma isDigit_not_hyphen c : isDigit c = true -> c <> "-"%char.
Proof. intros Hd ->. done. Qed.

Lemma split_digit c s :
  isDigit c = true ->
  split "-" (String c s)
  = match split "-" s with
    | [] => [String c ""]
    | w :: ws => String c w :: ws
    end.
Proof.
  intros Hd. cbn [split]. rewrite decide_False; [done|].
  by apply isDigit_not_hyphen.
Qed.

Lemma split_hyphen s : split "-" (String "-" s) = "" :: split "-" s.
Proof. cbn [split]. by rewrite decide_True. Qed.

(** The first ten characters of the date-time string of a year from 0 to
    9999. *)
Lemma isoOf_in_range t :
  0 <= YearFromTime t <= 9999 ->
  isoOf t = digits 4 (YearFromTime t) +:+ "-" +:+ digits 2 (MonthFromTime t + 1)
            +:+ "-" +:+ digits 2 (DateFromTime t).
Proof.
  intros Hy. unfold isoOf, toISOString, yearString.
  destruct (Z.leb_spec 0 (YearFromTime t)); [|lia].
  destruct (Z.leb_spec (YearFromTime t) 9999); [|lia].
  cbn [andb]. rewrite !digits4, !digits2. reflexivity.
Qed.

Lemma monthKeyOf_in_range t :
  0 <= YearFromTime t <= 9999 ->
  monthKeyOf (isoOf t) = monthKeyString (YearFromTime t) (MonthFromTime t).
Proof.
  intros Hy. rewrite isoOf_in_range by done. unfold monthKeyOf, monthKeyString.
  rewrite !digits4, !digits2.
  cbv [String.append].
  rewrite !split_digit, split_hyphen, !split_digit, split_hyphen, !split_digit
    by apply digitChar_isDigit.
  reflexivity.
Qed.

Lemma digitChar_compare x y :
  Ascii.compare (digitChar x) (digitChar y) = (x mod 10 ?= y mod 10).
Proof.
  unfold Ascii.compare. rewrite !N_of_digitChar.
  pose proof (Z.mod_pos_bound x 10). pose proof (Z.mod_pos_bound y 10).
  destruct (Z.compare_spec (x mod 10) (y mod 10)).
  - apply N.compare_eq_iff. lia.
  - apply N.compare_lt_iff. lia.
  - apply N.compare_gt_iff. lia.
Qed.

(** The order of month keys is the order of months. *)
Lemma monthKeyString_compare y m y' m' :
  0 <= y <= 9999 -> 0 <= m <= 11 -> 0 <= y' <= 9999 -> 0 <= m' <= 11 ->
  String.compare (monthKeyString y m) (monthKeyString y' m')
  = (12 * y + m ?= 12 * y' + m').
Proof.
  intros Hy Hm Hy' Hm'. unfold monthKeyString. rewrite !digits4, !digits2.
  cbv [String.append String.compare]. rewrite !digitChar_compare.
  change (Ascii.compare "-" "-") with Eq. cbv iota.
  symmetry.
  repeat match goal with
         | |- context [match ?a ?= ?b with _ => _ end] =>
             destruct (Z.compare_spec a b)
         end;
    first [apply Z.compare_eq_iff | apply Z.compare_lt_iff | apply Z.compare_gt_iff];
    Z.to_euclidean_division_equations; lia.
Qed.

Lemma monthKeyString_le y m y' m' :
  0 <= y <= 9999 -> 0 <= m <= 11 -> 0 <= y' <= 9999 -> 0 <= m' <= 11 ->
  (monthKeyString y m ≤ monthKeyString y' m')%string
  <-> 12 * y + m <= 12 * y' + m'.
Proof.
  intros Hy Hm Hy' Hm'. unfold String.le, String.leb.
  rewrite monthKeyString_compare by done.
  destruct (Z.compare_spec (12 * y + m) (12 * y' + m')); simpl; split; try done; lia.
Qed.

Lemma monthKeyString_inj y m y' m' :
  0 <= y <= 9999 -> 0 <= m <= 11 -> 0 <= y' <= 9999 -> 0 <= m' <= 11 ->
  monthKeyString y m = monthKeyString y' m' -> 12 * y + m = 12 * y' + m'.
Proof.
  intros Hy Hm Hy' Hm' Heq.
  assert (12 * y + m <= 12 * y' + m')
    by (apply monthKeyString_le; [done..|]; by rewrite Heq).
  assert (12 * y' + m' <= 12 * y + m)
    by (apply monthKeyString_le; [done..|]; by rewrite Heq).
  lia.
Qed.

End FormatFacts.

(** ** Parsing date keys *)

Section ParseFacts.

Import JsDate.

Lemma isIsoDate_inv s :
  isIsoDate s = true ->
  exists y1 y2 y3 y4 m1 m2 d1 d2,
    s = String y1 (String y2 (String y3 (String y4 (String "-"
          (String m1 (String m2 (String "-" (String d1 (String d2 "")))))))))
    /\ isDigit y1 = true /\ isDigit y2 = true /\ isDigit y3 = true
    /\ isDigit y4 = true /\ isDigit m1 = true /\ isDigit m2 = true
    /\ isDigit d1 = true /\ isDigit d2 = true
    /\ 1 <= 10 * digitVal m1 + digitVal m2 <= 12
    /\ 1 <= 10 * digitVal d1 + digitVal d2 <= 31.
Proof.
  destruct s as [|y1 [|y2 [|y3 [|y4 [|h1 [|m1 [|m2 [|h2 [|d1 [|d2 [|? ?]]]]]]]]]]];
    try done.
  unfold isIsoDate. rewrite !andb_true_iff, !bool_decide_eq_true, !Z.leb_le.
  intros (((((((((((((?&?)&?)&?)&->)&?)&?)&->)&?)&?)&?)&?)&?)&?).
  do 8 eexists. repeat split; try done; eassumption.
Qed.

Lemma Number_digits4 a b c d :
  isDigit a = true -> isDigit b = true -> isDigit c = true -> isDigit d = true ->
  Number (String a (String b (String c (String d ""))))
  = Some (1000 * digitVal a + 100 * digitVal b + 10 * digitVal c + digitVal d).
Proof.
  intros Ha Hb Hc Hd. unfold Number. cbn [Number_go].
  rewrite Ha, Hb, Hc, Hd. f_equal. all: unfold digitVal; lia.
Qed.

Lemma Number_digits2 a b :
  isDigit a = true -> isDigit b = true ->
  Number (String a (String b "")) = Some (10 * digitVal a + digitVal b).
Proof.
  intros Ha Hb. unfold Number. cbn [Number_go].
  rewrite Ha, Hb. f_equal. all: unfold digitVal; lia.
Qed.

Lemma DayFromYear_100 : DayFromYear 100 = -683003.
Proof. reflexivity. Qed.

Lemma DayFromYear_10000 : DayFromYear 10000 = 2932897.
Proof. reflexivity. Qed.

Lemma leapOfYear_succ y : DayFromYear (y + 1) = DayFromYear y + 365 + leapOfYear y.
Proof.
  rewrite DayFromYear_succ. unfold leapOfYear.
  destruct (DaysInYear_cases y) as [-> | ->]; simpl; lia.
Qed.

(** The time value of a year from 0 to 9999, a month from 1 to 12 and a
    day from 1 to 31 is in the years 100 to 9999. *)
Lemma UTC_iso y m d :
  0 <= y <= 9999 -> 1 <= m <= 12 -> 1 <= d <= 31 ->
  exists t, UTC y (m - 1) d = Some t
    /\ DayFromYear 100 <= Day t < DayFromYear 10000.
Proof.
  intros Hy Hm Hd. unfold UTC. cbv zeta.
  set (yr := if (0 <=? y) && (y <=? 99) then 1900 + y else y).
  assert (100 <= yr <= 9999) as Hyr.
  { subst yr. destruct (Z.leb_spec 0 y), (Z.leb_spec y 99); simpl; lia. }
  clearbody yr. change (MakeTime 0 0 0 0) with 0.
  assert (DayFromYear 100 <= MakeDay yr (m - 1) d < DayFromYear 10000) as Hday.
  { unfold MakeDay. cbv zeta. rewrite Z.div_small, Z.mod_small, Z.add_0_r by lia.
    pose proof (DayFromYear_mono 100 yr ltac:(lia)).
    pose proof (DayFromYear_mono (yr + 1) 10000 ltac:(lia)) as Hup.
    rewrite leapOfYear_succ in Hup.
    assert (0 <= firstDayOfMonth (leapOfYear yr) (m - 1)
            /\ firstDayOfMonth (leapOfYear yr) (m - 1) + d - 1
               <= 364 + leapOfYear yr) as Hf.
    { assert (m = 1 \/ m = 2 \/ m = 3 \/ m = 4 \/ m = 5 \/ m = 6 \/ m = 7
              \/ m = 8 \/ m = 9 \/ m = 10 \/ m = 11 \/ m = 12) as Hcases by lia.
      destruct (leapOfYear_cases yr) as [-> | ->];
        repeat (destruct Hcases as [-> | Hcases]); try subst m;
        repeat match goal with
               | |- context [firstDayOfMonth ?l (?a - 1)] =>
                   let v := eval vm_compute in (a - 1) in
                   progress change (a - 1) with v
               end;
        cbn [firstDayOfMonth]; lia. }
    lia. }
  eexists. split.
  - apply TimeClip_Some. rewrite MakeDate_0.
    rewrite DayFromYear_100, DayFromYear_10000 in Hday. lia.
  - by rewrite Day_MakeDate.
Qed.

(** A date key is parsed, to a time value in the years 100 to 9999. *)
Lemma isIsoDate_parse s :
  isIsoDate s = true ->
  exists t, parseDate s = Some t
    /\ DayFromYear 100 <= Day t < DayFromYear 10000.
Proof.
  intros (y1 & y2 & y3 & y4 & m1 & m2 & d1 & d2 & -> & Hy1 & Hy2 & Hy3 & Hy4
          & Hm1 & Hm2 & Hd1 & Hd2 & Hm & Hd)%isIsoDate_inv.
  unfold parseDate.
  rewrite !split_digit, split_hyphen, !split_digit, split_hyphen, !split_digit
    by done.
  cbn [split fmap list_fmap].
  rewrite Number_digits4, !Number_digits2 by done.
  rewrite !bind_Some.
  apply isDigit_val in Hy1, Hy2, Hy3, Hy4.
  apply UTC_iso; lia.
Qed.

Lemma year_in_range t :
  DayFromYear 100 - 6 <= Day t < DayFromYear 10000 ->
  0 <= YearFromTime t <= 9999.
Proof.
  intros [Hlo Hhi]. pose proof (YearFromTime_days t) as [Hlo' Hhi'].
  assert (99 < YearFromTime t + 1).
  { apply DayFromYear_lt_inv. change (DayFromYear 99) with (-683368).
    rewrite DayFromYear_100 in Hlo. lia. }
  assert (YearFromTime t < 10000) by (apply DayFromYear_lt_inv; lia).
  lia.
Qed.

End ParseFacts.

(** ** The loop over the months *)

Section MonthLoop.

Import JsDate.

Lemma firstIndex_Some key k i n j :
  firstIndex key k i n = Some j ->
  i <= j < i + Z.of_nat n /\ key j = k /\ forall j', i <= j' < j -> key j' <> k.
Proof.
  revert i. induction n as [|n IH]; intros i; [done|]. cbn [firstIndex].
  destruct (decide (key i = k)) as [Hk|Hk].
  - intros [= <-]. split_and!; [lia | lia | done | lia].
  - intros (Hr & Hj & Hfirst)%IH. split_and!; [lia | lia | done |].
    intros j' Hj'. destruct (decide (j' = i)) as [->|]; [done|].
    apply Hfirst. lia.
Qed.

Lemma firstIndex_None key k i n :
  firstIndex key k i n = None -> forall j, i <= j < i + Z.of_nat n -> key j <> k.
Proof.
  revert i. induction n as [|n IH]; intros i; [lia|]. cbn [firstIndex].
  destruct (decide (key i = k)) as [Hk|Hk]; [done|].
  intros Hnone j Hj. destruct (decide (j = i)) as [->|]; [done|].
  apply (IH _ Hnone). lia.
Qed.

Lemma firstIndex_is_Some key k i n j :
  i <= j < i + Z.of_nat n -> key j = k -> is_Some (firstIndex key k i n).
Proof.
  intros Hj Hk. destruct (firstIndex key k i n) eqn:Hf; [eauto|].
  by destruct (firstIndex_None _ _ _ _ Hf j Hj).
Qed.

Lemma monthStep_Some calendarStart i monthPositions :
  -8640000000000000 <= calendarStart + i * msPerDay <= 8640000000000000 ->
  monthStep calendarStart i monthPositions
  = Some (if Dict.has (monthKeyOfDay calendarStart i) monthPositions
          then monthPositions
          else Dict.set (monthKeyOfDay calendarStart i) (i / 7) monthPositions).
Proof.
  intros Hr. unfold monthStep, ofNumber. rewrite TimeClip_Some, bind_Some by done.
  fold (monthKeyOfDay calendarStart i). by case_match.
Qed.

(** The loop keeps the keys it starts with and gives each new key the week
    of the first day that has it. *)
Lemma for_loop_months calendarStart n i monthPositions :
  (forall j, i <= j < i + Z.of_nat n ->
     -8640000000000000 <= calendarStart + j * msPerDay <= 8640000000000000) ->
  exists result,
    for_loop n i (monthStep calendarStart) monthPositions = Some result
    /\ (Dict.wf monthPositions -> Dict.wf result)
    /\ forall k,
         Dict.get k result
         = match Dict.get k monthPositions with
           | Some w => Some w
           | None => (fun j => j / 7)
                       <$> firstIndex (monthKeyOfDay calendarStart) k i n
           end.
Proof.
  revert i monthPositions. induction n as [|n IH]; intros i mp Hr.
  - exists mp. split_and!; [done | done |]. intros k. by destruct (Dict.get k mp).
  - cbn [for_loop]. rewrite monthStep_Some, bind_Some by (apply Hr; lia).
    set (key := monthKeyOfDay calendarStart i).
    set (mp1 := if Dict.has key mp then mp else Dict.set key (i / 7) mp).
    destruct (IH (i + 1) mp1) as (result & Hloop & Hwf & Hget).
    { intros j Hj. apply Hr. lia. }
    exists result. split_and!; [done | |].
    + intros Hmp. apply Hwf. subst mp1. case_match; [done|]. by apply wf_set.
    + intros k. rewrite Hget. cbn [firstIndex]. fold key. subst mp1.
      destruct (Dict.has key mp) eqn:Hhas.
      * destruct (Dict.get k mp) as [w|] eqn:Hk; [done|].
        rewrite decide_False; [done|]. intros ->.
        apply has_true in Hhas as [w Hw]. congruence.
      * apply has_false in Hhas.
        destruct (decide (key = k)) as [<-|Hne].
        -- by rewrite get_set_eq, Hhas.
        -- by rewrite get_set_ne.
Qed.

Lemma monthPositionsOf_first calendarStart totalDays :
  (forall j, 0 <= j < totalDays ->
     -8640000000000000 <= calendarStart + j * msPerDay <= 8640000000000000) ->
  exists monthPositions,
    monthPositionsOf calendarStart totalDays = Some monthPositions
    /\ Dict.wf monthPositions
    /\ forall k,
         Dict.get k monthPositions
         = (fun j => j / 7)
             <$> firstIndex (monthKeyOfDay calendarStart) k 0 (Z.to_nat totalDays).
Proof.
  intros Hr. unfold monthPositionsOf.
  destruct (for_loop_months calendarStart (Z.to_nat totalDays) 0 [])
    as (result & Hloop & Hwf & Hget).
  { intros j Hj. apply Hr. lia. }
  exists result. split_and!; [done | | done].
  apply Hwf. apply NoDup_nil_2.
Qed.

End MonthLoop.

(** ** The rendering of a payload with dates *)

Section RenderFacts.

Import JsDate.

Lemma or_null_Some s : s <> "" -> or_null (Some s) = Some s.
Proof. intros Hs. unfold or_null. by rewrite decide_False. Qed.

Lemma parseDate_nonempty s t : parseDate s = Some t -> s <> "".
Proof. by intros Hp ->. Qed.

(** The rendering of a payload whose two dates are parsed. *)
Lemma renderCalendar_parsed p start end_ s e :
  payload_start p = Some start -> payload_end p = Some end_ ->
  parseDate start = Some s -> parseDate end_ = Some e ->
  exists monthPositions c,
    monthPositionsOf (MakeDate (Day s - WeekDay s) 0)
                     (Day e - (Day s - WeekDay s) + 1) = Some monthPositions
    /\ renderCalendar p = Some (Full c)
    /\ cal_monthLabels c
       = monthLabel monthPositions <$> Array_sort (Dict.keys monthPositions)
    /\ cal_weekdayLabels c = weekdayLabel <$> weekdayLabels
    /\ cal_rects c
       = cellOfDay (MakeDate (Day s - WeekDay s) 0) (payload_counts p)
                   (breaks (Math_max (Dict.values (payload_counts p)) 1))
           <$> seqZ 0 (Day e - (Day s - WeekDay s) + 1).
Proof.
  intros Hstart Hend Hs He.
  pose proof (parseDate_dateValue _ _ Hs) as Hsv.
  pose proof (parseDate_dateValue _ _ He) as Hev.
  assert (forall j, 0 <= j < Day e - (Day s - WeekDay s) + 1 ->
            -8640000000000000 <= MakeDate (Day s - WeekDay s) 0 + j * msPerDay
              <= 8640000000000000) as Hr
    by (intros j Hj; by apply (grid_days_in_range s e)).
  destruct (monthPositionsOf_first _ _ Hr) as (mp & Hmp & _).
  exists mp. eexists. split; [exact Hmp|].
  unfold renderCalendar. rewrite Hstart, Hend.
  rewrite !or_null_Some by eauto using parseDate_nonempty.
  rewrite (grid_parsed _ _ _ _ Hs He), bind_Some.
  cbv beta zeta. cbn [grid_calendarStart grid_totalDays grid_weeks].
  rewrite Hmp, bind_Some, (rectsOf_cells _ _ _ _ Hr), bind_Some.
  split; [reflexivity|]. split_and!; reflexivity.
Qed.

Lemma grid_day_year s e i :
  DayFromYear 100 <= Day s -> Day e < DayFromYear 10000 ->
  0 <= i < Day e - (Day s - WeekDay s) + 1 ->
  0 <= YearFromTime (MakeDate (Day s - WeekDay s) 0 + i * msPerDay) <= 9999.
Proof.
  intros Hs He Hi. apply year_in_range.
  rewrite Day_add_days, Day_MakeDate. pose proof (WeekDay_range s). lia.
Qed.

Lemma StronglySorted_lookup {A} (R : relation A) l a b x y :
  StronglySorted R l -> l !! a = Some x -> l !! b = Some y -> (a < b)%nat -> R x y.
Proof.
  intros Hs. revert a b.
  induction Hs as [|z l Hs IH Hall]; intros a b Hx Hy Hab; [done|].
  destruct a as [|a], b as [|b]; try lia.
  - injection Hx as <-. rewrite Forall_forall in Hall. apply Hall.
    apply (list_elem_of_lookup_2 l b). exact Hy.
  - apply (IH a b); [exact Hx | exact Hy | lia].
Qed.


End RenderFacts.



(** ** The cells of a payload with dates *)

Section CellFacts.

Import JsDate.

(** The date string of a day of the years 0 to 9999 is a date key. *)
Lemma isoOf_isIsoDate t :
  0 <= YearFromTime t <= 9999 -> isIsoDate (isoOf t) = true.
Proof.
  intros Hy. rewrite isoOf_in_range, !digits4, !digits2 by done.
  cbv [String.append]. unfold isIsoDate.
  rewrite !digitChar_isDigit, !digitVal_digitChar, !bool_decide_eq_true_2 by done.
  pose proof (MonthFromTime_range t). pose proof (DateFromTime_range t).
  cbn [andb]. rewrite !andb_true_iff, !Z.leb_le.
  generalize dependent (MonthFromTime t). generalize dependent (DateFromTime t).
  intros D HD M HM. Z.to_euclidean_division_equations. lia.
Qed.

(** The date string of a midnight of the years 100 to 9999 is parsed
    back to it. *)
Lemma parseDate_isoOf t :
  TimeWithinDay t = 0 -> 100 <= YearFromTime t <= 9999 ->
  parseDate (isoOf t) = Some t.
Proof.
  intros Ht0 Hy. rewrite isoOf_in_range, !digits4, !digits2 by lia.
  cbv [String.append]. unfold parseDate.
  rewrite !split_digit, split_hyphen, !split_digit, split_hyphen, !split_digit
    by apply digitChar_isDigit.
  cbn [split fmap list_fmap].
  rewrite Number_digits4, !Number_digits2 by apply digitChar_isDigit.
  rewrite !bind_Some, !digitVal_digitChar.
  pose proof (MonthFromTime_range t) as Hm.
  pose proof (DateFromTime_range t) as Hd.
  replace (1000 * ((YearFromTime t / 10 / 10 / 10) mod 10)
           + 100 * ((YearFromTime t / 10 / 10) mod 10)
           + 10 * ((YearFromTime t / 10) mod 10) + YearFromTime t mod 10)
    with (YearFromTime t) by (Z.to_euclidean_division_equations; lia).
  replace (10 * (((MonthFromTime t + 1) / 10) mod 10)
           + (MonthFromTime t + 1) mod 10 - 1)
    with (MonthFromTime t) by (Z.to_euclidean_division_equations; lia).
  replace (10 * ((DateFromTime t / 10) mod 10) + DateFromTime t mod 10)
    with (DateFromTime t) by (Z.to_euclidean_division_equations; lia).
  unfold UTC. cbv zeta.
  destruct (Z.leb_spec (YearFromTime t) 99); [lia|]. rewrite andb_false_r.
  change (MakeTime 0 0 0 0) with 0.
  rewrite MakeDay_same_month, Z.sub_diag, Z.add_0_r, <- midnight_MakeDate by done.
  apply TimeClip_Some.
  pose proof (YearFromTime_days t) as [Hlo Hhi].
  pose proof (DayFromYear_mono 100 (YearFromTime t) ltac:(lia)) as H100.
  pose proof (DayFromYear_mono (YearFromTime t + 1) 10000 ltac:(lia)) as H10000.
  rewrite DayFromYear_100 in H100. rewrite DayFromYear_10000 in H10000.
  pose proof (midnight_MakeDate t Ht0) as Ht. rewrite MakeDate_0 in Ht. lia.
Qed.


End CellFacts.



(** ** From the series to the rendering *)

Lemma countAt_nonneg date m : DailySeries m -> 0 <= countAt date m.
Proof.
  intros [_ Hall]. unfold countAt.
  destruct (Dict.get date m) as [c|] eqn:Hc; [|done].
  apply get_Some_elem in Hc. rewrite Forall_forall in Hall.
  by destruct (Hall _ Hc).
Qed.

Lemma sumCounts_nonneg date maps :
  Forall DailySeries maps -> 0 <= sumCounts date maps.
Proof.
  unfold sumCounts. induction 1 as [|m maps Hm _ IH]; [done|].
  rewrite fmap_cons. cbn [foldr]. pose proof (countAt_nonneg date m Hm). lia.
Qed.

(** The merge of DailySeries is a DailySeries. *)
Lemma mergeMaps_DailySeries maps :
  Forall DailySeries maps -> DailySeries (mergeMaps maps).
Proof.
  intros Hall.
  assert (Forall Dict.wf maps) as Hwf
    by (eapply Forall_impl; [exact Hall | by intros m [? _]]).
  split; [apply mergeMaps_wf|].
  apply Forall_forall. intros [k v] Hin.
  apply (elem_get _ _ _ (mergeMaps_wf maps)) in Hin.
  rewrite mergeMaps_get in Hin by done.
  destruct (anyHas k maps) eqn:Hany; [|done]. injection Hin as <-.
  split; [|by apply sumCounts_nonneg].
  apply anyHas_true in Hany as (m & Hm & Hk).
  rewrite Forall_forall in Hall.
  apply (DailySeries_keys m); [by apply Hall | by apply get_is_Some].
Qed.

(** The merge of DailySeries, when it has a date, is rendered as a
    calendar. *)
Lemma pipeline_renders maps :
  Forall DailySeries maps -> mergeMaps maps <> [] ->
  exists c, renderCalendar (mergedMapToPayload (mergeMaps maps)) = Some (Full c).
Proof.
  intros Hall Hne. pose proof (mergeMaps_DailySeries maps Hall) as Hds.
  destruct (payload_start_end (mergeMaps maps))
    as (lo & hi & Hlo & Hhi & Hlk & Hhk & _); [apply mergeMaps_wf | done | |].
  { intros k Hk. apply isIsoDate_nonempty.
    by apply (DailySeries_keys (mergeMaps maps)). }
  destruct (isIsoDate_parse lo (DailySeries_keys _ _ Hds Hlk)) as (s & Hs & _).
  destruct (isIsoDate_parse hi (DailySeries_keys _ _ Hds Hhk)) as (e & He & _).
  destruct (renderCalendar_parsed _ lo hi s e Hlo Hhi Hs He)
    as (mp & c & _ & Hrender & _).
  by exists c.
Qed.

(** ** The scenarios of the specification *)

Example scenario_merge_and_summary :
  mergedMapToPayload
    (mergeMaps [[("2024-01-01", 3)]; [("2024-01-01", 2); ("2024-01-02", 1)]])
  = {| payload_start := Some "2024-01-01"; payload_end := Some "2024-01-02";
       payload_total := 6;
       payload_counts := [("2024-01-01", 5); ("2024-01-02", 1)] |}.
Proof. reflexivity. Qed.

Example scenario_empty_input :
  mergedMapToPayload (mergeMaps [])
  = {| payload_start := None; payload_end := None;
       payload_total := 0; payload_counts := [] |}
  /\ renderCalendarSVG (mergedMapToPayload (mergeMaps [])) "" = Some minimalSvg.
Proof. split; reflexivity. Qed.

Example scenario_single_friday :
  (fun g => (isoOf (grid_calendarStart g), grid_totalDays g, grid_weeks g))
    <$> grid "2024-03-01" "2024-03-01"
  = Some ("2024-02-25", 6, 1)
  /\ JsDate.getUTCDay <$> parseDate "2024-03-01" = Some 5.
Proof. split; vm_compute; reflexivity. Qed.

Example scenario_month_mid_week :
  (fmap (M := list) (fun l => (ml_key l, ml_weekIndex l)) ∘ monthLabelsOf)
    <$> renderCalendar
          {| payload_start := Some "2024-01-15"; payload_end := Some "2024-02-10";
             payload_total := 1; payload_counts := [("2024-01-15", 1)] |}
  = Some [("2024-01", 0); ("2024-02", 2)].
Proof. vm_compute. reflexivity. Qed.

(** * More properties of the code *)

(** ** Totals and keys of the merge *)

Lemma sumValues_cons k v (m : dict) : sumValues ((k, v) :: m) = v + sumValues m.
Proof. reflexivity. Qed.

Lemma sumValues_set k v m :
  sumValues (Dict.set k v m) = sumValues m - countAt k m + v.
Proof.
  unfold countAt. induction m as [|[k' v'] m IH].
  - cbn [Dict.set Dict.get]. rewrite sumValues_cons. simpl.
    change (sumValues []) with 0. lia.
  - cbn [Dict.set Dict.get]. destruct (decide (k = k')) as [->|Hne].
    + rewrite !sumValues_cons. simpl. lia.
    + rewrite !sumValues_cons, IH. lia.
Qed.

Lemma sumValues_mergeInto merged m :
  sumValues (mergeInto merged m) = sumValues merged + sumValues m.
Proof.
  revert merged. induction m as [|[k c] m IH]; intros merged.
  - change (sumValues []) with 0. cbn [mergeInto foldl]. unfold mergeInto. cbn [foldl]. lia.
  - rewrite mergeInto_cons, IH, sumValues_set, sumValues_cons. lia.
Qed.

Lemma sumValues_foldl_mergeInto merged maps :
  sumValues (foldl mergeInto merged maps) = sumValues merged + sumTotals maps.
Proof.
  revert merged. induction maps as [|m maps IH]; intros merged.
  - change (sumTotals []) with 0. cbn [foldl]. lia.
  - cbn [foldl]. rewrite IH, sumValues_mergeInto. unfold sumTotals.
    rewrite fmap_cons. cbn [foldr]. lia.
Qed.

Lemma payload_total_sumValues merged :
  payload_total (mergedMapToPayload merged) = sumValues merged.
Proof.
  unfold mergedMapToPayload. rewrite payload_fold. cbn [payload_total]. lia.
Qed.

(** X1. The merge keeps the totals: the sum of the counts of the merged
    series, and so the [total] that [aggregateUsers] reports, is the sum
    of all the counts of all the inputs. *)
Theorem merge_preserves_totals (maps : list dict) :
  sumValues (mergeMaps maps) = sumTotals maps
  /\ payload_total (aggregatePayload maps) = sumTotals maps.
Proof.
  assert (sumValues (mergeMaps maps) = sumTotals maps) as H.
  { unfold mergeMaps. rewrite sumValues_foldl_mergeInto.
    change (sumValues []) with 0. lia. }
  split; [done|]. unfold aggregatePayload. by rewrite payload_total_sumValues.
Qed.

Lemma keys_mergeInto merged m :
  Dict.keys (mergeInto merged m)
  = foldl (fun seen k => if decide (k ∈ seen) then seen else seen ++ [k])
          (Dict.keys merged) (Dict.keys m).
Proof.
  revert merged. induction m as [|[k c] m IH]; intros merged; [done|].
  rewrite mergeInto_cons, IH, keys_set. reflexivity.
Qed.

Lemma keys_foldl_mergeInto merged maps :
  Dict.keys (foldl mergeInto merged maps)
  = foldl (fun seen k => if decide (k ∈ seen) then seen else seen ++ [k])
          (Dict.keys merged) (mjoin (Dict.keys <$> maps)).
Proof.
  revert merged. induction maps as [|m maps IH]; intros merged; [done|].
  cbn [foldl]. rewrite IH, keys_mergeInto, fmap_cons. cbn [mjoin list_join].
  by rewrite foldl_app.
Qed.

Lemma firstSeen_from_elem (seen l : list string) k :
  k ∈ foldl (fun seen k => if decide (k ∈ seen) then seen else seen ++ [k]) seen l
  <-> k ∈ seen \/ k ∈ l.
Proof.
  revert seen. induction l as [|x l IH]; intros seen.
  - cbn [foldl]. rewrite elem_of_nil. tauto.
  - cbn [foldl]. rewrite IH, elem_of_cons. destruct (decide (x ∈ seen)) as [Hx|Hx].
    + split; [tauto|]. intros [?|[->|?]]; tauto.
    + rewrite elem_of_app, list_elem_of_singleton. tauto.
Qed.

Lemma firstSeen_from_NoDup (seen l : list string) :
  NoDup seen ->
  NoDup (foldl (fun seen k => if decide (k ∈ seen) then seen else seen ++ [k])
               seen l).
Proof.
  revert seen. induction l as [|x l IH]; intros seen Hnd; [done|].
  cbn [foldl]. apply IH. destruct (decide (x ∈ seen)) as [Hx|Hx]; [done|].
  apply NoDup_app. split_and!; [done | | apply NoDup_singleton].
  intros y Hy Hy'. apply list_elem_of_singleton in Hy'. by subst.
Qed.

(** X2. The merged [Map] never holds a key twice; its keys are the keys of
    the inputs, each once, in the order in which the loops first meet
    them. *)
Theorem mergeMaps_keys (maps : list dict) :
  Dict.wf (mergeMaps maps)
  /\ Dict.keys (mergeMaps maps) = firstSeen (mjoin (Dict.keys <$> maps))
  /\ NoDup (firstSeen (mjoin (Dict.keys <$> maps)))
  /\ forall k, k ∈ Dict.keys (mergeMaps maps)
       <-> exists m, m ∈ maps /\ k ∈ Dict.keys m.
Proof.
  assert (Dict.keys (mergeMaps maps) = firstSeen (mjoin (Dict.keys <$> maps)))
    as Hkeys by apply keys_foldl_mergeInto.
  split_and!; [apply mergeMaps_wf | done | |].
  - apply firstSeen_from_NoDup, NoDup_nil_2.
  - intros k. rewrite Hkeys. unfold firstSeen.
    rewrite firstSeen_from_elem, elem_of_nil, list_elem_of_join. split.
    + intros [[] | (ks & Hk & (m & -> & Hm)%list_elem_of_fmap)]. eauto.
    + intros (m & Hm & Hk). right. exists (Dict.keys m). split; [done|].
      apply list_elem_of_fmap. eauto.
Qed.

(** ** How merges compose *)

Lemma mergeInto_fresh (merged m : dict) :
  Dict.wf (merged ++ m) -> mergeInto merged m = merged ++ m.
Proof.
  revert merged. induction m as [|[d c] m IH]; intros merged Hwf.
  - by rewrite app_nil_r.
  - rewrite mergeInto_cons.
    assert (d ∉ Dict.keys merged) as Hd.
    { unfold Dict.wf, Dict.keys in *. rewrite fmap_app, fmap_cons in Hwf.
      apply NoDup_app in Hwf as (_ & Hdisj & _). intros Hin.
      apply (Hdisj d Hin). apply list_elem_of_here. }
    rewrite set_fresh by done. unfold countAt.
    apply get_None in Hd. rewrite Hd. cbn [default from_option].
    rewrite Z.add_0_l. rewrite IH; rewrite <- app_assoc; done.
Qed.

Lemma countAt_mergeMaps date maps :
  Forall Dict.wf maps -> countAt date (mergeMaps maps) = sumCounts date maps.
Proof.
  intros Hwf. unfold countAt at 1. rewrite mergeMaps_get by done.
  destruct (anyHas date maps) eqn:Hany; [done|]. cbn [default from_option].
  symmetry. unfold sumCounts. clear Hwf. induction maps as [|m maps IH]; [done|].
  unfold anyHas in *. cbn [existsb] in Hany.
  apply orb_false_elim in Hany as [Hm Hmaps]. rewrite fmap_cons. cbn [foldr].
  rewrite IH by done. apply has_false in Hm. unfold countAt. by rewrite Hm.
Qed.

Lemma has_mergeMaps date maps :
  Forall Dict.wf maps -> Dict.has date (mergeMaps maps) = anyHas date maps.
Proof.
  intros Hwf. destruct (anyHas date maps) eqn:Hany.
  - apply has_true. rewrite mergeMaps_get, Hany by done. eauto.
  - apply has_false. by rewrite mergeMaps_get, Hany.
Qed.

Lemma anyHas_app date l1 l2 :
  anyHas date (l1 ++ l2) = anyHas date l1 || anyHas date l2.
Proof. apply existsb_app. Qed.

Lemma sumCounts_app date l1 l2 :
  sumCounts date (l1 ++ l2) = sumCounts date l1 + sumCounts date l2.
Proof.
  unfold sumCounts. induction l1 as [|m l1 IH]; [done|].
  rewrite <- app_comm_cons, !fmap_cons. cbn [foldr]. rewrite IH. lia.
Qed.

Lemma nested_anyHas_sumCounts date (groups : list (list dict)) :
  Forall (Forall Dict.wf) groups ->
  anyHas date (mergeMaps <$> groups) = anyHas date (mjoin groups)
  /\ sumCounts date (mergeMaps <$> groups) = sumCounts date (mjoin groups).
Proof.
  induction 1 as [|g groups Hg _ [IHa IHs]]; [done|].
  rewrite fmap_cons.
  change (mjoin (g :: groups)) with (g ++ mjoin groups).
  rewrite anyHas_app, sumCounts_app, <- IHa, <- IHs. split.
  - unfold anyHas. cbn [existsb]. by rewrite has_mergeMaps.
  - unfold sumCounts. rewrite fmap_cons. cbn [foldr].
    by rewrite countAt_mergeMaps.
Qed.

(** X3. Merging is associative: merging the merges of groups of series
    gives, at every date, the count of the merge of all the series at
    once, and the same set of entries. *)
Theorem mergeMaps_nested (groups : list (list dict)) :
  Forall (Forall Dict.wf) groups ->
  (forall date,
     Dict.get date (mergeMaps (mergeMaps <$> groups))
     = Dict.get date (mergeMaps (mjoin groups)))
  /\ mergeMaps (mergeMaps <$> groups) ≡ₚ mergeMaps (mjoin groups).
Proof.
  intros Hwf.
  assert (Forall Dict.wf (mergeMaps <$> groups)) as Hwf1.
  { apply Forall_fmap, Forall_forall. intros g _. apply mergeMaps_wf. }
  assert (Forall Dict.wf (mjoin groups)) as Hwf2.
  { apply Forall_forall. intros m (g & Hm & Hg)%list_elem_of_join.
    rewrite Forall_forall in Hwf. specialize (Hwf g Hg).
    rewrite Forall_forall in Hwf. by apply Hwf. }
  assert (forall date,
            Dict.get date (mergeMaps (mergeMaps <$> groups))
            = Dict.get date (mergeMaps (mjoin groups))) as Hget.
  { intros date. rewrite !mergeMaps_get by done.
    by destruct (nested_anyHas_sumCounts date groups Hwf) as [-> ->]. }
  split; [done|]. apply wf_lookup_Permutation; auto using mergeMaps_wf.
Qed.

Lemma mergeMaps_nested_witness :
  Dict.get "2024-01-01"
    (mergeMaps [mergeMaps [[("2024-01-01", 3)]; [("2024-01-01", 2)]];
                mergeMaps [[("2024-01-02", 1); ("2024-01-01", 4)]]])
  = Dict.get "2024-01-01"
      (mergeMaps [[("2024-01-01", 3)]; [("2024-01-01", 2)];
                  [("2024-01-02", 1); ("2024-01-01", 4)]]).
Proof.
  apply (mergeMaps_nested
           [[[("2024-01-01", 3)]; [("2024-01-01", 2)]];
            [[("2024-01-02", 1); ("2024-01-01", 4)]]]).
  repeat constructor; unfold Dict.wf, Dict.keys; by_eval.
Defined.

(** X4. The merge of a single series is that series, entry by entry and
    in the same order, so that the payload of one user is the summary of
    that user's calendar. *)
Theorem mergeMaps_single (m : dict) :
  Dict.wf m ->
  mergeMaps [m] = m /\ aggregatePayload [m] = mergedMapToPayload m.
Proof.
  intros Hwf. assert (mergeMaps [m] = m) as H.
  { unfold mergeMaps. cbn [foldl]. by rewrite mergeInto_fresh. }
  split; [done|]. unfold aggregatePayload. by rewrite H.
Qed.

Lemma mergeMaps_single_witness :
  mergeMaps [[("2024-01-02", 1); ("2024-01-01", 5)]]
  = [("2024-01-02", 1); ("2024-01-01", 5)].
Proof.
  apply (mergeMaps_single [("2024-01-02", 1); ("2024-01-01", 5)]).
  unfold Dict.wf, Dict.keys. by_eval.
Defined.

(** ** The payload of [aggregateUsers] *)

(** X5. The payload of DailySeries holds a DailySeries: its [counts] have
    distinct date keys and non-negative values, its [total] is not
    negative, and a date is a key of [counts] exactly when it is a date of
    one of the users. *)
Theorem aggregatePayload_DailySeries (maps : list dict) :
  Forall DailySeries maps ->
  DailySeries (payload_counts (aggregatePayload maps))
  /\ payload_counts (aggregatePayload maps) = mergeMaps maps
  /\ 0 <= payload_total (aggregatePayload maps)
  /\ forall date, date ∈ Dict.keys (payload_counts (aggregatePayload maps))
       <-> exists m, m ∈ maps /\ date ∈ Dict.keys m.
Proof.
  intros Hall. pose proof (mergeMaps_DailySeries maps Hall) as Hds.
  assert (Forall Dict.wf maps) as Hwf
    by (eapply Forall_impl; [exact Hall | by intros m [? _]]).
  unfold aggregatePayload.
  rewrite mergedMapToPayload_unfold by apply mergeMaps_wf.
  cbn [payload_counts payload_total]. split_and!; [done | done | |].
  - destruct Hds as [_ Hnn]. unfold sumValues, Dict.values.
    induction Hnn as [|[k v] m [_ Hv] _ IH]; [done|].
    rewrite fmap_cons. cbn [foldr snd] in *. lia.
  - intros date. rewrite <- get_is_Some, mergeMaps_get by done.
    destruct (anyHas date maps) eqn:Hany.
    + apply anyHas_true in Hany as (m & Hm & Hk). split; [|eauto].
      intros _. exists m. split; [done|]. by apply get_is_Some.
    + split; [by intros [? ?]|]. intros (m & Hm & Hk).
      assert (anyHas date maps = true) as Hcontra; [|congruence].
      apply anyHas_true. exists m. split; [done|]. by apply get_is_Some.
Qed.

Lemma aggregatePayload_DailySeries_witness :
  0 <= payload_total
         (aggregatePayload
            [[("2024-01-01", 3)]; [("2024-01-01", 2); ("2024-01-02", 1)]]).
Proof.
  apply (aggregatePayload_DailySeries
           [[("2024-01-01", 3)]; [("2024-01-01", 2); ("2024-01-02", 1)]]).
  repeat constructor; try done; unfold Dict.keys; by_eval.
Defined.

(** A DailySeries with a date is rendered as a calendar. *)
Lemma DailySeries_renders merged :
  DailySeries merged -> merged <> [] ->
  exists c, renderCalendar (mergedMapToPayload merged) = Some (Full c).
Proof.
  intros Hds Hne. destruct (payload_start_end merged)
    as (lo & hi & Hlo & Hhi & Hlk & Hhk & _); [by destruct Hds | done | |].
  { intros k Hk. apply isIsoDate_nonempty. by apply (DailySeries_keys merged). }
  destruct (isIsoDate_parse lo (DailySeries_keys _ _ Hds Hlk)) as (s & Hs & _).
  destruct (isIsoDate_parse hi (DailySeries_keys _ _ Hds Hhk)) as (e & He & _).
  destruct (renderCalendar_parsed _ lo hi s e Hlo Hhi Hs He)
    as (mp & c & _ & Hrender & _).
  by exists c.
Qed.

(** X6. The summary of a DailySeries has a [null] start exactly when the
    series is empty, and likewise a [null] end; the renderer returns the
    minimal document for the summary exactly in that case. *)
Theorem summary_null_iff_empty (merged : dict) :
  DailySeries merged ->
  (payload_start (mergedMapToPayload merged) = None <-> merged = [])
  /\ (payload_end (mergedMapToPayload merged) = None <-> merged = [])
  /\ (renderCalendar (mergedMapToPayload merged) = Some Minimal <-> merged = []).
Proof.
  intros Hds. destruct (decide (merged = [])) as [->|Hne].
  { split_and!; done. }
  destruct (payload_start_end merged)
    as (lo & hi & Hlo & Hhi & _); [by destruct Hds | done | |].
  { intros k Hk. apply isIsoDate_nonempty. by apply (DailySeries_keys merged). }
  destruct (DailySeries_renders merged Hds Hne) as [c Hc].
  rewrite Hlo, Hhi, Hc. split_and!; split; done.
Qed.

Lemma summary_null_iff_empty_witness :
  payload_start (mergedMapToPayload [("2024-01-02", 1)]) = None
  <-> [("2024-01-02", 1)] = ([] : dict).
Proof.
  apply (summary_null_iff_empty [("2024-01-02", 1)]).
  split; [unfold Dict.wf, Dict.keys; by_eval | repeat constructor; done].
Defined.

Lemma String_le_empty s : ("" ≤ s)%string.
Proof. unfold String.le, String.leb. by destruct s. Qed.

(** X7. The empty string as a key makes [start] [null], since it is the
    least key and is falsy: the series is then rendered as the minimal
    document although its total is the sum of its counts. *)
Theorem empty_key_hides_series (merged : dict) :
  Dict.wf merged -> "" ∈ Dict.keys merged ->
  payload_start (mergedMapToPayload merged) = None
  /\ payload_total (mergedMapToPayload merged) = sumValues merged
  /\ forall usersLabel,
       renderCalendarSVG (mergedMapToPayload merged) usersLabel = Some minimalSvg.
Proof.
  intros Hwf Hin.
  assert (payload_start (mergedMapToPayload merged) = None) as Hstart.
  { rewrite mergedMapToPayload_unfold by done. cbn [payload_start].
    assert (Hperm := Array_sort_perm (Dict.keys merged)).
    assert (Hsort := Array_sort_sorted (Dict.keys merged)).
    rewrite <- Hperm in Hin.
    destruct (Array_sort (Dict.keys merged)) as [|lo dates] eqn:Hdates.
    { by apply elem_of_nil in Hin. }
    rewrite <- Hdates in Hsort, Hin.
    assert (head (Array_sort (Dict.keys merged)) = Some lo) as Hhead
      by by rewrite Hdates.
    pose proof (sorted_head_least _ _ _ Hsort Hhead "" Hin) as Hle.
    assert (lo = "") as -> by (apply (anti_symm String.le); [done | apply String_le_empty]).
    cbn [head or_null]. by rewrite decide_True. }
  split_and!; [done | apply payload_total_sumValues |].
  intros usersLabel. unfold renderCalendarSVG, renderCalendar.
  by rewrite Hstart.
Qed.

Lemma empty_key_hides_series_witness :
  payload_total (mergedMapToPayload [("2024-01-02", 1); ("", 4)]) = 5
  /\ renderCalendarSVG (mergedMapToPayload [("2024-01-02", 1); ("", 4)]) "x"
     = Some minimalSvg.
Proof.
  destruct (empty_key_hides_series [("2024-01-02", 1); ("", 4)])
    as (_ & Htotal & Hsvg).
  - unfold Dict.wf, Dict.keys. by_eval.
  - unfold Dict.keys. by_eval.
  - split; [exact Htotal | apply Hsvg].
Defined.

(** ** Date keys and time values *)

Section KeyFacts.

Import JsDate.

Lemma leapOfYear_isLeapYear y : leapOfYear y = if isLeapYear y then 1 else 0.
Proof.
  unfold leapOfYear, DaysInYear, isLeapYear.
  destruct (Z.eqb_spec (y mod 4) 0), (Z.eqb_spec (y mod 100) 0),
    (Z.eqb_spec (y mod 400) 0);
    first [ by vm_compute
          | exfalso; Z.to_euclidean_division_equations; lia ].
Qed.

(** The table of [MonthFromTime] gives the months their lengths. *)
Lemma monthEnd_daysInMonth y m :
  1 <= m <= 12 ->
  monthEnd (leapOfYear y) (m - 1) - firstDayOfMonth (leapOfYear y) (m - 1)
  = daysInMonth y m.
Proof.
  intros Hm. rewrite leapOfYear_isLeapYear. unfold daysInMonth.
  assert (m = 1 \/ m = 2 \/ m = 3 \/ m = 4 \/ m = 5 \/ m = 6 \/ m = 7
          \/ m = 8 \/ m = 9 \/ m = 10 \/ m = 11 \/ m = 12) as H by lia.
  destruct (isLeapYear y);
    repeat (destruct H as [-> | H]); try subst m; vm_compute; reflexivity.
Qed.

Lemma digitChar_of_digit c n :
  isDigit c = true -> n mod 10 = digitVal c -> digitChar n = c.
Proof.
  intros Hc Hn. unfold digitChar. rewrite Hn.
  pose proof (isDigit_val c Hc) as Hv. unfold digitVal in *.
  replace (48 + Z.to_N (Z.of_N (Ascii.N_of_ascii c) - 48))%N
    with (Ascii.N_of_ascii c) by lia.
  apply Ascii.ascii_N_embedding.
Qed.

Lemma digitChar_inj a b : digitChar a = digitChar b -> a mod 10 = b mod 10.
Proof. intros H. by rewrite <- !digitVal_digitChar, H. Qed.

(** The time value of a date key of the years 0100 to 9999: what
    [parseDate] computes, and its year, month and date. *)
Lemma parseDate_calendar_key y1 y2 y3 y4 m1 m2 d1 d2 :
  let s := String y1 (String y2 (String y3 (String y4 (String "-"
             (String m1 (String m2 (String "-" (String d1 (String d2 ""))))))))) in
  let y := 1000 * digitVal y1 + 100 * digitVal y2 + 10 * digitVal y3 + digitVal y4 in
  let m := 10 * digitVal m1 + digitVal m2 in
  let d := 10 * digitVal d1 + digitVal d2 in
  isIsoDate s = true -> 100 <= y -> d <= daysInMonth y m ->
  exists t, parseDate s = Some t
    /\ TimeWithinDay t = 0
    /\ YearFromTime t = y /\ MonthFromTime t = m - 1 /\ DateFromTime t = d.
Proof.
  intros s y m d Hiso Hy Hd.
  apply isIsoDate_inv in Hiso
    as (? & ? & ? & ? & ? & ? & ? & ? & [= <- <- <- <- <- <- <- <-] & Hy1 & Hy2
        & Hy3 & Hy4 & Hm1 & Hm2 & Hd1 & Hd2 & Hm & Hdr).
  fold m in Hm. fold d in Hdr.
  assert (0 <= y <= 9999) as Hyr.
  { subst y. apply isDigit_val in Hy1, Hy2, Hy3, Hy4. lia. }
  destruct (MakeDay_civil y (m - 1) d) as (HY & HM & HD); [lia | |].
  { rewrite monthEnd_daysInMonth by lia. lia. }
  exists (MakeDate (MakeDay y (m - 1) d) 0).
  split_and!; [| apply TimeWithinDay_MakeDate | done | done | done].
  subst s. unfold parseDate.
  rewrite !split_digit, split_hyphen, !split_digit, split_hyphen, !split_digit
    by done.
  cbn [split fmap list_fmap].
  rewrite Number_digits4, !Number_digits2 by done.
  rewrite !bind_Some. fold y m d. unfold UTC. cbv zeta.
  destruct (Z.leb_spec y 99); [lia|]. rewrite andb_false_r.
  change (MakeTime 0 0 0 0) with 0. apply TimeClip_Some.
  pose proof (YearFromTime_days (MakeDate (MakeDay y (m - 1) d) 0)) as [Hlo Hhi].
  rewrite HY, Day_MakeDate in Hlo, Hhi.
  pose proof (DayFromYear_mono 100 y ltac:(lia)) as H100.
  pose proof (DayFromYear_mono (y + 1) 10000 ltac:(lia)) as H10000.
  rewrite DayFromYear_100 in H100. rewrite DayFromYear_10000 in H10000.
  rewrite MakeDate_0. lia.
Qed.

Lemma isCalendarDate_isIsoDate s : isCalendarDate s = true -> isIsoDate s = true.
Proof.
  destruct s as [|y1 [|y2 [|y3 [|y4 [|h1 [|m1 [|m2 [|h2 [|d1 [|d2 [|? ?]]]]]]]]]]];
    try done.
  unfold isCalendarDate. rewrite !andb_true_iff. tauto.
Qed.

(** A date key of the calendar is parsed to a midnight whose date string
    is the key. *)
Lemma isoOf_parseDate s :
  isCalendarDate s = true ->
  exists t, parseDate s = Some t /\ TimeWithinDay t = 0
    /\ 100 <= YearFromTime t <= 9999 /\ isoOf t = s.
Proof.
  intros Hcal. pose proof (isCalendarDate_isIsoDate s Hcal) as Hiso.
  destruct (isIsoDate_inv s Hiso)
    as (y1 & y2 & y3 & y4 & m1 & m2 & d1 & d2 & -> & Hy1 & Hy2 & Hy3 & Hy4
        & Hm1 & Hm2 & Hd1 & Hd2 & Hm & Hd).
  unfold isCalendarDate in Hcal. rewrite !andb_true_iff, !Z.leb_le in Hcal.
  destruct Hcal as [[_ Hy] Hdm].
  destruct (parseDate_calendar_key y1 y2 y3 y4 m1 m2 d1 d2 Hiso Hy Hdm)
    as (t & Hparse & Ht0 & HY & HM & HD).
  pose proof (isDigit_val _ Hy1). pose proof (isDigit_val _ Hy2).
  pose proof (isDigit_val _ Hy3). pose proof (isDigit_val _ Hy4).
  pose proof (isDigit_val _ Hm1). pose proof (isDigit_val _ Hm2).
  pose proof (isDigit_val _ Hd1). pose proof (isDigit_val _ Hd2).
  exists t. split_and!; [done | done | lia | lia |].
  rewrite isoOf_in_range by lia. rewrite HY, HM, HD, !digits4, !digits2.
  cbv [String.append].
  repeat f_equal; apply digitChar_of_digit; try done;
    Z.to_euclidean_division_equations; lia.
Qed.

Lemma daysInMonth_MonthFromTime t :
  DateFromTime t <= daysInMonth (YearFromTime t) (MonthFromTime t + 1).
Proof.
  pose proof (MonthFromTime_range t) as Hm.
  rewrite <- monthEnd_daysInMonth by lia.
  replace (MonthFromTime t + 1 - 1) with (MonthFromTime t) by lia.
  pose proof (MonthFromTime_bounds t) as [Hlo Hhi].
  unfold DateFromTime, InLeapYear in *. lia.
Qed.

(** The date string of a midnight of the years 100 to 9999 is a date key
    of the calendar. *)
Lemma isoOf_isCalendarDate t :
  100 <= YearFromTime t <= 9999 -> isCalendarDate (isoOf t) = true.
Proof.
  intros Hy. pose proof (isoOf_isIsoDate t ltac:(lia)) as Hiso. revert Hiso.
  rewrite isoOf_in_range, !digits4, !digits2 by lia.
  cbv [String.append]. intros Hiso. unfold isCalendarDate. rewrite Hiso.
  rewrite !digitVal_digitChar. cbn [andb]. rewrite !andb_true_iff, !Z.leb_le.
  pose proof (MonthFromTime_range t) as Hm.
  pose proof (DateFromTime_range t) as Hd.
  pose proof (daysInMonth_MonthFromTime t) as Hdm.
  replace (1000 * ((YearFromTime t / 10 / 10 / 10) mod 10)
           + 100 * ((YearFromTime t / 10 / 10) mod 10)
           + 10 * ((YearFromTime t / 10) mod 10) + YearFromTime t mod 10)
    with (YearFromTime t) by (Z.to_euclidean_division_equations; lia).
  replace (10 * (((MonthFromTime t + 1) / 10) mod 10)
           + (MonthFromTime t + 1) mod 10)
    with (MonthFromTime t + 1) by (Z.to_euclidean_division_equations; lia).
  replace (10 * ((DateFromTime t / 10) mod 10) + DateFromTime t mod 10)
    with (DateFromTime t) by (Z.to_euclidean_division_equations; lia).
  lia.
Qed.

End KeyFacts.

(** X8. A date key of a day of the calendar, in the years 0100 to 9999, is
    parsed by [parseDate] to a midnight whose date string,
    [toISOString().slice(0, 10)], is the key again. *)
Theorem date_key_round_trip (s : string) :
  isCalendarDate s = true ->
  exists t, parseDate s = Some t
    /\ JsDate.TimeWithinDay t = 0
    /\ isoOf t = s.
Proof.
  intros (t & Hp & Ht0 & _ & Hiso)%isoOf_parseDate. eauto.
Qed.

Lemma date_key_round_trip_witness :
  exists t, parseDate "2024-02-29" = Some t /\ isoOf t = "2024-02-29".
Proof.
  destruct (date_key_round_trip "2024-02-29") as (t & Hp & _ & Hiso);
    [reflexivity|].
  exists t. split; [exact Hp | exact Hiso].
Defined.

(** X9. The date string of a midnight in the years 100 to 9999 is a date
    key of the calendar, and [parseDate] gives the midnight back. *)
Theorem date_string_round_trip (t : Z) :
  JsDate.TimeWithinDay t = 0 ->
  100 <= JsDate.YearFromTime t <= 9999 ->
  isCalendarDate (isoOf t) = true /\ parseDate (isoOf t) = Some t.
Proof.
  intros Ht0 Hy. split; [by apply isoOf_isCalendarDate | by apply parseDate_isoOf].
Qed.

Lemma date_string_round_trip_witness :
  parseDate (isoOf 1709251200000) = Some 1709251200000.
Proof.
  apply (date_string_round_trip 1709251200000); [reflexivity|].
  vm_compute. split; discriminate.
Defined.

(** ** The order of date keys *)

Section OrderFacts.

Import JsDate.

Lemma isoOf_compare t t' :
  0 <= YearFromTime t <= 9999 -> 0 <= YearFromTime t' <= 9999 ->
  String.compare (isoOf t) (isoOf t') = (dateNumber t ?= dateNumber t').
Proof.
  intros Hy Hy'. rewrite !isoOf_in_range by done. unfold dateNumber.
  pose proof (MonthFromTime_range t) as Hm.
  pose proof (MonthFromTime_range t') as Hm'.
  pose proof (DateFromTime_range t) as Hd.
  pose proof (DateFromTime_range t') as Hd'.
  revert Hy Hy' Hm Hm' Hd Hd'.
  generalize (YearFromTime t) (YearFromTime t') (MonthFromTime t)
    (MonthFromTime t') (DateFromTime t) (DateFromTime t').
  intros y y' m m' d d' Hy Hy' Hm Hm' Hd Hd'.
  rewrite !digits4, !digits2.
  cbv [String.append String.compare]. rewrite !digitChar_compare.
  change (Ascii.compare "-" "-") with Eq. cbv iota.
  symmetry.
  repeat match goal with
         | |- context [match ?a ?= ?b with _ => _ end] =>
             destruct (Z.compare_spec a b)
         end;
    first [apply Z.compare_eq_iff | apply Z.compare_lt_iff | apply Z.compare_gt_iff];
    Z.to_euclidean_division_equations; lia.
Qed.

Lemma Day_le_dateNumber t t' :
  Day t <= Day t' -> dateNumber t <= dateNumber t'.
Proof.
  intros Hd. pose proof (monthNumber_mono t t' Hd) as Hmn.
  unfold monthNumber, dateNumber in *.
  pose proof (MonthFromTime_range t). pose proof (MonthFromTime_range t').
  pose proof (DateFromTime_range t). pose proof (DateFromTime_range t').
  destruct (decide (YearFromTime t = YearFromTime t')) as [Hy|Hy]; [|lia].
  destruct (decide (MonthFromTime t = MonthFromTime t')) as [Hm|Hm]; [|lia].
  pose proof (Day_civil t) as Hc. pose proof (Day_civil t') as Hc'.
  unfold InLeapYear in *. rewrite Hy, Hm in *. lia.
Qed.

Lemma dateNumber_inj t t' : dateNumber t = dateNumber t' -> Day t = Day t'.
Proof.
  unfold dateNumber. intros Heq.
  pose proof (MonthFromTime_range t). pose proof (MonthFromTime_range t').
  pose proof (DateFromTime_range t). pose proof (DateFromTime_range t').
  assert (YearFromTime t = YearFromTime t') as Hy by lia.
  assert (MonthFromTime t = MonthFromTime t') as Hm by lia.
  pose proof (Day_civil t) as Hc. pose proof (Day_civil t') as Hc'.
  unfold InLeapYear in *. rewrite Hy, Hm in *. lia.
Qed.

Lemma dateNumber_le_Day t t' :
  dateNumber t <= dateNumber t' -> Day t <= Day t'.
Proof.
  intros Hn. destruct (decide (Day t <= Day t')) as [|Hgt]; [done|].
  pose proof (Day_le_dateNumber t' t ltac:(lia)) as Hle.
  pose proof (dateNumber_inj t t' ltac:(lia)). lia.
Qed.

(** The code-unit order of date strings is the order of days. *)
Lemma isoOf_le t t' :
  0 <= YearFromTime t <= 9999 -> 0 <= YearFromTime t' <= 9999 ->
  (isoOf t ≤ isoOf t')%string <-> Day t <= Day t'.
Proof.
  intros Hy Hy'. unfold String.le, String.leb. rewrite isoOf_compare by done.
  split.
  - intros Hc. apply dateNumber_le_Day.
    destruct (Z.compare_spec (dateNumber t) (dateNumber t')); [lia | lia | done].
  - intros Hd%Day_le_dateNumber.
    destruct (Z.compare_spec (dateNumber t) (dateNumber t')); [done | done | lia].
Qed.

Lemma isoOf_inj t t' :
  0 <= YearFromTime t <= 9999 -> 0 <= YearFromTime t' <= 9999 ->
  isoOf t = isoOf t' -> Day t = Day t'.
Proof.
  intros Hy Hy' Heq.
  assert (Day t <= Day t') by (apply isoOf_le; [done..|]; by rewrite Heq).
  assert (Day t' <= Day t) by (apply isoOf_le; [done..|]; by rewrite Heq).
  lia.
Qed.

Lemma midnight_le t t' :
  TimeWithinDay t = 0 -> TimeWithinDay t' = 0 -> (t <= t' <-> Day t <= Day t').
Proof.
  intros Ht Ht'. pose proof (midnight_MakeDate t Ht) as H1.
  pose proof (midnight_MakeDate t' Ht') as H2. rewrite MakeDate_0 in H1, H2.
  lia.
Qed.

(** The time values of two date keys of the calendar are in the order of
    the keys. *)
Lemma parseDate_le k k' t t' :
  isCalendarDate k = true -> isCalendarDate k' = true ->
  parseDate k = Some t -> parseDate k' = Some t' ->
  (k ≤ k')%string <-> t <= t'.
Proof.
  intros (t0 & Hp & Ht0 & Hy & Hiso)%isoOf_parseDate
    (t0' & Hp' & Ht0' & Hy' & Hiso')%isoOf_parseDate Ht Ht'.
  rewrite Hp in Ht. rewrite Hp' in Ht'. injection Ht as <-. injection Ht' as <-.
  rewrite <- Hiso at 1. rewrite <- Hiso' at 1.
  rewrite isoOf_le by lia. symmetry. by apply midnight_le.
Qed.

End OrderFacts.

Section SeriesFacts.

Import JsDate.

Lemma CalendarSeries_keys merged k :
  CalendarSeries merged -> k ∈ Dict.keys merged -> isCalendarDate k = true.
Proof.
  intros [_ Hcal] Hk. unfold Dict.keys in Hk.
  apply list_elem_of_fmap in Hk as ([k' v] & -> & Hin).
  rewrite Forall_forall in Hcal. by apply (Hcal _ Hin).
Qed.

Lemma year_bounds_days t :
  100 <= YearFromTime t <= 9999 ->
  DayFromYear 100 <= Day t < DayFromYear 10000.
Proof.
  intros Hy. pose proof (YearFromTime_days t) as [Hlo Hhi].
  pose proof (DayFromYear_mono 100 (YearFromTime t) ltac:(lia)).
  pose proof (DayFromYear_mono (YearFromTime t + 1) 10000 ltac:(lia)). lia.
Qed.

(** The summary of a series of calendar keys: the two bounds, their time
    values, and the time value of every key between them. *)
Lemma CalendarSeries_bounds merged :
  CalendarSeries merged -> merged <> [] ->
  exists lo hi s e,
    payload_start (mergedMapToPayload merged) = Some lo
    /\ payload_end (mergedMapToPayload merged) = Some hi
    /\ parseDate lo = Some s /\ parseDate hi = Some e
    /\ 100 <= YearFromTime s <= 9999 /\ 100 <= YearFromTime e <= 9999
    /\ forall k, k ∈ Dict.keys merged ->
         exists t, parseDate k = Some t /\ TimeWithinDay t = 0
           /\ isoOf t = k /\ s <= t <= e.
Proof.
  intros Hcs Hne. pose proof Hcs as [Hwf _].
  destruct (payload_start_end merged Hwf Hne)
    as (lo & hi & Hlo & Hhi & Hlk & Hhk & Hbounds).
  { intros k Hk. apply isIsoDate_nonempty, isCalendarDate_isIsoDate.
    by apply (CalendarSeries_keys merged). }
  pose proof (CalendarSeries_keys _ _ Hcs Hlk) as Hlocal.
  pose proof (CalendarSeries_keys _ _ Hcs Hhk) as Hhical.
  destruct (isoOf_parseDate lo Hlocal) as (s & Hs & _ & Hsy & _).
  destruct (isoOf_parseDate hi Hhical) as (e & He & _ & Hey & _).
  exists lo, hi, s, e. split_and!; try done; try lia.
  intros k Hk. pose proof (CalendarSeries_keys _ _ Hcs Hk) as Hkcal.
  destruct (isoOf_parseDate k Hkcal) as (t & Ht & Ht0 & _ & Hiso).
  exists t. split_and!; try done.
  - apply (parseDate_le lo k); [done..|]. by apply Hbounds.
  - apply (parseDate_le k hi); [done..|]. by apply Hbounds.
Qed.

End SeriesFacts.

(** X10. For a series whose keys are date keys of the calendar, the order
    of strings is the order of time, so that [start] and [end] are the
    earliest and the latest day of the series: every key is parsed to a
    time value between those of [start] and [end]. *)
Theorem summary_bounds_chronological (merged : dict) :
  CalendarSeries merged -> merged <> [] ->
  exists lo hi s e,
    payload_start (mergedMapToPayload merged) = Some lo
    /\ payload_end (mergedMapToPayload merged) = Some hi
    /\ parseDate lo = Some s /\ parseDate hi = Some e
    /\ s <= e
    /\ forall k, k ∈ Dict.keys merged ->
         exists t, parseDate k = Some t /\ s <= t <= e.
Proof.
  intros Hcs Hne.
  destruct (CalendarSeries_bounds merged Hcs Hne)
    as (lo & hi & s & e & Hlo & Hhi & Hs & He & _ & _ & Hkeys).
  exists lo, hi, s, e. split_and!; try done.
  - destruct merged as [|[k v] merged]; [done|].
    destruct (Hkeys k) as (t & _ & _ & _ & Ht); [apply list_elem_of_here | lia].
  - intros k Hk. destruct (Hkeys k Hk) as (t & Ht & _ & _ & Hr). eauto.
Qed.

Lemma summary_bounds_chronological_witness :
  exists s e,
    parseDate "2023-12-31" = Some s /\ parseDate "2024-01-02" = Some e /\ s <= e.
Proof.
  destruct (summary_bounds_chronological
              [("2024-01-02", 1); ("2023-12-31", 5); ("2024-01-01", 2)])
    as (lo & hi & s & e & Hlo & Hhi & Hs & He & Hse & _).
  - split; [unfold Dict.wf, Dict.keys; by_eval | repeat constructor].
  - discriminate.
  - vm_compute in Hlo. injection Hlo as <-.
    vm_compute in Hhi. injection Hhi as <-.
    exists s, e. split; [exact Hs|]. split; [exact He | exact Hse].
Defined.

(** X11. The calendar shows every day of the series: for a series whose
    keys are date keys of the calendar, the rendering of its summary has,
    for each entry, exactly one cell with that date, and that cell holds
    the count of the entry and the color of that count; every cell holds
    the count of its date in the series. *)
Theorem cells_show_counts (merged : dict) :
  CalendarSeries merged -> merged <> [] ->
  exists c,
    renderCalendar (mergedMapToPayload merged) = Some (Full c)
    /\ (forall cell, cell ∈ cal_rects c ->
          cell_count cell = countAt (cell_iso cell) merged)
    /\ forall k v, (k, v) ∈ merged ->
         exists cell,
           cell ∈ cal_rects c
           /\ cell_iso cell = k
           /\ cell_count cell = v
           /\ cell_fill cell
              = colorForCount (breaks (Math_max (Dict.values merged) 1)) v
           /\ forall cell', cell' ∈ cal_rects c -> cell_iso cell' = k ->
                cell' = cell.
Proof.
  intros Hcs Hne. pose proof Hcs as [Hwf _].
  destruct (CalendarSeries_bounds merged Hcs Hne)
    as (lo & hi & s & e & Hlo & Hhi & Hs & He & Hsy & Hey & Hkeys).
  destruct (renderCalendar_parsed _ lo hi s e Hlo Hhi Hs He)
    as (mp & c & _ & Hrender & _ & _ & Hrects).
  rewrite mergedMapToPayload_unfold in Hrects by done.
  cbn [payload_counts] in Hrects.
  exists c. split; [done|]. rewrite Hrects. split.
  { intros cell (i & _ & ->)%elem_of_cells.
    unfold cellOfDay, cellAt. cbn [cell_count cell_iso]. apply or_zero_default. }
  intros k v Hkv.
  assert (k ∈ Dict.keys merged) as Hk
    by (apply list_elem_of_fmap; by exists (k, v)).
  destruct (Hkeys k Hk) as (t & Ht & Ht0 & Hiso & Hst).
  pose proof (parseDate_dateValue _ _ Hs) as Hsv.
  pose proof (parseDate_dateValue _ _ He) as Hev.
  pose proof (dateValue_days s Hsv) as Hsd.
  pose proof (dateValue_days e Hev) as Hed.
  pose proof (midnight_MakeDate t Ht0) as Htd. rewrite MakeDate_0 in Htd.
  pose proof (WeekDay_range s) as Hw.
  set (cs := JsDate.MakeDate (JsDate.Day s - JsDate.WeekDay s) 0) in *.
  set (td := JsDate.Day e - (JsDate.Day s - JsDate.WeekDay s) + 1) in *.
  set (i := JsDate.Day t - (JsDate.Day s - JsDate.WeekDay s)).
  assert (0 <= i < td) as Hi by (subst i td; lia).
  assert (cs + i * JsDate.msPerDay = t) as Hci.
  { subst cs i. rewrite MakeDate_0. unfold JsDate.msPerDay. lia. }
  exists (cellOfDay cs merged (breaks (Math_max (Dict.values merged) 1)) i).
  assert (or_zero (Dict.get k merged) = v) as Hcount.
  { rewrite (elem_get _ _ _ Hwf Hkv). unfold or_zero. case_decide; congruence. }
  split_and!.
  - apply list_elem_of_fmap. exists i. split; [done|]. apply elem_of_seqZ. lia.
  - unfold cellOfDay, cellAt. cbn [cell_iso]. by rewrite Hci.
  - unfold cellOfDay, cellAt. cbn [cell_count]. by rewrite Hci, Hiso.
  - unfold cellOfDay, cellAt. cbn [cell_fill]. by rewrite Hci, Hiso, Hcount.
  - intros cell' (i' & Hi' & ->)%elem_of_cells Hiso'. f_equal.
    unfold cellOfDay, cellAt in Hiso'. cbn [cell_iso] in Hiso'.
    rewrite <- Hiso in Hiso'.
    pose proof (year_bounds_days s Hsy) as [Hslo _].
    pose proof (year_bounds_days e Hey) as [_ Hehi].
    apply isoOf_inj in Hiso'.
    + rewrite Day_add_days in Hiso'. subst cs.
      rewrite Day_MakeDate in Hiso'. subst i. lia.
    + by apply (grid_day_year s e).
    + rewrite <- Hci. by apply (grid_day_year s e).
Qed.

Lemma cells_show_counts_witness :
  exists c,
    renderCalendar (mergedMapToPayload [("2024-03-12", 1); ("2024-03-01", 12)])
    = Some (Full c)
    /\ exists cell, cell ∈ cal_rects c /\ cell_iso cell = "2024-03-12"
         /\ cell_count cell = 1.
Proof.
  destruct (cells_show_counts [("2024-03-12", 1); ("2024-03-01", 12)])
    as (c & Hrender & _ & Hcells).
  - split; [unfold Dict.wf, Dict.keys; by_eval | repeat constructor].
  - discriminate.
  - exists c. split; [exact Hrender|].
    destruct (Hcells "2024-03-12" 1) as (cell & Hin & Hiso & Hcount & _).
    + apply list_elem_of_here.
    + exists cell. split; [exact Hin|]. split; [exact Hiso | exact Hcount].
Defined.

(** ** Years below 100 *)

Section YearFacts.

Import JsDate.

(** A month from 1 to 12 and a day from 1 to 31 stay within the year. *)
Lemma MakeDay_within_year yr m d :
  1 <= m <= 12 -> 1 <= d <= 31 ->
  DayFromYear yr <= MakeDay yr (m - 1) d < DayFromYear (yr + 1).
Proof.
  intros Hm Hd. unfold MakeDay. cbv zeta.
  rewrite Z.div_small, Z.mod_small, Z.add_0_r by lia.
  rewrite leapOfYear_succ.
  assert (m = 1 \/ m = 2 \/ m = 3 \/ m = 4 \/ m = 5 \/ m = 6 \/ m = 7
          \/ m = 8 \/ m = 9 \/ m = 10 \/ m = 11 \/ m = 12) as Hcases by lia.
  destruct (leapOfYear_cases yr) as [-> | ->];
    repeat (destruct Hcases as [-> | Hcases]); try subst m;
    repeat match goal with
           | |- context [firstDayOfMonth ?l (?a - 1)] =>
               let v := eval vm_compute in (a - 1) in
               progress change (a - 1) with v
           end;
    cbn [firstDayOfMonth]; lia.
Qed.

Lemma UTC_two_digit_year y m d :
  0 <= y <= 99 -> 1 <= m <= 12 -> 1 <= d <= 31 ->
  exists t, UTC y (m - 1) d = Some t /\ UTC (1900 + y) (m - 1) d = Some t
    /\ YearFromTime t = 1900 + y.
Proof.
  intros Hy Hm Hd. unfold UTC. cbv zeta.
  destruct (Z.leb_spec 0 y); [|lia]. destruct (Z.leb_spec y 99); [|lia].
  destruct (Z.leb_spec (1900 + y) 99); [lia|]. rewrite andb_false_r.
  cbn [andb]. change (MakeTime 0 0 0 0) with 0.
  pose proof (MakeDay_within_year (1900 + y) m d Hm Hd) as [Hlo Hhi].
  pose proof (DayFromYear_mono 1900 (1900 + y) ltac:(lia)) as H1900.
  pose proof (DayFromYear_mono (1900 + y + 1) 2000 ltac:(lia)) as H2000.
  change (DayFromYear 1900) with (-25567) in H1900.
  change (DayFromYear 2000) with 10957 in H2000.
  exists (MakeDate (MakeDay (1900 + y) (m - 1) d) 0).
  rewrite TimeClip_Some by (rewrite MakeDate_0; lia).
  split_and!; [done | done |].
  apply YearFromTime_unique. by rewrite Day_MakeDate.
Qed.

End YearFacts.

(** X12. A date key whose year is below 100 is read as a date of the
    years 1900 to 1999: [parseDate] gives it the time value of the key
    with 19 for its first two digits, and the date string of that time
    value is not the key. *)
Theorem parseDate_two_digit_year (y3 y4 : ascii) (rest : string) :
  isIsoDate (String "0" (String "0" (String y3 (String y4 rest)))) = true ->
  exists t,
    parseDate (String "0" (String "0" (String y3 (String y4 rest)))) = Some t
    /\ parseDate (String "1" (String "9" (String y3 (String y4 rest)))) = Some t
    /\ JsDate.YearFromTime t = 1900 + 10 * digitVal y3 + digitVal y4
    /\ isoOf t <> String "0" (String "0" (String y3 (String y4 rest))).
Proof.
  intros (? & ? & ? & ? & m1 & m2 & d1 & d2 & [= <- <- <- <- ->] & _ & _ & Hy3
          & Hy4 & Hm1 & Hm2 & Hd1 & Hd2 & Hm & Hd)%isIsoDate_inv.
  pose proof (isDigit_val _ Hy3) as Hv3. pose proof (isDigit_val _ Hy4) as Hv4.
  destruct (UTC_two_digit_year (10 * digitVal y3 + digitVal y4)
              (10 * digitVal m1 + digitVal m2) (10 * digitVal d1 + digitVal d2))
    as (t & Ht & Ht' & Hyear); [lia..|].
  exists t. split_and!.
  - unfold parseDate.
    rewrite !split_digit, split_hyphen, !split_digit, split_hyphen, !split_digit
      by done.
    cbn [split fmap list_fmap].
    rewrite Number_digits4, !Number_digits2 by done. rewrite !bind_Some.
    rewrite <- Ht. change (digitVal "0") with 0. f_equal; lia.
  - unfold parseDate.
    rewrite !split_digit, split_hyphen, !split_digit, split_hyphen, !split_digit
      by done.
    cbn [split fmap list_fmap].
    rewrite Number_digits4, !Number_digits2 by done. rewrite !bind_Some.
    rewrite <- Ht'. change (digitVal "1") with 1.
    change (digitVal "9") with 9. f_equal; lia.
  - lia.
  - rewrite isoOf_in_range, !digits4 by lia. cbv [String.append].
    intros [= Hc _]. apply (f_equal digitVal) in Hc.
    rewrite digitVal_digitChar in Hc. change (digitVal "0") with 0 in Hc.
    revert Hc. rewrite Hyear. Z.to_euclidean_division_equations. lia.
Qed.

Lemma parseDate_two_digit_year_witness :
  exists t, parseDate "0050-01-01" = Some t /\ parseDate "1950-01-01" = Some t.
Proof.
  destruct (parseDate_two_digit_year "5" "0" "-01-01") as (t & H1 & H2 & _);
    [reflexivity|].
  exists t. split; [exact H1 | exact H2].
Defined.

(** ** The geometry of the calendar *)

Section GeometryFacts.

Import JsDate.

Lemma bind_None {A B} (f : A -> option B) : None ≫= f = None.
Proof. done. Qed.

(** A rendering with cells comes from two dates that are parsed. *)
Lemma renderCalendar_inv p c :
  renderCalendar p = Some (Full c) ->
  exists start end_ s e,
    payload_start p = Some start /\ payload_end p = Some end_
    /\ parseDate start = Some s /\ parseDate end_ = Some e.
Proof.
  unfold renderCalendar.
  destruct (payload_start p) as [start|]; [|done].
  destruct (payload_end p) as [end_|];
    [|by destruct (or_null (Some start))].
  unfold or_null. destruct (decide (start = "")); [done|].
  destruct (decide (end_ = "")); [done|].
  destruct (parseDate start) as [s|] eqn:Hs.
  - destruct (parseDate end_) as [e|] eqn:He; [eauto 10|].
    unfold grid. rewrite Hs, He, bind_Some.
    pose proof (parseDate_dateValue _ _ Hs) as Hsv. cbv beta zeta.
    rewrite calendarStart_setUTCDate, bind_Some by done.
    rewrite calendarStart_setUTCHours, bind_Some by done.
    by rewrite !bind_None.
  - unfold grid. rewrite Hs. by rewrite !bind_None.
Qed.

(** The whole rendering of a payload whose two dates are parsed. *)
Lemma renderCalendar_parsed_full p start end_ s e c :
  payload_start p = Some start -> payload_end p = Some end_ ->
  parseDate start = Some s -> parseDate end_ = Some e ->
  renderCalendar p = Some (Full c) ->
  let calendarStart := MakeDate (Day s - WeekDay s) 0 in
  let totalDays := Day e - (Day s - WeekDay s) + 1 in
  cal_width c = paddingLeft + padding
                + Math_ceil_div totalDays 7 * (rectSize + gap)
  /\ cal_height c = paddingTop + padding + 7 * (rectSize + gap)
  /\ cal_rects c
     = cellOfDay calendarStart (payload_counts p)
         (breaks (Math_max (Dict.values (payload_counts p)) 1))
         <$> seqZ 0 totalDays.
Proof.
  intros Hstart Hend Hs He Hrender calendarStart totalDays.
  pose proof (parseDate_dateValue _ _ Hs) as Hsv.
  pose proof (parseDate_dateValue _ _ He) as Hev.
  assert (forall j, 0 <= j < totalDays ->
            -8640000000000000 <= calendarStart + j * msPerDay
              <= 8640000000000000) as Hr
    by (intros j Hj; by apply (grid_days_in_range s e)).
  destruct (monthPositionsOf_first _ _ Hr) as (mp & Hmp & _).
  revert Hrender. unfold renderCalendar. rewrite Hstart, Hend.
  rewrite !or_null_Some by eauto using parseDate_nonempty.
  rewrite (grid_parsed _ _ _ _ Hs He), bind_Some.
  cbv beta zeta. cbn [grid_calendarStart grid_totalDays grid_weeks].
  fold calendarStart totalDays.
  rewrite Hmp, bind_Some, (rectsOf_cells _ _ _ _ Hr), bind_Some.
  intros [= <-]. split_and!; reflexivity.
Qed.

Lemma Math_ceil_div_7_bound i n :
  0 <= i < n -> 0 <= i / 7 < Math_ceil_div n 7.
Proof.
  intros Hi. pose proof (Math_ceil_div_7 n) as Hc.
  split; [apply Z.div_pos; lia | apply Z.div_lt_upper_bound; lia].
Qed.

End GeometryFacts.

(** X13. The squares of a rendering lie inside its canvas and do not
    overlap: every cell is in one of the 7 rows and in a column below
    [weeks], its square with its gap is within the width and the height of
    the document, and two cells at different places of the list are at
    least a square and a gap apart, across or down. *)
Theorem cells_inside_canvas (p : Payload) (c : Calendar) :
  renderCalendar p = Some (Full c) ->
  (forall cell, cell ∈ cal_rects c ->
     0 <= cell_dayOfWeek cell <= 6
     /\ cell_x cell = paddingLeft + padding + cell_weekIndex cell * (rectSize + gap)
     /\ cell_y cell = paddingTop + padding + cell_dayOfWeek cell * (rectSize + gap)
     /\ paddingLeft + padding <= cell_x cell
     /\ cell_x cell + rectSize + gap <= cal_width c
     /\ paddingTop + padding <= cell_y cell
     /\ cell_y cell + rectSize + gap <= cal_height c)
  /\ (forall i j cell cell',
        cal_rects c !! i = Some cell -> cal_rects c !! j = Some cell' -> i <> j ->
        rectSize + gap <= Z.abs (cell_x cell - cell_x cell')
        \/ rectSize + gap <= Z.abs (cell_y cell - cell_y cell')).
Proof.
  intros Hrender.
  destruct (renderCalendar_inv p c Hrender)
    as (start & end_ & s & e & Hstart & Hend & Hs & He).
  destruct (renderCalendar_parsed_full p start end_ s e c Hstart Hend Hs He Hrender)
    as (Hwidth & Hheight & Hrects).
  rewrite Hwidth, Hheight, Hrects.
  pose proof (WeekDay_calendarStart s) as Hsun.
  revert Hsun. generalize (JsDate.MakeDate (JsDate.Day s - JsDate.WeekDay s) 0).
  generalize (JsDate.Day e - (JsDate.Day s - JsDate.WeekDay s) + 1).
  intros td cs Hsun.
  change rectSize with 12. change gap with 4. change paddingLeft with 36.
  change padding with 8. change paddingTop with 22.
  split.
  - intros cell (i & Hi & ->)%elem_of_cells.
    unfold cellOfDay, cellAt.
    cbn [cell_dayOfWeek cell_weekIndex cell_x cell_y].
    change rectSize with 12. change gap with 4. change paddingLeft with 36.
    change padding with 8. change paddingTop with 22.
    pose proof (WeekDay_range (cs + i * JsDate.msPerDay)) as Hw.
    pose proof (Math_ceil_div_7_bound i td Hi) as Hcol.
    unfold JsDate.getUTCDay. lia.
  - intros i j cell cell' Hi Hj Hne.
    apply list_lookup_fmap_Some in Hi as (zi & -> & Hzi).
    apply list_lookup_fmap_Some in Hj as (zj & -> & Hzj).
    apply lookup_seqZ in Hzi as [-> Hi]. apply lookup_seqZ in Hzj as [-> Hj].
    unfold cellOfDay, cellAt. cbn [cell_x cell_y].
    change rectSize with 12. change gap with 4. change paddingLeft with 36.
    change padding with 8. change paddingTop with 22.
    unfold JsDate.getUTCDay. rewrite !WeekDay_offset by done.
    rewrite !Z.add_0_l.
    assert (Z.of_nat i <> Z.of_nat j) as Hne' by lia.
    revert Hne'. generalize (Z.of_nat i) (Z.of_nat j). intros a b Hab.
    Z.to_euclidean_division_equations. lia.
Qed.

Lemma cells_inside_canvas_witness :
  exists c,
    renderCalendar
      {| payload_start := Some "2024-03-01"; payload_end := Some "2024-03-12";
         payload_total := 13;
         payload_counts := [("2024-03-01", 12); ("2024-03-12", 1)] |}
    = Some (Full c)
    /\ forall cell, cell ∈ cal_rects c -> cell_x cell + rectSize + gap <= cal_width c.
Proof.
  eexists. split; [vm_compute; reflexivity|].
  intros cell Hcell.
  eapply (cells_inside_canvas
            {| payload_start := Some "2024-03-01";
               payload_end := Some "2024-03-12";
               payload_total := 13;
               payload_counts := [("2024-03-01", 12); ("2024-03-12", 1)] |});
    [vm_compute; reflexivity | exact Hcell].
Defined.

(** X14. The corners of the grid: when the parsed start is not after the
    parsed end, the first square of the rendering is the Sunday on or before
    the start, in the top left place of the grid, and the last square is the
    end date itself, in the last column, so that its right edge with its gap
    is the width of the document. *)
Theorem grid_corners (p : Payload) (start end_ : string) (s e : Z) :
  payload_start p = Some start -> payload_end p = Some end_ ->
  parseDate start = Some s -> parseDate end_ = Some e -> s <= e ->
  exists c first final,
    renderCalendar p = Some (Full c)
    /\ head (cal_rects c) = Some first /\ last (cal_rects c) = Some final
    /\ cell_date first = JsDate.MakeDate (JsDate.Day s - JsDate.WeekDay s) 0
    /\ cell_x first = paddingLeft + padding
    /\ cell_y first = paddingTop + padding
    /\ cell_date final = e
    /\ cell_dayOfWeek final = JsDate.getUTCDay e
    /\ cell_x final + rectSize + gap = cal_width c.
Proof.
  intros Hstart Hend Hs He Hse.
  destruct (renderCalendar_parsed p start end_ s e Hstart Hend Hs He)
    as (mp & c & _ & Hrender & _).
  destruct (renderCalendar_parsed_full p start end_ s e c Hstart Hend Hs He Hrender)
    as (Hwidth & Hheight & Hrects).
  pose proof (parseDate_dateValue _ _ Hs) as Hsv.
  pose proof (parseDate_dateValue _ _ He) as Hev.
  pose proof (dateValue_days _ Hev) as Hem.
  pose proof (WeekDay_calendarStart s) as Hsun.
  pose proof (WeekDay_range s) as Hws.
  pose proof (Day_mono s e Hse) as Hdays.
  set (cs := JsDate.MakeDate (JsDate.Day s - JsDate.WeekDay s) 0) in *.
  set (td := JsDate.Day e - (JsDate.Day s - JsDate.WeekDay s) + 1) in *.
  assert (1 <= td) as Htd by (subst td; lia).
  assert (cs + (td - 1) * JsDate.msPerDay = e) as Hlast.
  { subst cs td. unfold JsDate.MakeDate, JsDate.msPerDay. lia. }
  eexists c, _, _. split; [exact Hrender|].
  rewrite Hwidth, Hrects.
  split_and!.
  - rewrite <- (Z.succ_pred td), seqZ_cons by lia. reflexivity.
  - rewrite last_lookup, length_fmap, length_seqZ, list_lookup_fmap.
    rewrite (proj2 (lookup_seqZ 0 td (Init.Nat.pred (Z.to_nat td)) (0 + (td - 1))))
      by lia.
    reflexivity.
  - unfold cellOfDay, cellAt. cbn [cell_date]. lia.
  - unfold cellOfDay, cellAt. cbn [cell_x]. rewrite Z.div_0_l by lia. lia.
  - unfold cellOfDay, cellAt. cbn [cell_y]. unfold JsDate.getUTCDay.
    rewrite Z.mul_0_l, Z.add_0_r, Hsun. lia.
  - unfold cellOfDay, cellAt. cbn [cell_date]. rewrite Z.add_0_l. exact Hlast.
  - unfold cellOfDay, cellAt. cbn [cell_dayOfWeek]. rewrite Z.add_0_l.
    by rewrite Hlast.
  - unfold cellOfDay, cellAt. cbn [cell_x]. rewrite Z.add_0_l.
    pose proof (Math_ceil_div_7 td) as Hc.
    change rectSize with 12. change gap with 4.
    assert ((td - 1) / 7 + 1 = Math_ceil_div td 7) as <-; [|lia].
    revert Hc. generalize (Math_ceil_div td 7). intros w Hc.
    Z.to_euclidean_division_equations. lia.
Qed.

Lemma grid_corners_witness :
  exists c first final,
    renderCalendar
      {| payload_start := Some "2024-03-01"; payload_end := Some "2024-03-12";
         payload_total := 13;
         payload_counts := [("2024-03-01", 12); ("2024-03-12", 1)] |}
    = Some (Full c)
    /\ head (cal_rects c) = Some first /\ last (cal_rects c) = Some final
    /\ cell_date first = JsDate.MakeDate (JsDate.Day 1709251200000 - JsDate.WeekDay 1709251200000) 0
    /\ cell_x first = paddingLeft + padding
    /\ cell_y first = paddingTop + padding
    /\ cell_date final = 1710201600000
    /\ cell_dayOfWeek final = JsDate.getUTCDay 1710201600000
    /\ cell_x final + rectSize + gap = cal_width c.
Proof.
  apply (grid_corners
           {| payload_start := Some "2024-03-01";
              payload_end := Some "2024-03-12";
              payload_total := 13;
              payload_counts := [("2024-03-01", 12); ("2024-03-12", 1)] |}
           "2024-03-01" "2024-03-12" 1709251200000 1710201600000);
    [reflexivity | reflexivity | vm_compute; reflexivity
    | vm_compute; reflexivity | lia].
Defined.

(** ** The colours of the squares *)

Section ColourFacts.

Lemma Math_max_ge_init xs x : x <= Math_max xs x.
Proof. induction xs as [|y xs IH]; simpl; lia. Qed.

Lemma Math_max_ge_elem xs x v : v ∈ xs -> v <= Math_max xs x.
Proof.
  induction 1 as [y xs|y z xs _ IH]; simpl; [|lia].
  pose proof (Math_max_ge_init xs x). lia.
Qed.

Lemma or_zero_get_le k m x : 0 <= x -> or_zero (Dict.get k m) <= Math_max (Dict.values m) x.
Proof.
  intros Hx. pose proof (Math_max_ge_init (Dict.values m) x) as Hinit.
  destruct (Dict.get k m) as [v|] eqn:Hget; simpl; [|lia].
  apply get_Some_elem in Hget.
  assert (v ∈ Dict.values m) as Hv
    by (apply list_elem_of_fmap; by exists (k, v)).
  apply (Math_max_ge_elem _ x) in Hv. destruct (decide (v = 0)); lia.
Qed.

Lemma colorForCount_cases maxCount count :
  colorForCount (breaks maxCount) count ∈ palette
  /\ (colorForCount (breaks maxCount) count = "#ebedf0" <-> count <= 0)
  /\ (colorForCount (breaks maxCount) count = "#216e39"
      <-> Z.max 1 (3 * maxCount / 4) < count).
Proof.
  unfold colorForCount. rewrite binForCount_breaks.
  pose proof (breaks_sorted maxCount) as (H1 & H2 & H3).
  revert H1 H2 H3.
  generalize (Z.max 1 (maxCount / 4)) (Z.max 1 (maxCount / 2))
    (Z.max 1 (3 * maxCount / 4)).
  intros b1 b2 b3 H1 H2 H3. unfold palette.
  case_leb; cbn [nth]; (split_and!; [by_eval | split | split]);
    intros; try done; try lia.
Qed.

End ColourFacts.

(** X15. The colour of a square follows its count and the largest count of
    the payload, [maxCount] (at least 1): the fill is one of the five of
    the palette; no count is above [maxCount]; the lightest colour is
    given exactly to the counts that are not positive, so to every day
    without an entry; the darkest exactly to the counts above
    max(1, floor(3 maxCount / 4)), so to a day that reaches a [maxCount]
    of 2 or more. *)
Theorem cell_fill_scale (p : Payload) (c : Calendar) :
  renderCalendar p = Some (Full c) ->
  let maxCount := Math_max (Dict.values (payload_counts p)) 1 in
  1 <= maxCount
  /\ forall cell, cell ∈ cal_rects c ->
       cell_fill cell ∈ palette
       /\ cell_count cell <= maxCount
       /\ (cell_fill cell = "#ebedf0" <-> cell_count cell <= 0)
       /\ (Dict.get (cell_iso cell) (payload_counts p) = None ->
           cell_fill cell = "#ebedf0")
       /\ (cell_fill cell = "#216e39"
           <-> Z.max 1 (3 * maxCount / 4) < cell_count cell)
       /\ (2 <= maxCount -> cell_count cell = maxCount ->
           cell_fill cell = "#216e39").
Proof.
  intros Hrender maxCount.
  destruct (renderCalendar_inv p c Hrender)
    as (start & end_ & s & e & Hstart & Hend & Hs & He).
  destruct (renderCalendar_parsed_full p start end_ s e c Hstart Hend Hs He Hrender)
    as (_ & _ & Hrects).
  split; [apply Math_max_ge_init|].
  rewrite Hrects. intros cell (i & Hi & ->)%elem_of_cells.
  unfold cellOfDay, cellAt. cbn [cell_fill cell_count cell_iso].
  fold maxCount.
  set (iso := isoOf _).
  destruct (colorForCount_cases maxCount (or_zero (Dict.get iso (payload_counts p))))
    as (Hin & Hzero & Hdark).
  split_and!; try done.
  - by apply or_zero_get_le.
  - intros Hnone. apply Hzero. by rewrite Hnone.
  - intros Hmax Hcount. apply Hdark. rewrite Hcount.
    clear -Hmax. revert Hmax. generalize maxCount. intros m Hmax.
    Z.to_euclidean_division_equations. lia.
Qed.

Lemma cell_fill_scale_witness :
  exists c,
    renderCalendar
      {| payload_start := Some "2024-03-01"; payload_end := Some "2024-03-12";
         payload_total := 13;
         payload_counts := [("2024-03-01", 12); ("2024-03-12", 1)] |}
    = Some (Full c)
    /\ forall cell, cell ∈ cal_rects c -> cell_fill cell ∈ palette.
Proof.
  eexists. split; [vm_compute; reflexivity|].
  intros cell Hcell.
  eapply (cell_fill_scale
            {| payload_start := Some "2024-03-01";
               payload_end := Some "2024-03-12";
               payload_total := 13;
               payload_counts := [("2024-03-01", 12); ("2024-03-12", 1)] |});
    [vm_compute; reflexivity | exact Hcell].
Defined.

(** ** The map that [fetchUserCalendar] builds *)

Section CalendarMapFacts.

Lemma calendarMap_days weeks :
  calendarMap weeks
  = foldl (fun map '(date, contributionCount) =>
             Dict.set date contributionCount map) [] (mjoin weeks).
Proof.
  unfold calendarMap. generalize ([] : dict).
  induction weeks as [|w weeks IH]; intros map; [done|].
  cbn [foldl mjoin list_join]. by rewrite foldl_app, IH.
Qed.

Lemma lastCount_snoc date days k v :
  lastCount date (days ++ [(k, v)])
  = if decide (k = date) then Some v else lastCount date days.
Proof.
  unfold lastCount. rewrite filter_app, filter_cons, filter_nil. cbn [fst].
  destruct (decide (k = date)).
  - by rewrite last_snoc.
  - by rewrite app_nil_r.
Qed.

Lemma calendarMap_get date days :
  Dict.get date
    (foldl (fun map '(date, contributionCount) =>
              Dict.set date contributionCount map) [] days)
  = lastCount date days.
Proof.
  induction days as [|[k v] days IH] using rev_ind; [done|].
  rewrite foldl_app, lastCount_snoc. cbn [foldl].
  destruct (decide (k = date)) as [->|Hne].
  - apply get_set_eq.
  - by rewrite get_set_ne.
Qed.

Lemma calendarMap_keys (map : dict) days :
  Dict.keys
    (foldl (fun map '(date, contributionCount) =>
              Dict.set date contributionCount map) map days)
  = foldl (fun seen k => if decide (k ∈ seen) then seen else seen ++ [k])
          (Dict.keys map) days.*1.
Proof.
  revert map. induction days as [|[k v] days IH]; intros map; [done|].
  cbn [foldl fmap list_fmap fst]. by rewrite IH, keys_set.
Qed.

End CalendarMapFacts.

(** X16. The map of one user: whatever days the answer lists, and in
    whatever weeks, the map that [fetchUserCalendar] builds has each date
    once, in the order in which the dates first appear, and the count of a
    date is the one of its last day in the answer; a date that the answer
    does not list is not in the map. *)
Theorem calendarMap_last_write (weeks : list (list (string * Z))) :
  Dict.wf (calendarMap weeks)
  /\ Dict.keys (calendarMap weeks) = firstSeen (mjoin weeks).*1
  /\ (forall date,
        Dict.get date (calendarMap weeks) = lastCount date (mjoin weeks))
  /\ (forall date,
        date ∉ (mjoin weeks).*1 -> Dict.get date (calendarMap weeks) = None).
Proof.
  assert (Dict.keys (calendarMap weeks) = firstSeen (mjoin weeks).*1) as Hkeys
    by (rewrite calendarMap_days; apply calendarMap_keys).
  split_and!.
  - unfold Dict.wf. rewrite Hkeys. apply firstSeen_from_NoDup, NoDup_nil_2.
  - exact Hkeys.
  - intros date. rewrite calendarMap_days. apply calendarMap_get.
  - intros date Hdate. apply get_None. rewrite Hkeys.
    unfold firstSeen. rewrite firstSeen_from_elem.
    intros [[]%elem_of_nil|?]. done.
Qed.

(** X17. When the answer lists every date once, the map of the user is the
    list of its days, week after week, unchanged. *)
Theorem calendarMap_distinct (weeks : list (list (string * Z))) :
  NoDup (mjoin weeks).*1 -> calendarMap weeks = mjoin weeks.
Proof.
  intros Hnd. rewrite calendarMap_days.
  by rewrite (foldl_set_fresh [] (mjoin weeks)).
Qed.

Lemma calendarMap_distinct_witness :
  calendarMap [[("2024-03-01", 2); ("2024-03-02", 0)]; [("2024-03-03", 5)]]
  = [("2024-03-01", 2); ("2024-03-02", 0); ("2024-03-03", 5)].
Proof.
  apply (calendarMap_distinct
           [[("2024-03-01", 2); ("2024-03-02", 0)]; [("2024-03-03", 5)]]).
  apply (bool_decide_unpack _). vm_compute. exact I.
Defined.

(** X18. From the answers to the merged series: for the answers of any
    users, the merged map holds a date exactly when one of the answers lists
    it, with the sum over the users of the count of its last day in the
    answer of each.  No assumption on the answers is needed: the maps that
    are merged have no repeated date. *)
Theorem merge_of_calendars (calendars : list (list (list (string * Z))))
    (date : string) :
  Forall Dict.wf (calendarMap <$> calendars)
  /\ Dict.get date (mergeMaps (calendarMap <$> calendars))
     = if bool_decide (Exists (fun weeks => date ∈ (mjoin weeks).*1) calendars)
       then Some (foldr Z.add 0
                    ((fun weeks => default 0 (lastCount date (mjoin weeks)))
                       <$> calendars))
       else None.
Proof.
  assert (Forall Dict.wf (calendarMap <$> calendars)) as Hwf.
  { apply Forall_fmap, Forall_forall. intros weeks _. unfold compose.
    rewrite calendarMap_days. unfold Dict.wf. rewrite calendarMap_keys.
    apply firstSeen_from_NoDup, NoDup_nil_2. }
  split; [exact Hwf|]. rewrite mergeMaps_get by exact Hwf.
  assert (sumCounts date (calendarMap <$> calendars)
          = foldr Z.add 0
              ((fun weeks => default 0 (lastCount date (mjoin weeks)))
                 <$> calendars)) as ->.
  { unfold sumCounts. rewrite <- list_fmap_compose. f_equal.
    apply list_fmap_ext. intros _ weeks _. unfold countAt. cbn [compose].
    by rewrite calendarMap_days, calendarMap_get. }
  assert (anyHas date (calendarMap <$> calendars) = true
          <-> Exists (fun weeks => date ∈ (mjoin weeks).*1) calendars) as Hany.
  { rewrite anyHas_true, Exists_exists. split.
    - intros (m & (weeks & -> & Hweeks)%list_elem_of_fmap & Hm).
      exists weeks. split; [done|]. apply get_is_Some in Hm.
      rewrite calendarMap_days, calendarMap_keys in Hm.
      apply firstSeen_from_elem in Hm as [[]%elem_of_nil|Hm]. done.
    - intros (weeks & Hweeks & Hdate). exists (calendarMap weeks).
      split; [apply list_elem_of_fmap; eauto|]. apply get_is_Some.
      rewrite calendarMap_days, calendarMap_keys.
      apply firstSeen_from_elem. by right. }
  destruct (anyHas date (calendarMap <$> calendars)) eqn:Hh.
  - rewrite bool_decide_eq_true_2; [done|]. by apply Hany.
  - rewrite bool_decide_eq_false_2; [done|]. intros H%Hany. done.
Qed.

(** ** The identities of a request *)

Section UsersFacts.

Local Abbreviation chars := String.list_ascii_of_string.

Lemma chars_inj s s' : chars s = chars s' -> s = s'.
Proof.
  intros H. rewrite <- (String.string_of_list_ascii_of_string s),
    <- (String.string_of_list_ascii_of_string s'). by rewrite H.
Qed.

Lemma chars_rev_app s acc :
  chars (String.rev_app s acc) = reverse (chars s) ++ chars acc.
Proof.
  revert acc. induction s as [|c s IH]; intros acc; [done|].
  cbn [String.rev_app String.list_ascii_of_string].
  rewrite IH, reverse_cons, <- app_assoc. done.
Qed.

Lemma chars_rev s : chars (String.rev s) = reverse (chars s).
Proof. unfold String.rev. by rewrite chars_rev_app, app_nil_r. Qed.

Lemma rev_rev s : String.rev (String.rev s) = s.
Proof. apply chars_inj. by rewrite !chars_rev, reverse_involutive. Qed.

Lemma trimStart_suffix s :
  exists pre, chars s = pre ++ chars (trimStart s).
Proof.
  induction s as [|c s [pre IH]]; [by exists []|].
  cbn [trimStart]. destruct (isWhiteSpace c).
  - exists (c :: pre). cbn [String.list_ascii_of_string]. by rewrite IH.
  - by exists [].
Qed.

Lemma trimStart_head s c :
  head (chars (trimStart s)) = Some c -> isWhiteSpace c = false.
Proof.
  induction s as [|c' s IH]; [done|]. cbn [trimStart].
  destruct (isWhiteSpace c') eqn:Hc'; [done|].
  cbn [String.list_ascii_of_string head]. by intros [= <-].
Qed.

Lemma trimStart_fixed s :
  (forall c, head (chars s) = Some c -> isWhiteSpace c = false) ->
  trimStart s = s.
Proof.
  destruct s as [|c s]; [done|]. intros H. cbn [trimStart].
  by rewrite (H c).
Qed.

(** The characters of [trim s] are a segment of those of [s]. *)
Lemma trim_segment s :
  exists pre post, chars s = pre ++ chars (trim s) ++ post.
Proof.
  destruct (trimStart_suffix s) as [pre Hpre].
  destruct (trimStart_suffix (String.rev (trimStart s))) as [post Hpost].
  exists pre, (reverse post). rewrite Hpre. f_equal.
  unfold trim. rewrite chars_rev, <- reverse_app, <- Hpost, chars_rev.
  by rewrite reverse_involutive.
Qed.

Lemma trim_isTrimmed s : isTrimmed (trim s).
Proof.
  destruct (trimStart_suffix (String.rev (trimStart s))) as [post Hpost].
  rewrite chars_rev in Hpost.
  assert (chars (trimStart s) = chars (trim s) ++ reverse post) as Hseg.
  { unfold trim. rewrite chars_rev, <- reverse_app, <- Hpost.
    by rewrite reverse_involutive. }
  split; intros c Hc.
  - apply (trimStart_head s). rewrite Hseg.
    destruct (chars (trim s)); [done|]. exact Hc.
  - apply (trimStart_head (String.rev (trimStart s))).
    unfold trim in Hc. rewrite chars_rev, last_reverse in Hc. exact Hc.
Qed.

Lemma isTrimmed_trim s : isTrimmed s -> trim s = s.
Proof.
  intros [Hhead Hlast]. unfold trim.
  rewrite (trimStart_fixed s) by done.
  rewrite (trimStart_fixed (String.rev s)); [apply rev_rev|].
  intros c. rewrite chars_rev, head_reverse. apply Hlast.
Qed.

Lemma split_nonempty sep s : split sep s <> [].
Proof.
  destruct s as [|c s]; [done|]. cbn [split].
  destruct (decide (c = sep)); [done|]. by destruct (split sep s).
Qed.

(** No piece of [s.split(sep)] holds the separator. *)
Lemma split_no_sep sep s : Forall (fun w => sep ∉ chars w) (split sep s).
Proof.
  induction s as [|c s IH].
  - apply Forall_singleton. apply not_elem_of_nil.
  - cbn [split]. destruct (decide (c = sep)) as [->|Hne].
    + apply Forall_cons. split; [apply not_elem_of_nil | done].
    + destruct (split sep s) as [|w ws].
      * apply Forall_singleton. cbn [String.list_ascii_of_string].
        rewrite not_elem_of_cons. split; [done | apply not_elem_of_nil].
      * apply Forall_cons in IH as [Hw Hws]. apply Forall_cons.
        split; [|done]. cbn [String.list_ascii_of_string].
        rewrite not_elem_of_cons. split; done.
Qed.

Lemma split_whole sep w : sep ∉ chars w -> split sep w = [w].
Proof.
  induction w as [|c w IH]; [done|]. cbn [String.list_ascii_of_string split].
  rewrite not_elem_of_cons. intros [Hne Hw].
  rewrite decide_False by done. by rewrite IH.
Qed.

Lemma split_app sep w s :
  sep ∉ chars w ->
  split sep (w +:+ String sep s) = w :: split sep s.
Proof.
  induction w as [|c w IH].
  - intros _. change ("" +:+ String sep s) with (String sep s).
    cbn [split]. by rewrite decide_True.
  - cbn [String.list_ascii_of_string]. rewrite not_elem_of_cons.
    intros [Hne Hw].
    change (String c w +:+ String sep s) with (String c (w +:+ String sep s)).
    cbn [split]. rewrite decide_False by done. by rewrite IH.
Qed.

(** [l.join(sep).split(sep)] gives [l] back when no element holds the
    separator and [l] is not empty. *)
Lemma split_join sep l :
  l <> [] -> Forall (fun w => sep ∉ chars w) l ->
  split sep (Array_join (String sep "") l) = l.
Proof.
  unfold Array_join. induction l as [|w l IH]; [done|]. intros _ Hl.
  apply Forall_cons in Hl as [Hw Hl]. destruct l as [|w' l].
  - cbn [String.concat]. by apply split_whole.
  - change (String.concat (String sep "") (w :: w' :: l))
      with (w +:+ String sep (String.concat (String sep "") (w' :: l))).
    rewrite split_app by done. by rewrite IH.
Qed.

Lemma usersOf_spec raw :
  Forall (fun u => u <> "" /\ (","%char ∉ chars u) /\ isTrimmed u /\ trim u = u)
         (usersOf raw).
Proof.
  unfold usersOf. apply Forall_forall. intros u Hu.
  apply list_elem_of_filter in Hu as [Hne (w & -> & Hw)%list_elem_of_fmap].
  split_and!; [done | | apply trim_isTrimmed
               | apply isTrimmed_trim, trim_isTrimmed].
  pose proof (split_no_sep "," raw) as Hsep.
  rewrite Forall_forall in Hsep. specialize (Hsep w Hw).
  destruct (trim_segment w) as (pre & post & Hseg). intros Hin.
  apply Hsep. rewrite Hseg, !elem_of_app. tauto.
Qed.

Lemma parseUsersParam_Return_inv query_users users :
  parseUsersParam query_users = Return users ->
  users = usersOf (default "" (or_null query_users))
  /\ (1 <= length users <= 10)%nat.
Proof.
  unfold parseUsersParam.
  destruct (decide (length (usersOf (default "" (or_null query_users))) = 0%nat));
    [done|].
  destruct (decide (10 < length (usersOf (default "" (or_null query_users))))%nat);
    [done|].
  intros [= <-]. split; [done | lia].
Qed.

Lemma usersOf_join users :
  users <> [] ->
  Forall (fun u => u <> "" /\ (","%char ∉ chars u) /\ isTrimmed u /\ trim u = u)
         users ->
  usersOf (Array_join "," users) = users.
Proof.
  intros Hne Husers. unfold usersOf.
  rewrite (split_join "," users);
    [|done | by eapply Forall_impl; [exact Husers | intros u (_ & ? & _)]].
  clear Hne. induction Husers as [|u users (Hu & _ & _ & Htrim) _ IH]; [done|].
  rewrite fmap_cons, Htrim, filter_cons_True by done. by rewrite IH.
Qed.

End UsersFacts.

(** X19. What [parseUsersParam] returns: the parameter is there, the list
    is the one of its identities, it has from 1 to 10 entries, and every
    entry is a non-empty string without a comma that neither starts nor
    ends with white space, so that trimming it again changes nothing. *)
Theorem parseUsersParam_identities (query_users : option string)
    (users : list string) :
  parseUsersParam query_users = Return users ->
  (1 <= length users <= 10)%nat
  /\ (exists raw, query_users = Some raw /\ raw <> "" /\ users = usersOf raw)
  /\ Forall (fun u => u <> ""
                      /\ (","%char ∉ String.list_ascii_of_string u)
                      /\ isTrimmed u /\ trim u = u) users.
Proof.
  intros Hreturn.
  apply parseUsersParam_Return_inv in Hreturn as [-> Hlen].
  split_and!; [lia | lia | | apply usersOf_spec].
  destruct query_users as [raw|]; [|by vm_compute in Hlen; lia].
  unfold or_null in *. destruct (decide (raw = "")) as [->|Hraw].
  - vm_compute in Hlen. lia.
  - by exists raw.
Qed.

Lemma parseUsersParam_identities_witness :
  (1 <= length ["donken"; "donken-lilly"] <= 10)%nat
  /\ (exists raw, Some " donken, ,donken-lilly " = Some raw /\ raw <> ""
                  /\ ["donken"; "donken-lilly"] = usersOf raw)
  /\ Forall (fun u => u <> ""
                      /\ (","%char ∉ String.list_ascii_of_string u)
                      /\ isTrimmed u /\ trim u = u)
            ["donken"; "donken-lilly"].
Proof.
  apply (parseUsersParam_identities (Some " donken, ,donken-lilly ")).
  vm_compute. reflexivity.
Defined.

(** X20. The list that [parseUsersParam] returns is in canonical form:
    joined with commas, as in the key of the cache, and parsed again it
    comes back unchanged.  So the key determines the list: two requests
    share an entry of the cache of a route only when they name the same
    identities in the same order. *)
Theorem parseUsersParam_canonical (query_users : option string)
    (users : list string) :
  parseUsersParam query_users = Return users ->
  parseUsersParam (Some (Array_join "," users)) = Return users
  /\ forall query_users' users',
       parseUsersParam query_users' = Return users' ->
       (combinedKey users = combinedKey users'
        \/ combinedSvgKey users = combinedSvgKey users') ->
       users = users'.
Proof.
  assert (forall q us, parseUsersParam q = Return us ->
            (1 <= length us <= 10)%nat /\ usersOf (Array_join "," us) = us)
    as Hround.
  { intros q us Hq. apply parseUsersParam_Return_inv in Hq as [-> Hlen].
    split; [done|]. apply usersOf_join; [|apply usersOf_spec].
    intros Hnil. rewrite Hnil in Hlen. simpl in Hlen. lia. }
  intros Hreturn. destruct (Hround _ _ Hreturn) as [Hlen Husers]. split.
  - unfold parseUsersParam.
    assert (default "" (or_null (Some (Array_join "," users)))
            = Array_join "," users) as ->.
    { unfold or_null. by destruct (decide (Array_join "," users = "")) as [->|]. }
    rewrite Husers.
    rewrite decide_False by lia. by rewrite decide_False by lia.
  - intros q' users' Hreturn' Hkey.
    destruct (Hround _ _ Hreturn') as [_ Husers'].
    assert (Array_join "," users = Array_join "," users') as Hjoin.
    { destruct Hkey as [Hkey|Hkey]; unfold combinedKey, combinedSvgKey in Hkey;
        by apply String.app_inj in Hkey. }
    by rewrite <- Husers, <- Husers', Hjoin.
Qed.

Lemma parseUsersParam_canonical_witness :
  parseUsersParam (Some (Array_join "," ["donken"; "donken-lilly"]))
  = Return ["donken"; "donken-lilly"].
Proof.
  apply (parseUsersParam_canonical (Some " donken, ,donken-lilly ")).
  vm_compute. reflexivity.
Defined.

(** ** The text and the spacing of the month labels *)

Section MonthRunFacts.

Import JsDate.

(** The year, the month and the date of a time value depend on its day
    only. *)
Lemma fields_of_Day t t' :
  Day t = Day t' ->
  YearFromTime t = YearFromTime t' /\ MonthFromTime t = MonthFromTime t'
  /\ DateFromTime t = DateFromTime t'.
Proof.
  intros Hday.
  assert (YearFromTime t = YearFromTime t') as Hy
    by (unfold YearFromTime; by rewrite Hday).
  assert (DayWithinYear t = DayWithinYear t') as Hd
    by (unfold DayWithinYear; by rewrite Hday, Hy).
  assert (InLeapYear t = InLeapYear t') as Hl
    by (unfold InLeapYear; by rewrite Hy).
  assert (MonthFromTime t = MonthFromTime t') as Hm
    by (unfold MonthFromTime; by rewrite Hd, Hl).
  split_and!; [done | done |]. unfold DateFromTime. by rewrite Hd, Hl, Hm.
Qed.

(** A month has at least 28 days: from its first day on, 28 days have its
    year and month. *)
Lemma month_run t t' :
  DateFromTime t = 1 -> Day t <= Day t' < Day t + 28 ->
  monthNumber t' = monthNumber t.
Proof.
  intros Hfirst Hday. pose proof (MonthFromTime_range t) as Hm.
  pose proof (monthEnd_length (leapOfYear (YearFromTime t)) (MonthFromTime t)) as Hlen.
  destruct (MakeDay_civil (YearFromTime t) (MonthFromTime t)
              (1 + (Day t' - Day t))) as (Hy' & Hm' & _).
  { done. }
  { destruct (leapOfYear_cases (YearFromTime t)) as [Hl|Hl]; rewrite Hl in *; lia. }
  destruct (fields_of_Day t'
              (MakeDate (MakeDay (YearFromTime t) (MonthFromTime t)
                           (1 + (Day t' - Day t))) 0)) as (Hy & Hmn & _).
  { rewrite Day_MakeDate, MakeDay_same_month. lia. }
  unfold monthNumber. rewrite Hy, Hmn, Hy', Hm'. done.
Qed.

(** The day after a day of another month is the first of its month. *)
Lemma month_start t t' :
  Day t' = Day t - 1 -> monthNumber t' <> monthNumber t -> DateFromTime t = 1.
Proof.
  intros Hday Hne. pose proof (DateFromTime_range t) as Hd.
  destruct (decide (DateFromTime t = 1)) as [|Hd1]; [done|]. exfalso.
  apply Hne. pose proof (MonthFromTime_range t) as Hm.
  pose proof (MonthFromTime_bounds t) as [Hlo Hhi].
  destruct (MakeDay_civil (YearFromTime t) (MonthFromTime t)
              (DateFromTime t - 1)) as (Hy' & Hm' & _).
  { done. }
  { unfold DateFromTime, InLeapYear in *. lia. }
  destruct (fields_of_Day t'
              (MakeDate (MakeDay (YearFromTime t) (MonthFromTime t)
                           (DateFromTime t - 1)) 0)) as (Hy & Hmn & _).
  { rewrite Day_MakeDate, MakeDay_same_month. lia. }
  unfold monthNumber. rewrite Hy, Hmn, Hy', Hm'. done.
Qed.

(** The name of the month of a month key. *)
Lemma monthName_key y m :
  0 <= m <= 11 ->
  monthName (nth 1 (split "-" (monthKeyString y m)) "undefined")
  = nth (Z.to_nat m) monthNames "undefined".
Proof.
  intros Hm. unfold monthKeyString. rewrite digits4, digits2.
  cbv [String.append].
  rewrite !split_digit, split_hyphen, !split_digit by apply digitChar_isDigit.
  cbn [split nth]. unfold monthName.
  rewrite Number_digits2, !digitVal_digitChar by apply digitChar_isDigit.
  assert (10 * ((m + 1) / 10 mod 10) + (m + 1) mod 10 = m + 1) as ->
    by (Z.to_euclidean_division_equations; lia).
  destruct (Z.leb_spec 1 (m + 1)); [|lia]. do 2 f_equal. lia.
Qed.

Lemma monthNames_nth m :
  0 <= m <= 11 -> nth (Z.to_nat m) monthNames "undefined" ∈ monthNames.
Proof.
  intros H%month_cases.
  repeat (destruct H as [-> | H]); try subst m; by_eval.
Qed.

End MonthRunFacts.

(** X21. The month labels of a payload with two date keys.  Every label is
    the name, one of the twelve, of the month of the days of its key, at
    height 16.  The first label is the one of the first day of the grid, in
    column 0.  The labels go from left to right; every label after the
    first is at the column of the first day of its month, and from it the
    next label is at least four columns, 64 units, to the right. *)
Theorem monthLabels_spacing (p : Payload) (start end_ : string) :
  payload_start p = Some start -> payload_end p = Some end_ ->
  isIsoDate start = true -> isIsoDate end_ = true ->
  exists g c,
    grid start end_ = Some g
    /\ renderCalendar p = Some (Full c)
    /\ (forall l, l ∈ cal_monthLabels c ->
          ml_label l ∈ monthNames /\ ml_textY l = 16
          /\ forall i, 0 <= i < grid_totalDays g ->
               monthKeyOfDay (grid_calendarStart g) i = ml_key l ->
               ml_label l
               = nth (Z.to_nat (JsDate.MonthFromTime
                                  (grid_calendarStart g + i * JsDate.msPerDay)))
                     monthNames "undefined")
    /\ (forall l, head (cal_monthLabels c) = Some l ->
          ml_key l = monthKeyOfDay (grid_calendarStart g) 0
          /\ ml_weekIndex l = 0 /\ ml_textX l = paddingLeft + padding)
    /\ (forall a b la lb,
          cal_monthLabels c !! a = Some la -> cal_monthLabels c !! b = Some lb ->
          (a < b)%nat ->
          ml_textX la <= ml_textX lb
          /\ ((1 <= a)%nat -> ml_textX la + 4 * (rectSize + gap) <= ml_textX lb))
    /\ (forall a l,
          cal_monthLabels c !! a = Some l -> (1 <= a)%nat ->
          exists i, 0 <= i < grid_totalDays g
            /\ monthKeyOfDay (grid_calendarStart g) i = ml_key l
            /\ JsDate.DateFromTime (grid_calendarStart g + i * JsDate.msPerDay) = 1
            /\ ml_weekIndex l = i / 7).
Proof.
  intros Hstart Hend (s & Hs & Hslo & _)%isIsoDate_parse
    (e & He & _ & Hehi)%isIsoDate_parse.
  destruct (renderCalendar_parsed p start end_ s e)
    as (mp & c & Hmp & Hrender & Hlabels & _); [done..|].
  pose proof (parseDate_dateValue _ _ Hs) as Hsv.
  pose proof (parseDate_dateValue _ _ He) as Hev.
  destruct (monthPositionsOf_first
              (JsDate.MakeDate (JsDate.Day s - JsDate.WeekDay s) 0)
              (JsDate.Day e - (JsDate.Day s - JsDate.WeekDay s) + 1))
    as (mp' & Hmp' & Hwf & Hget).
  { intros j Hj. by apply (grid_days_in_range s e). }
  rewrite Hmp in Hmp'. injection Hmp' as <-.
  eexists _, c. split; [by apply grid_parsed|]. split; [done|].
  cbn [grid_calendarStart grid_totalDays].
  assert (forall i, 0 <= i < JsDate.Day e - (JsDate.Day s - JsDate.WeekDay s) + 1 ->
            0 <= JsDate.YearFromTime
                   (JsDate.MakeDate (JsDate.Day s - JsDate.WeekDay s) 0
                    + i * JsDate.msPerDay) <= 9999) as Hyear
    by (intros i Hi; by apply (grid_day_year s e)).
  revert Hmp Hget Hyear.
  generalize (JsDate.MakeDate (JsDate.Day s - JsDate.WeekDay s) 0).
  generalize (JsDate.Day e - (JsDate.Day s - JsDate.WeekDay s) + 1).
  intros td cs Hmp Hget Hyear.
  set (L := cal_monthLabels c) in *.
  assert (forall i, 0 <= i < td ->
            monthKeyOfDay cs i
            = monthKeyString (JsDate.YearFromTime (cs + i * JsDate.msPerDay))
                (JsDate.MonthFromTime (cs + i * JsDate.msPerDay))) as Hkey.
  { intros i Hi. apply monthKeyOf_in_range. by apply Hyear. }
  assert (forall i j, 0 <= i < td -> 0 <= j < td ->
            monthKeyOfDay cs i = monthKeyOfDay cs j
            <-> monthNumber (cs + i * JsDate.msPerDay)
                = monthNumber (cs + j * JsDate.msPerDay)) as Hkeq.
  { intros i j Hi Hj. rewrite !Hkey by done.
    pose proof (Hyear i Hi) as Hyi. pose proof (Hyear j Hj) as Hyj.
    pose proof (MonthFromTime_range (cs + i * JsDate.msPerDay)) as Hmi.
    pose proof (MonthFromTime_range (cs + j * JsDate.msPerDay)) as Hmj.
    unfold monthNumber. split.
    - apply monthKeyString_inj; assumption.
    - intros Heq.
      assert (JsDate.YearFromTime (cs + i * JsDate.msPerDay)
              = JsDate.YearFromTime (cs + j * JsDate.msPerDay)) as -> by lia.
      assert (JsDate.MonthFromTime (cs + i * JsDate.msPerDay)
              = JsDate.MonthFromTime (cs + j * JsDate.msPerDay)) as -> by lia.
      done. }
  assert (forall a l, L !! a = Some l ->
            ml_label l = monthName (nth 1 (split "-" (ml_key l)) "undefined")
            /\ ml_textY l = 16
            /\ exists i, 0 <= i < td
                 /\ monthKeyOfDay cs i = ml_key l
                 /\ (forall j, 0 <= j < i -> monthKeyOfDay cs j <> ml_key l)
                 /\ ml_weekIndex l = i / 7
                 /\ ml_textX l = paddingLeft + padding + i / 7 * (rectSize + gap))
    as Hlab.
  { intros a l Hl. subst L. rewrite Hlabels in Hl.
    apply list_lookup_fmap_Some in Hl as (k & -> & Hk).
    split; [done|]. split; [done|].
    unfold monthLabel. cbn [ml_key ml_weekIndex ml_textX]. rewrite Hget.
    apply list_elem_of_lookup_2 in Hk. rewrite Array_sort_perm in Hk.
    apply get_is_Some in Hk. rewrite Hget, fmap_is_Some in Hk.
    destruct Hk as [i0 Hi0]. rewrite Hi0.
    apply firstIndex_Some in Hi0 as (Hr & Hk0 & Hfirst).
    exists i0. split_and!; try done; try lia. }
  assert (forall a b la lb i j,
            L !! a = Some la -> L !! b = Some lb -> (a < b)%nat ->
            0 <= i < td -> 0 <= j < td ->
            monthKeyOfDay cs i = ml_key la -> monthKeyOfDay cs j = ml_key lb ->
            i < j) as Horder.
  { intros a b la lb i j Ha Hb Hab Hi Hj Hki Hkj. subst L.
    rewrite Hlabels in Ha, Hb.
    apply list_lookup_fmap_Some in Ha as (ka & -> & Ha).
    apply list_lookup_fmap_Some in Hb as (kb & -> & Hb).
    cbn [monthLabel ml_key] in Hki, Hkj.
    pose proof (StronglySorted_lookup _ _ _ _ _ _
                  (Array_sort_sorted (Dict.keys mp)) Ha Hb Hab) as Hle.
    destruct (decide (i < j)) as [|Hji]; [done|]. exfalso.
    assert (ka <> kb) as Hne.
    { intros ->. assert (NoDup (Array_sort (Dict.keys mp))) as Hnd
        by (rewrite Array_sort_perm; exact Hwf).
      pose proof (NoDup_lookup _ _ _ _ Hnd Ha Hb). lia. }
    apply Hne. apply (anti_symm String.le); [done|].
    rewrite <- Hki, <- Hkj, !Hkey by done.
    pose proof (Hyear i Hi) as Hyi. pose proof (Hyear j Hj) as Hyj.
    pose proof (MonthFromTime_range (cs + i * JsDate.msPerDay)) as Hmi.
    pose proof (MonthFromTime_range (cs + j * JsDate.msPerDay)) as Hmj.
    apply monthKeyString_le; [assumption..|].
    apply (monthNumber_mono (cs + j * JsDate.msPerDay) (cs + i * JsDate.msPerDay)).
    rewrite !Day_add_days. lia. }
  assert (forall a l i,
            L !! a = Some l -> (1 <= a)%nat -> 0 <= i < td ->
            monthKeyOfDay cs i = ml_key l ->
            (forall j, 0 <= j < i -> monthKeyOfDay cs j <> ml_key l) ->
            JsDate.DateFromTime (cs + i * JsDate.msPerDay) = 1) as Hfirstday.
  { intros a l i Hl Ha Hi Hki Hfirst.
    destruct (lookup_lt_is_Some_2 L 0%nat) as [l0 Hl0].
    { apply lookup_lt_Some in Hl. lia. }
    destruct (Hlab _ _ Hl0) as (_ & _ & i0 & Hi0 & Hki0 & _).
    assert (i0 < i) as Hlt by (apply (Horder 0%nat a l0 l); done || lia).
    apply (month_start _ (cs + (i - 1) * JsDate.msPerDay)).
    - rewrite !Day_add_days. lia.
    - intros Heq. apply (Hfirst (i - 1)); [lia|].
      rewrite <- Hki. apply Hkeq; [lia | done | done]. }
  split_and!.
  - intros l (a & Hl)%list_elem_of_lookup_1.
    destruct (Hlab _ _ Hl) as (Hname & HtextY & i & Hi & Hki & _).
    assert (forall j, 0 <= j < td -> monthKeyOfDay cs j = ml_key l ->
              ml_label l
              = nth (Z.to_nat (JsDate.MonthFromTime (cs + j * JsDate.msPerDay)))
                    monthNames "undefined") as Hnth.
    { intros j Hj Hkj. rewrite Hname, <- Hkj, Hkey by done.
      apply monthName_key, MonthFromTime_range. }
    split_and!; [|done|done].
    rewrite (Hnth i Hi Hki). apply monthNames_nth, MonthFromTime_range.
  - intros l Hl. rewrite head_lookup in Hl.
    destruct (Hlab _ _ Hl) as (_ & _ & i & Hi & Hki & Hfirst & Hweek & HtextX).
    assert (i = 0) as ->; [|by rewrite Hweek, HtextX, Hki].
    destruct (decide (i = 0)) as [|Hne]; [done|]. exfalso.
    assert (monthKeyOfDay cs 0 ∈ Array_sort (Dict.keys mp)) as Hin.
    { rewrite Array_sort_perm. apply get_is_Some. rewrite Hget, fmap_is_Some.
      apply (firstIndex_is_Some _ _ _ _ 0); [lia | done]. }
    apply list_elem_of_lookup_1 in Hin as [a0 Ha0].
    assert (L !! a0 = Some (monthLabel mp (monthKeyOfDay cs 0))) as Hl0
      by (subst L; by rewrite Hlabels, list_lookup_fmap, Ha0).
    destruct a0 as [|a0].
    + rewrite Hl in Hl0. injection Hl0 as ->.
      apply (Hfirst 0); [lia | done].
    + assert (i < 0); [|lia].
      apply (Horder 0%nat (S a0) l (monthLabel mp (monthKeyOfDay cs 0)));
        done || lia.
  - intros a b la lb Ha Hb Hab.
    destruct (Hlab _ _ Ha) as (_ & _ & i & Hi & Hki & Hfirsti & _ & ->).
    destruct (Hlab _ _ Hb) as (_ & _ & j & Hj & Hkj & _ & _ & ->).
    assert (i < j) as Hij by (apply (Horder a b la lb); done).
    change rectSize with 12. change gap with 4.
    split; [Z.to_euclidean_division_equations; lia|]. intros Ha1.
    pose proof (Hfirstday a la i Ha Ha1 Hi Hki Hfirsti) as Hdate.
    assert (i + 28 <= j) as Hrun.
    { destruct (decide (i + 28 <= j)) as [|Hnear]; [done|]. exfalso.
      assert (i < i); [|lia]. apply (Horder a b la lb); try done.
      rewrite <- Hkj. apply Hkeq; [done | done |]. symmetry.
      apply month_run; [done|]. rewrite !Day_add_days. lia. }
    Z.to_euclidean_division_equations. lia.
  - intros a l Hl Ha.
    destruct (Hlab _ _ Hl) as (_ & _ & i & Hi & Hki & Hfirsti & Hweek & _).
    exists i. split_and!; try done; try lia. by apply (Hfirstday a l).
Qed.

Lemma monthLabels_spacing_witness :
  exists c,
    renderCalendar
      {| payload_start := Some "2024-01-15"; payload_end := Some "2024-04-10";
         payload_total := 2;
         payload_counts := [("2024-01-15", 1); ("2024-04-10", 1)] |}
    = Some (Full c)
    /\ forall a b la lb,
         cal_monthLabels c !! a = Some la -> cal_monthLabels c !! b = Some lb ->
         (a < b)%nat ->
         ml_textX la <= ml_textX lb
         /\ ((1 <= a)%nat -> ml_textX la + 4 * (rectSize + gap) <= ml_textX lb).
Proof.
  destruct (monthLabels_spacing
              {| payload_start := Some "2024-01-15";
                 payload_end := Some "2024-04-10";
                 payload_total := 2;
                 payload_counts := [("2024-01-15", 1); ("2024-04-10", 1)] |}
              "2024-01-15" "2024-04-10")
    as (g & c & _ & Hrender & _ & _ & Hspacing & _);
    [reflexivity | reflexivity | reflexivity | reflexivity |].
  exists c. split; [exact Hrender | exact Hspacing].
Defined.

(** ** Labels and squares *)

(** X22. The labels of a rendering are placed by the grid of its squares.
    The weekday labels are Mon, Wed and Fri for the rows 1, 3 and 5; each is
    left of every square, and its baseline is within the height of the
    squares of its row.  Every month label is above every square, and starts
    at the left edge of the squares of its column. *)
Theorem labels_follow_grid (p : Payload) (c : Calendar) :
  renderCalendar p = Some (Full c) ->
  (fun wl => (wl_dow wl, wl_label wl)) <$> cal_weekdayLabels c = weekdayLabels
  /\ (forall wl cell, wl ∈ cal_weekdayLabels c -> cell ∈ cal_rects c ->
        wl_x wl < cell_x cell
        /\ (cell_dayOfWeek cell = wl_dow wl ->
            cell_y cell < wl_y wl <= cell_y cell + rectSize))
  /\ (forall l cell, l ∈ cal_monthLabels c -> cell ∈ cal_rects c ->
        ml_textY l < cell_y cell
        /\ (cell_weekIndex cell = ml_weekIndex l -> cell_x cell = ml_textX l)).
Proof.
  intros Hrender.
  destruct (renderCalendar_inv p c Hrender)
    as (start & end_ & s & e & Hstart & Hend & Hs & He).
  destruct (renderCalendar_parsed p start end_ s e Hstart Hend Hs He)
    as (mp & c' & _ & Hrender' & Hmonths & Hweekdays & _).
  rewrite Hrender in Hrender'. injection Hrender' as <-.
  assert (forall cell, cell ∈ cal_rects c ->
            0 <= cell_dayOfWeek cell <= 6
            /\ cell_x cell = paddingLeft + padding + cell_weekIndex cell * (rectSize + gap)
            /\ cell_y cell = paddingTop + padding + cell_dayOfWeek cell * (rectSize + gap)
            /\ paddingLeft + padding <= cell_x cell) as Hcell.
  { destruct (renderCalendar_parsed_full p start end_ s e c Hstart Hend Hs He Hrender)
      as (_ & _ & Hrects).
    rewrite Hrects. intros cell (i & Hi & ->)%elem_of_cells.
    unfold cellOfDay, cellAt.
    cbn [cell_dayOfWeek cell_weekIndex cell_x cell_y].
    pose proof (WeekDay_range
                  (JsDate.MakeDate (JsDate.Day s - JsDate.WeekDay s) 0
                   + i * JsDate.msPerDay)) as Hw.
    assert (0 <= i / 7) by (apply Z.div_pos; lia).
    change rectSize with 12. change gap with 4. change paddingLeft with 36.
    change padding with 8.
    unfold JsDate.getUTCDay. lia. }
  rewrite Hweekdays, Hmonths. split_and!.
  - reflexivity.
  - intros wl cell (w & -> & Hw)%list_elem_of_fmap Hin.
    destruct (Hcell cell Hin) as (Hdow & Hx & Hy & Hleft).
    rewrite Hy. unfold weekdayLabel. cbn [wl_x wl_y wl_dow].
    revert Hleft.
    change rectSize with 12. change gap with 4. change paddingLeft with 36.
    change padding with 8. change paddingTop with 22. change (12 / 2) with 6.
    intros Hleft. lia.
  - intros l cell (k & -> & Hk)%list_elem_of_fmap Hin.
    destruct (Hcell cell Hin) as (Hdow & Hx & Hy & Hleft).
    rewrite Hx, Hy. unfold monthLabel. cbn [ml_textY ml_textX ml_weekIndex].
    change rectSize with 12. change gap with 4. change paddingLeft with 36.
    change padding with 8. change paddingTop with 22.
    split; [lia|]. by intros ->.
Qed.

Lemma labels_follow_grid_witness :
  exists c,
    renderCalendar
      {| payload_start := Some "2024-03-01"; payload_end := Some "2024-03-12";
         payload_total := 13;
         payload_counts := [("2024-03-01", 12); ("2024-03-12", 1)] |}
    = Some (Full c)
    /\ (fun wl => (wl_dow wl, wl_label wl)) <$> cal_weekdayLabels c = weekdayLabels.
Proof.
  eexists. split; [vm_compute; reflexivity|].
  eapply (labels_follow_grid
            {| payload_start := Some "2024-03-01";
               payload_end := Some "2024-03-12";
               payload_total := 13;
               payload_counts := [("2024-03-01", 12); ("2024-03-12", 1)] |}).
  vm_compute. reflexivity.
Defined.

(** ** The text of the document *)

Lemma append_assoc (a b c : string) : (a +:+ b) +:+ c = a +:+ (b +:+ c).
Proof.
  induction a as [|x a IH]; [done|].
  change ((String x a +:+ b) +:+ c) with (String x ((a +:+ b) +:+ c)).
  by rewrite IH.
Qed.

(** X23. The label of the users goes into the document as it is: a
    rendering with squares is the label between two texts that do not
    depend on it, the first ending with the opening of the [aria-label]
    attribute.  No character of the label is replaced on the way. *)
Theorem svg_label_verbatim (p : Payload) (c : Calendar) :
  renderCalendar p = Some (Full c) ->
  exists before after,
    forall usersLabel,
      renderCalendarSVG p usersLabel
      = Some ((before +:+ " aria-label=" +:+ dq
               +:+ "Combined contributions calendar for ")
              +:+ usersLabel +:+ (dq +:+ after)).
Proof.
  intros Hrender. unfold renderCalendarSVG. rewrite Hrender.
  exists ("<?xml" +:+ attr "version" "1.0" +:+ attr "encoding" "UTF-8" +:+ "?>"
            +:+ nl
            +:+ "<svg" +:+ attr "xmlns" "http://www.w3.org/2000/svg"
            +:+ attr "width" (pretty (cal_width c))
            +:+ attr "height" (pretty (cal_height c))
            +:+ attr "viewBox" ("0 0 " +:+ pretty (cal_width c) +:+ " "
                                 +:+ pretty (cal_height c))
            +:+ attr "role" "img"),
    (">" +:+ nl
       +:+ "  <rect" +:+ attr "width" "100%" +:+ attr "height" "100%"
       +:+ attr "fill" "transparent" +:+ "/>" +:+ nl
       +:+ "  <!-- Month labels -->" +:+ nl
       +:+ "  " +:+ concatMap monthLabelSvg (cal_monthLabels c) +:+ nl
       +:+ "  <!-- Weekday labels -->" +:+ nl
       +:+ "  " +:+ concatMap weekdayLabelSvg (cal_weekdayLabels c) +:+ nl
       +:+ "  <!-- Contribution squares -->" +:+ nl
       +:+ "  " +:+ concatMap rectSvg (cal_rects c) +:+ nl
       +:+ "</svg>").
  intros usersLabel. cbn [fmap option_fmap option_map svgText].
  f_equal. cbv zeta.
  generalize (">" +:+ nl
       +:+ "  <rect" +:+ attr "width" "100%" +:+ attr "height" "100%"
       +:+ attr "fill" "transparent" +:+ "/>" +:+ nl
       +:+ "  <!-- Month labels -->" +:+ nl
       +:+ "  " +:+ concatMap monthLabelSvg (cal_monthLabels c) +:+ nl
       +:+ "  <!-- Weekday labels -->" +:+ nl
       +:+ "  " +:+ concatMap weekdayLabelSvg (cal_weekdayLabels c) +:+ nl
       +:+ "  <!-- Contribution squares -->" +:+ nl
       +:+ "  " +:+ concatMap rectSvg (cal_rects c) +:+ nl
       +:+ "</svg>").
  generalize (attr "width" (pretty (cal_width c))).
  generalize (attr "height" (pretty (cal_height c))).
  generalize (attr "viewBox" ("0 0 " +:+ pretty (cal_width c) +:+ " "
                                 +:+ pretty (cal_height c))).
  intros viewBox height width after.
  assert (attr "aria-label"
            ("Combined contributions calendar for " +:+ usersLabel)
          = (" aria-label=" +:+ dq +:+ "Combined contributions calendar for ")
            +:+ usersLabel +:+ dq) as ->.
  { unfold attr. rewrite !append_assoc. reflexivity. }
  rewrite !append_assoc. reflexivity.
Qed.

Lemma svg_label_verbatim_witness :
  exists before after,
    forall usersLabel,
      renderCalendarSVG
        {| payload_start := Some "2024-03-01"; payload_end := Some "2024-03-12";
           payload_total := 13;
           payload_counts := [("2024-03-01", 12); ("2024-03-12", 1)] |}
        usersLabel
      = Some ((before +:+ " aria-label=" +:+ dq
               +:+ "Combined contributions calendar for ")
              +:+ usersLabel +:+ (dq +:+ after)).
Proof.
  eapply (svg_label_verbatim
            {| payload_start := Some "2024-03-01";
               payload_end := Some "2024-03-12";
               payload_total := 13;
               payload_counts := [("2024-03-01", 12); ("2024-03-12", 1)] |}).
  vm_compute. reflexivity.
Defined.

(** ** The identities of the parameter *)

Section IdentityFacts.

Local Abbreviation chars := String.list_ascii_of_string.

Lemma trimStart_suffix_ws s :
  exists pre, chars s = pre ++ chars (trimStart s)
    /\ Forall (fun c => isWhiteSpace c = true) pre.
Proof.
  induction s as [|c s (pre & IH & Hws)]; [by exists []|].
  cbn [trimStart]. destruct (isWhiteSpace c) eqn:Hc.
  - exists (c :: pre). cbn [String.list_ascii_of_string]. rewrite IH.
    split; [done | by apply Forall_cons].
  - by exists [].
Qed.

(** [trimStart] removes a prefix of white space that is followed by
    another character or by nothing. *)
Lemma trimStart_chars pre rest s :
  chars s = pre ++ rest ->
  Forall (fun c => isWhiteSpace c = true) pre ->
  (forall c, head rest = Some c -> isWhiteSpace c = false) ->
  chars (trimStart s) = rest.
Proof.
  intros Hs Hpre Hrest. revert s Hs.
  induction Hpre as [|c pre Hc _ IH]; intros s Hs.
  - rewrite trimStart_fixed; [done|]. by rewrite Hs.
  - destruct s as [|c' s]; [done|].
    cbn [String.list_ascii_of_string] in Hs. injection Hs as -> Hs.
    cbn [trimStart]. rewrite Hc. by apply IH.
Qed.

Lemma TrimOf_trim w : TrimOf w (trim w).
Proof.
  destruct (trimStart_suffix_ws w) as (pre & Hpre & Hws).
  destruct (trimStart_suffix_ws (String.rev (trimStart w)))
    as (post & Hpost & Hws').
  exists pre, (reverse post).
  split_and!; [| done | by apply Forall_reverse | apply trim_isTrimmed].
  rewrite Hpre. f_equal.
  unfold trim. rewrite chars_rev, <- reverse_app, <- Hpost, chars_rev.
  by rewrite reverse_involutive.
Qed.

Lemma TrimOf_unique w u : TrimOf w u -> u = trim w.
Proof.
  intros (pre & post & Hw & Hpre & Hpost & [Hhead Hlast]).
  destruct (decide (u = "")) as [->|Hu].
  - assert (trimStart w = "") as Hempty.
    { apply chars_inj. apply (trimStart_chars (pre ++ post) []); [|by apply Forall_app|done].
      by rewrite Hw, app_nil_r. }
    unfold trim. by rewrite Hempty.
  - assert (chars u <> []) as Hne by (by destruct u).
    assert (chars (trimStart w) = chars u ++ post) as H1.
    { apply (trimStart_chars pre); [done..|].
      intros c Hc. apply Hhead. by destruct (chars u). }
    assert (chars (trimStart (String.rev (trimStart w))) = reverse (chars u))
      as H2.
    { apply (trimStart_chars (reverse post)).
      - by rewrite chars_rev, H1, reverse_app.
      - by apply Forall_reverse.
      - intros c. rewrite head_reverse. apply Hlast. }
    apply chars_inj. unfold trim.
    by rewrite chars_rev, H2, reverse_involutive.
Qed.

(** [s.split(sep).join(sep)] is [s]. *)
Lemma join_split sep s : Array_join (String sep "") (split sep s) = s.
Proof.
  unfold Array_join. induction s as [|c s IH]; [done|]. cbn [split].
  pose proof (split_nonempty sep s) as Hne.
  destruct (decide (c = sep)) as [->|Hc].
  - destruct (split sep s) as [|w ws]; [done|].
    change (String.concat (String sep "") ("" :: w :: ws))
      with (String sep (String.concat (String sep "") (w :: ws))).
    by rewrite IH.
  - destruct (split sep s) as [|w ws]; [done|]. rewrite <- IH.
    by destruct ws.
Qed.

Lemma Identities_usersOf raw : Identities raw (usersOf raw).
Proof.
  exists (split "," raw), (trim <$> split "," raw).
  split_and!; [apply split_nonempty | apply split_no_sep
               | symmetry; apply join_split | | done].
  apply Forall2_fmap_r, Forall_Forall2_diag, Forall_forall.
  intros w _. apply TrimOf_trim.
Qed.

Lemma Identities_unique raw users : Identities raw users -> users = usersOf raw.
Proof.
  intros (pieces & cores & Hne & Hsep & -> & Hcores & ->). unfold usersOf.
  rewrite (split_join "," pieces) by done. f_equal. clear Hne Hsep.
  induction Hcores as [|w u pieces cores Hu _ IH]; [done|].
  by rewrite fmap_cons, <- (TrimOf_unique w u Hu), IH.
Qed.

Lemma raw_or_null (query_users : option string) :
  default "" (or_null query_users) = default "" query_users.
Proof.
  destruct query_users as [raw|]; [|done]. unfold or_null.
  by destruct (decide (raw = "")) as [->|].
Qed.

End IdentityFacts.

(** C9. The parameter, as a list of pieces separated by commas, has one
    list of identities: its pieces without the white space around them, the
    blank ones left out.  [parseUsersParam] throws exactly when that list is
    empty or longer than 10, and the handler then answers 400 with the
    message whatever the rest of the pipeline would do; otherwise it returns
    that list, and the handler answers with what the pipeline makes of
    it. *)
Theorem parseUsersParam_bounds (query_users : option string) :
  exists users,
    Identities (default "" query_users) users
    /\ (forall users', Identities (default "" query_users) users' ->
          users' = users)
    /\ users = usersOf (default "" (or_null query_users))
    /\ ((length users = 0 \/ 10 < length users)%nat ->
          exists msg, parseUsersParam query_users = Throw msg
            /\ forall (B : Type) (serve : list string -> Outcome B),
                 handle serve query_users = (400, inr msg))
    /\ (~ (length users = 0 \/ 10 < length users)%nat ->
          parseUsersParam query_users = Return users
          /\ forall (B : Type) (serve : list string -> Outcome B),
               handle serve query_users
               = match serve users with
                 | Return body => (200, inl body)
                 | Throw msg => (400, inr msg)
                 end).
Proof.
  exists (usersOf (default "" query_users)).
  split; [apply Identities_usersOf|].
  split; [intros users'; apply Identities_unique|].
  split; [by rewrite raw_or_null|].
  unfold handle, parseUsersParam. rewrite raw_or_null.
  generalize (usersOf (default "" query_users)). intros users.
  destruct (decide (length users = 0%nat)) as [H0|H0].
  { split; [eauto | intros []; by left]. }
  destruct (decide (10 < length users)%nat) as [H10|H10].
  { split; [eauto | intros []; by right]. }
  split; [intros [|]; done | done].
Qed.

Lemma parseUsersParam_bounds_witness :
  parseUsersParam (Some " donken, ,donken-lilly ")
  = Return ["donken"; "donken-lilly"]
  /\ exists msg, parseUsersParam (Some " , ") = Throw msg.
Proof.
  split.
  - destruct (parseUsersParam_bounds (Some " donken, ,donken-lilly "))
      as (users & _ & Hunique & _ & _ & Hreturn).
    assert (["donken"; "donken-lilly"] = users) as <-.
    { apply Hunique.
      exists [" donken"; " "; "donken-lilly "], ["donken"; ""; "donken-lilly"].
      split_and!; [done | repeat constructor; by_eval | reflexivity | | reflexivity].
      repeat constructor.
      - exists [" "%char], []. split_and!; [reflexivity | by repeat constructor | constructor |].
        split; intros c [= <-]; reflexivity.
      - exists [" "%char], []. split_and!; [reflexivity | by repeat constructor | constructor |].
        split; intros c [=].
      - exists [], [" "%char]. split_and!; [reflexivity | constructor | by repeat constructor |].
        split; intros c [= <-]; reflexivity. }
    apply Hreturn. intros [H|H]; simpl in H; lia.
  - destruct (parseUsersParam_bounds (Some " , "))
      as (users & _ & Hunique & _ & Hthrow & _).
    assert ([] = users) as <-.
    { apply Hunique. exists [" "; " "], [""; ""].
      split_and!; [done | repeat constructor; by_eval | reflexivity | | reflexivity].
      repeat constructor.
      - exists [" "%char], []. split_and!; [reflexivity | by repeat constructor | constructor |].
        split; intros c [=].
      - exists [" "%char], []. split_and!; [reflexivity | by repeat constructor | constructor |].
        split; intros c [=]. }
    destruct Hthrow as (msg & Hmsg & _); [left; reflexivity|].
    exists msg. exact Hmsg.
Defined.
